(** * Weather analyzer: wide-to-long ingestion and descriptive statistics

    A shallow embedding of [weather_analyzer.py] (class [WeatherAnalyzer])
    and the properties of its ingestion and aggregation steps.

    Conventions of the model.
    - A data frame is the list of its rows, in row order.
    - Numeric values are kept behind the interface [Arith]: the carrier
      stands for the floats of the program, NaN and the infinities
      included, with the machine operations and the comparisons the program
      uses; [fis_nan] tells the NaNs.  A temperature that is stored can be
      NaN ([float] accepts the text of a NaN).  The result of a column
      reduction or of a subtraction that is written or compared is an
      optional value, [None] standing for NaN.
    - Text written to reports and to the console is kept structured (one
      constructor per [write]/[print] of the source, with the values that
      are formatted into it) instead of being rendered to characters.
    - Strings are byte strings; the Unicode digits and spaces that Python's
      [int] also accepts are outside the model.
    - The folder is given by the list of files the glob returns, each with
      its base name and the outcome of [pd.read_csv] on it (a frame or an
      exception).
    - A grouped frame lists its groups by first occurrence of the key, and a
      sort is a stable merge sort; pandas orders groups by key and leaves the
      order of ties to its sorting routine.  The properties below speak of
      the rows of such frames, not of their order. *)

From Stdlib Require Import Ascii String ZArith Lia.
From stdpp Require Import base numbers option strings list gmap sorting.

Local Open Scope Z_scope.

(** ** Python string builtins used on file names *)

Module Py.

(** [s.split(sep)] for a one-character separator: never empty. *)
Fixpoint split (sep : ascii) (s : string) : list string :=
  match s with
  | EmptyString => [EmptyString]
  | String c rest =>
      if Ascii.eqb c sep then EmptyString :: split sep rest
      else match split sep rest with
           | tok :: toks => String c tok :: toks
           | [] => [String c EmptyString]
           end
  end.

(** [s.replace(old, new)] for a non-empty [old]: left to right, every
    non-overlapping occurrence.  [skip] counts the characters of a matched
    occurrence that are still to be dropped. *)
Fixpoint replace_from (old new : string) (skip : nat) (s : string) : string :=
  match s with
  | EmptyString => EmptyString
  | String c rest =>
      match skip with
      | S k => replace_from old new k rest
      | O =>
          if String.prefix old s
          then new +:+ replace_from old new (String.length old - 1) rest
          else String c (replace_from old new 0 rest)
      end
  end.

Definition replace (old new s : string) : string := replace_from old new 0 s.

(** Whitespace as [int] strips it: tab..carriage return, FS..US, space. *)
Definition is_space (c : ascii) : bool :=
  let n := nat_of_ascii c in
  ((9 <=? n)%nat && (n <=? 13)%nat) || ((28 <=? n)%nat && (n <=? 32)%nat).

Fixpoint lstrip (s : string) : string :=
  match s with
  | String c rest => if is_space c then lstrip rest else s
  | EmptyString => EmptyString
  end.

Fixpoint rstrip (s : string) : string :=
  match s with
  | String c rest =>
      match rstrip rest with
      | EmptyString => if is_space c then EmptyString else String c EmptyString
      | r => String c r
      end
  | EmptyString => EmptyString
  end.

Definition strip (s : string) : string := rstrip (lstrip s).

Definition digit_of (c : ascii) : option Z :=
  let n := nat_of_ascii c in
  if ((48 <=? n)%nat && (n <=? 57)%nat) then Some (Z.of_nat n - 48) else None.

(** Decimal digits with single underscores between digits. *)
Fixpoint digits (s : string) (acc : Z) (after_digit : bool) : option Z :=
  match s with
  | EmptyString => if after_digit then Some acc else None
  | String c rest =>
      match digit_of c with
      | Some d => digits rest (10 * acc + d) true
      | None =>
          if Ascii.eqb c "_" && after_digit then digits rest acc false
          else None
      end
  end.

(** [int(s)] on a string, base ten; [None] stands for [ValueError]. *)
Definition int (s : string) : option Z :=
  match strip s with
  | String "+" r => digits r 0 false
  | String "-" r => Z.opp <$> digits r 0 false
  | t => digits t 0 false
  end.

End Py.

(** [int(filename.split('_')[-1].replace('.csv', ''))], with [None] for
    any exception raised on the way. *)
Definition extract_year (filename : string) : option Z :=
  tok ← last (Py.split "_" filename);
  Py.int (Py.replace ".csv" "" tok).

(** [s.removesuffix(suf)] *)
Definition remove_suffix (suf s : string) : string :=
  let n := (String.length s - String.length suf)%nat in
  if (String.length suf <=? String.length s)%nat
     && String.eqb (String.substring n (String.length suf) s) suf
  then String.substring 0 n s
  else s.

(** The year as the prose reads it: the last underscore-separated token of
    the file name, its [.csv] suffix removed, parsed as an integer. *)
Definition year_of_last_token (filename : string) : option Z :=
  tok ← last (Py.split "_" filename);
  Py.int (remove_suffix ".csv" tok).

(** Decimal digit strings, to state what [extract_year] reads from a name
    that ends in digits: the digit [d] (below ten) as a character, the text
    of a list of digits, and the number it denotes. *)
Definition digit_char (d : nat) : ascii := ascii_of_nat (48 + d).

Definition digit_string (ds : list nat) : string :=
  string_of_list_ascii (digit_char <$> ds).

Definition digits_value (ds : list nat) : Z :=
  foldl (λ acc d, 10 * acc + Z.of_nat d) 0 ds.

(** ** Numbers *)

(** The floats of the program with the operations the program and the
    aggregation routines use.  [fis_nan x] is [x != x]; [fleb] is [<=] and
    [feqb] is [==], both false as soon as one side is NaN and a total order
    on the other values (the infinities included); [float_of_string] is
    [float(s)] on a text cell, [None] when it raises.  Nothing is assumed of
    the arithmetic: it may round, overflow, or give NaN. *)
Class Arith (F : Type) := {
  fadd : F → F → F;
  fsub : F → F → F;
  fmul : F → F → F;
  fdiv : F → F → F;
  fsqrt : F → F;
  of_nat : nat → F;
  fis_nan : F → bool;
  fleb : F → F → bool;
  feqb : F → F → bool;
  float_of_string : string → option F;
  Arith_eq_dec :: EqDecision F;
  fleb_refl : ∀ x, fis_nan x = false → fleb x x = true;
  fleb_trans : ∀ x y z, fleb x y = true → fleb y z = true → fleb x z = true;
  fleb_total : ∀ x y, fis_nan x = false → fis_nan y = false →
                      fleb x y = true ∨ fleb y x = true;
  fleb_nan : ∀ x y, fleb x y = true → fis_nan x = false ∧ fis_nan y = false;
  feqb_fleb : ∀ x y, feqb x y = fleb x y && fleb y x
}.

(** ** Exceptions and results *)

Inductive exn :=
  | FileNotFoundError (folder : string)
  | ValueError
  | KeyError (key : string)
  | TypeError
  | OtherError (what : string).

Inductive res (A : Type) :=
  | Ok (a : A)
  | Raise (e : exn).
Arguments Ok {A} a.
Arguments Raise {A} e.

Definition month_columns : list string :=
  ["January"; "February"; "March"; "April"; "May"; "June";
   "July"; "August"; "September"; "October"; "November"; "December"]%string.

Definition season_order : list string :=
  ["Summer"; "Autumn"; "Winter"; "Spring"]%string.

(** The dictionary built by [__init__]. *)
Definition init_season_mapping : gmap string string :=
  list_to_map
    [("December", "Summer"); ("January", "Summer"); ("February", "Summer");
     ("March", "Autumn"); ("April", "Autumn"); ("May", "Autumn");
     ("June", "Winter"); ("July", "Winter"); ("August", "Winter");
     ("September", "Spring"); ("October", "Spring"); ("November", "Spring")]%string.

Section Analyzer.

Context {F : Type} {AF : Arith F}.

(** ** Cells, frames, long-form records *)

(** A value in a frame read by [pd.read_csv]. *)
Inductive cell :=
  | CMissing            (* NaN: empty field or NA token *)
  | CNum (x : F)        (* value of a numeric column *)
  | CBool (b : bool)    (* value of a boolean column *)
  | CStr (s : string).  (* text of an object column *)

#[export] Instance cell_eq_dec : EqDecision cell.
Proof. solve_decision. Defined.

(** [pd.isna(v)] on a scalar: NaN, as a missing value or as a float. *)
Definition isna (v : cell) : bool :=
  match v with
  | CMissing => true
  | CNum x => fis_nan x
  | _ => false
  end.

(** [float(v)]; [None] when it raises.  The program calls it only on cells
    that are not missing. *)
Definition py_float (v : cell) : option F :=
  match v with
  | CMissing => None
  | CNum x => Some x
  | CBool b => Some (of_nat (if b then 1 else 0))
  | CStr s => float_of_string s
  end.

Record data_frame := {
  columns : list string;
  rows : list (gmap string cell)
}.

(** [row[col]] for a column of the frame; a field the file left out is NaN. *)
Definition row_get (row : gmap string cell) (col : string) : cell :=
  default CMissing (row !! col).

(** A file matched by the glob: its base name and what [pd.read_csv] does
    on it. *)
Record csv_file := {
  file_name : string;
  read_csv : res data_frame
}.

Record long_record := {
  Station : cell;
  Year : Z;
  Month : string;
  Temperature : F;
  Season : string
}.

(** ** Reports and console *)

(** One item per [f.write] of the source. *)
Inductive line :=
  | Text (s : string)
  | SeasonLine (season : string) (temp : option F)
  | RangeLine (station : cell) (range tmax tmin : option F)
  | StableLine (station : cell) (std : F)
  | VariableLine (station : cell) (std : F)
  | SumPeriod (first last : option Z)
  | SumTotal (n : nat)
  | SumStations (n : nat)
  | SumYears (years : list Z)
  | SumMean (v : option F)
  | SumStd (v : option F)
  | SumMax (v : option F)
  | SumMin (v : option F)
  | SumRange (v : option F)
  | SumMonth (month : string) (temp : option F)
  | SumStation (i : nat) (station : cell).

(** One item per [print] of the source (runs of constant prints are one
    item). *)
Inductive msg :=
  | MLoading (folder : string)
  | MProcessing (file : string)
  | MWarnYear (file : string)
  | MColumns (cols : list string)
  | MNumStations (n : nat)
  | MWarnNoStation
  | MWarnNoMonths
  | MAvailable (months : list string)
  | MProcessed (n : nat)
  | MNoValid
  | MErrorProcessing (file : string) (e : exn)
  | MLoadComplete
  | MTotalRecords (n : nat)
  | MUniqueStations (n : nat)
  | MYearsCovered (years : list Z)
  | MTempRange (tmin tmax : option F)
  | MSample (head : list long_record)
  | MCalcSeasonal
  | MSeasonalSaved
  | MCalcRanges
  | MRangesSaved
  | MAnalyzing
  | MWarnNoStability
  | MStabilitySaved
  | MGenerating
  | MSummarySaved
  | MStarting
  | MComplete
  | MPreviewSeason (season : string) (temp : option F)
  | MPreviewRangeHeader
  | MPreviewRange (station : cell) (range : option F)
  | MPreviewStableHeader
  | MPreviewStable (station : cell) (std : F)
  | MPreviewVariableHeader
  | MPreviewVariable (station : cell) (std : F)
  | MErrorAnalysis (e : exn).

(** ** The analyzer and its environment *)

Record analyzer := {
  data_folder : string;
  all_data : list long_record;       (* [] is the column-less [pd.DataFrame()] *)
  season_mapping : gmap string string
}.

Record state := {
  self : analyzer;
  disk : gmap string (list csv_file);  (* folder ↦ its [*.csv] files, in glob order *)
  outputs : gmap string (list line);   (* files written in the working directory *)
  console : list msg
}.

(** [WeatherAnalyzer(data_folder)] *)
Definition init (folder : string) : analyzer :=
  {| data_folder := folder; all_data := []; season_mapping := init_season_mapping |}.

(** Computations: state passing with exceptions; the state reached when an
    exception is raised is kept. *)
Definition M (A : Type) : Type := state → res A * state.

#[export] Instance M_ret : MRet M := λ A a st, (Ok a, st).
#[export] Instance M_bind : MBind M := λ A B f m st,
  match m st with
  | (Ok a, st') => f a st'
  | (Raise e, st') => (Raise e, st')
  end.

Definition raise {A} (e : exn) : M A := λ st, (Raise e, st).

Definition try_except {A} (body : M A) (handler : exn → M A) : M A := λ st,
  match body st with
  | (Ok a, st') => (Ok a, st')
  | (Raise e, st') => handler e st'
  end.

Definition gets {A} (f : state → A) : M A := λ st, (Ok (f st), st).

Definition print (m : msg) : M unit := λ st,
  (Ok tt, {| self := self st; disk := disk st; outputs := outputs st;
             console := console st ++ [m] |}).

Fixpoint print_all (ms : list msg) : M unit :=
  match ms with
  | [] => mret tt
  | m :: rest => print m;; print_all rest
  end.

(** [open(name, 'w')]: the file is created or emptied. *)
Definition open_w (name : string) : M unit := λ st,
  (Ok tt, {| self := self st; disk := disk st;
             outputs := <[name := []]> (outputs st); console := console st |}).

(** [f.write(...)] on the file opened as [name]. *)
Definition fwrite (name : string) (l : line) : M unit := λ st,
  (Ok tt, {| self := self st; disk := disk st;
             outputs := alter (λ ls, ls ++ [l]) name (outputs st);
             console := console st |}).

Fixpoint fwrite_all (name : string) (ls : list line) : M unit :=
  match ls with
  | [] => mret tt
  | l :: rest => fwrite name l;; fwrite_all name rest
  end.

(** [self.all_data = d] *)
Definition set_all_data (d : list long_record) : M unit := λ st,
  (Ok tt, {| self := {| data_folder := data_folder (self st); all_data := d;
                        season_mapping := season_mapping (self st) |};
             disk := disk st; outputs := outputs st; console := console st |}).

(** [glob.glob(os.path.join(folder, "*.csv"))] *)
Definition glob (st : state) : list csv_file :=
  default [] (disk st !! data_folder (self st)).

Definition lift_res {A} (r : res A) : M A := λ st, (r, st).

(** ** [load_all_data] *)

(** The station-name column, first of the three spellings present. *)
Definition find_station_col (df : data_frame) : option string :=
  if decide ("STATION_NAME" ∈ columns df) then Some "STATION_NAME"
  else if decide ("Station" ∈ columns df) then Some "Station"
  else if decide ("station" ∈ columns df) then Some "station"
  else None.

(** [[col for col in month_columns if col in df.columns]] *)
Definition available_months (df : data_frame) : list string :=
  filter (λ col, col ∈ columns df) month_columns.

(** The inner loop [for month in available_months] on one row: [records] is
    the list being appended to.  A missing cell and a cell on which [float]
    raises are passed over ([continue]). *)
Fixpoint for_months (mapping : gmap string string) (year : Z)
    (station_name : cell) (row : gmap string cell)
    (months : list string) (records : list long_record) : res (list long_record) :=
  match months with
  | [] => Ok records
  | month :: rest =>
      let temp_value := row_get row month in
      if isna temp_value then for_months mapping year station_name row rest records
      else
        match py_float temp_value with
        | None => for_months mapping year station_name row rest records
        | Some temp_numeric =>
            match mapping !! month with
            | None => Raise (KeyError month)
            | Some season =>
                for_months mapping year station_name row rest
                  (records ++ [ {| Station := station_name; Year := year;
                                   Month := month; Temperature := temp_numeric;
                                   Season := season |} ])
            end
        end
  end.

(** The outer loop [for _, row in df.iterrows()]. *)
Fixpoint for_rows (mapping : gmap string string) (year : Z)
    (station_col : string) (months : list string)
    (rs : list (gmap string cell)) (records : list long_record)
    : res (list long_record) :=
  match rs with
  | [] => Ok records
  | row :: rest =>
      match for_months mapping year (row_get row station_col) row months records with
      | Ok records' => for_rows mapping year station_col months rest records'
      | Raise e => Raise e
      end
  end.

(** The body of [for file_path in csv_files]; the result is the new value of
    [all_dataframes]. *)
Definition process_file (all_dataframes : list (list long_record)) (f : csv_file)
    : M (list (list long_record)) :=
  print (MProcessing (file_name f));;
  try_except
    (match extract_year (file_name f) with
     | None => print (MWarnYear (file_name f));; mret all_dataframes
     | Some year =>
         df ← lift_res (read_csv f);
         print (MColumns (columns df));;
         print (MNumStations (length (rows df)));;
         match find_station_col df with
         | None => print MWarnNoStation;; mret all_dataframes
         | Some station_col =>
             match available_months df with
             | [] => print MWarnNoMonths;; mret all_dataframes
             | months =>
                 print (MAvailable months);;
                 mapping ← gets (λ st, season_mapping (self st));
                 records ← lift_res (for_rows mapping year station_col months (rows df) []);
                 match records with
                 | [] => print MNoValid;; mret all_dataframes
                 | _ =>
                     print (MProcessed (length records));;
                     mret (all_dataframes ++ [records])
                 end
             end
         end
     end)
    (λ e, print (MErrorProcessing (file_name f) e);; mret all_dataframes).

Fixpoint for_files (csv_files : list csv_file) (all_dataframes : list (list long_record))
    : M (list (list long_record)) :=
  match csv_files with
  | [] => mret all_dataframes
  | f :: rest =>
      all_dataframes' ← process_file all_dataframes f;
      for_files rest all_dataframes'
  end.

(** The values of a column that a reduction takes into account
    ([skipna=True], the default). *)
Definition dropna (xs : list F) : list F :=
  filter (λ x, fis_nan x = false) xs.

(** A float as an optional value: [None] for NaN. *)
Definition not_nan (x : F) : option F :=
  if fis_nan x then None else Some x.

(** [min()] and [max()] of a column: over the values that are not NaN, NaN
    when there is none. *)
Definition fmin_list (xs : list F) : option F :=
  match dropna xs with
  | [] => None
  | x :: rest => Some (foldl (λ m y, if fleb m y then m else y) x rest)
  end.

Definition fmax_list (xs : list F) : option F :=
  match dropna xs with
  | [] => None
  | x :: rest => Some (foldl (λ m y, if fleb m y then y else m) x rest)
  end.

Definition zmin_list (xs : list Z) : option Z :=
  match xs with
  | [] => None
  | x :: rest => Some (foldl Z.min x rest)
  end.

Definition zmax_list (xs : list Z) : option Z :=
  match xs with
  | [] => None
  | x :: rest => Some (foldl Z.max x rest)
  end.

(** [Series.unique()] keeps first occurrences; [nunique()] does not count
    NaN. *)
Definition unique {A} `{EqDecision A} (xs : list A) : list A := remove_dups xs.

Definition nunique_stations (d : list long_record) : nat :=
  length (unique (filter (λ c, isna c = false) (Station <$> d))).

Definition load_all_data : M unit :=
  folder ← gets (λ st, data_folder (self st));
  print (MLoading folder);;
  csv_files ← gets glob;
  match csv_files with
  | [] => raise (FileNotFoundError folder)
  | _ =>
      all_dataframes ← for_files csv_files [];
      match all_dataframes with
      | [] => raise ValueError
      | _ =>
          set_all_data (concat all_dataframes);;
          d ← gets (λ st, all_data (self st));
          print MLoadComplete;;
          print (MTotalRecords (length d));;
          print (MUniqueStations (nunique_stations d));;
          print (MYearsCovered (merge_sort Z.le (unique (Year <$> d))));;
          print (MTempRange (fmin_list (Temperature <$> d)) (fmax_list (Temperature <$> d)));;
          print (MSample (take 10 d))
      end
  end.

(** ** Grouping and aggregation *)

(** [groupby(col)]: one group per distinct key, NaN keys dropped, each group
    holding its rows in frame order.  Groups are listed by first occurrence
    of the key (pandas lists them by key order; nothing below depends on the
    order of the groups). *)
Definition groupby {K} `{EqDecision K} (key : long_record → option K)
    (d : list long_record) : list (K * list long_record) :=
  (λ k, (k, filter (λ r, key r = Some k) d)) <$> unique (omap key d).

Definition fsum (xs : list F) : F := foldl fadd (of_nat 0) xs.

(** [mean()]: the sum over the count of the values that are not NaN; NaN
    when there is none, and when the quotient is. *)
Definition mean (xs : list F) : option F :=
  match dropna xs with
  | [] => None
  | ys => not_nan (fdiv (fsum ys) (of_nat (length ys)))
  end.

(** [std()], the sample standard deviation (ddof = 1) of the values that
    are not NaN: NaN below two of them, and when the computation gives
    NaN. *)
Definition sample_std (xs : list F) : option F :=
  let ys := dropna xs in
  if decide (length ys < 2)%nat then None
  else
    let m := fdiv (fsum ys) (of_nat (length ys)) in
    not_nan (fsqrt (fdiv (fsum ((λ x, fmul (fsub x m) (fsub x m)) <$> ys))
                         (of_nat (length ys - 1)))).

(** [groupby(col)['Temperature'].mean()] *)
Definition group_means {K} `{EqDecision K} (key : long_record → option K)
    (d : list long_record) : list (K * option F) :=
  (λ kg, (kg.1, mean (Temperature <$> kg.2))) <$> groupby key d.

Fixpoint series_get {K V} `{EqDecision K} (k : K) (s : list (K * V)) : option V :=
  match s with
  | [] => None
  | (k', v) :: rest => if decide (k' = k) then Some v else series_get k rest
  end.

(** [series.reindex(order)]: the labels of [order], NaN where the series has
    no such label. *)
Definition reindex {K} `{EqDecision K} (order : list K) (s : list (K * option F))
    : list (K * option F) :=
  (λ k, (k, mjoin (series_get k s))) <$> order.

Definition season_key (r : long_record) : option string := Some (Season r).
Definition month_key (r : long_record) : option string := Some (Month r).
Definition station_key (r : long_record) : option cell :=
  if isna (Station r) then None else Some (Station r).

Definition rule (n : nat) (c : ascii) : string :=
  Nat.iter n (String c) EmptyString.

(** ** [calculate_seasonal_averages] *)

Definition calculate_seasonal_averages : M (list (string * option F)) :=
  print MCalcSeasonal;;
  d ← gets (λ st, all_data (self st));
  match d with
  | [] => raise (KeyError "Season")
  | _ =>
      let seasonal_avg := group_means season_key d in
      let seasonal_avg := reindex season_order seasonal_avg in
      open_w "average_temp.txt";;
      fwrite "average_temp.txt"
        (Text "Seasonal Average Temperatures (All Stations, All Years)");;
      fwrite "average_temp.txt" (Text (rule 55 "="));;
      fwrite_all "average_temp.txt" ((λ st, SeasonLine st.1 st.2) <$> seasonal_avg);;
      print MSeasonalSaved;;
      mret seasonal_avg
  end.

(** ** [find_largest_temperature_range] *)

(** A row of the per-station frame; each of the three numbers can be NaN
    ([None]). *)
Record range_row := {
  rr_station : cell;
  rr_min : option F;
  rr_max : option F;
  rr_range : option F
}.

(** [a - b] on two optional values: NaN when one of them is, and when the
    difference is. *)
Definition osub (a b : option F) : option F :=
  x ← a; y ← b; not_nan (fsub x y).

(** One row of [agg(['min', 'max'])] with the added [Range] column. *)
Definition min_max_row (kg : cell * list long_record) : range_row :=
  let tmin := fmin_list (Temperature <$> kg.2) in
  let tmax := fmax_list (Temperature <$> kg.2) in
  {| rr_station := kg.1; rr_min := tmin; rr_max := tmax;
     rr_range := osub tmax tmin |}.

Definition station_stats (d : list long_record) : list range_row :=
  min_max_row <$> groupby station_key d.

(** [a] may precede [b] when sorting by descending [Range]; NaN comes
    last. *)
Definition range_ge (a b : range_row) : Prop :=
  match rr_range a, rr_range b with
  | Some x, Some y => fleb y x = true
  | _, None => True
  | None, Some _ => False
  end.

#[export] Instance range_ge_dec : RelDecision range_ge.
Proof.
  intros a b. unfold range_ge.
  destruct (rr_range a), (rr_range b); apply _.
Defined.

(** [sort_values('Range', ascending=False)] *)
Definition sort_by_range_desc (stats : list range_row) : list range_row :=
  merge_sort range_ge stats.

(** [v == m] on two optional values: false when one of them is NaN. *)
Definition oeqb (v m : option F) : bool :=
  match v, m with
  | Some x, Some y => feqb x y
  | _, _ => false
  end.

(** [frame[frame[col] == m]] where [m] is a column reduction: a NaN [m]
    selects nothing, and a row whose value is NaN is not selected. *)
Definition rows_equal {A} (col : A → option F) (m : option F) (frame : list A) : list A :=
  filter (λ r, oeqb (col r) m = true) frame.

Definition stations_with_max_range (d : list long_record) : list range_row :=
  let stats := sort_by_range_desc (station_stats d) in
  let max_range := fmax_list (omap rr_range stats) in
  rows_equal rr_range max_range stats.

Definition find_largest_temperature_range : M (list range_row) :=
  print MCalcRanges;;
  d ← gets (λ st, all_data (self st));
  match d with
  | [] => raise (KeyError "Station")
  | _ =>
      let result := stations_with_max_range d in
      open_w "largest_temp_range_station.txt";;
      fwrite "largest_temp_range_station.txt"
        (Text "Station(s) with Largest Temperature Range");;
      fwrite "largest_temp_range_station.txt" (Text (rule 40 "="));;
      fwrite_all "largest_temp_range_station.txt"
        ((λ r, RangeLine (rr_station r) (rr_range r) (rr_max r) (rr_min r)) <$> result);;
      print MRangesSaved;;
      mret result
  end.

(** ** [analyze_temperature_stability] *)

(** [groupby('Station')['Temperature'].std()] followed by [dropna()]. *)
Definition station_std (d : list long_record) : list (cell * F) :=
  omap (λ kg, (λ s, (kg.1, s)) <$> sample_std (Temperature <$> kg.2))
       (groupby station_key d).

Definition most_stable (d : list long_record) : list (cell * F) :=
  rows_equal (λ r, Some r.2) (fmin_list (snd <$> station_std d)) (station_std d).

Definition most_variable (d : list long_record) : list (cell * F) :=
  rows_equal (λ r, Some r.2) (fmax_list (snd <$> station_std d)) (station_std d).

Definition analyze_temperature_stability
    : M (option (list (cell * F)) * option (list (cell * F))) :=
  print MAnalyzing;;
  d ← gets (λ st, all_data (self st));
  match d with
  | [] => raise (KeyError "Station")
  | _ =>
      match station_std d with
      | [] => print MWarnNoStability;; mret (None, None)
      | _ =>
          open_w "temperature_stability_stations.txt";;
          fwrite "temperature_stability_stations.txt"
            (Text "Temperature Stability Analysis");;
          fwrite "temperature_stability_stations.txt" (Text (rule 30 "="));;
          fwrite "temperature_stability_stations.txt" (Text "Most Stable Station(s):");;
          fwrite_all "temperature_stability_stations.txt"
            ((λ r, StableLine r.1 r.2) <$> most_stable d);;
          fwrite "temperature_stability_stations.txt" (Text "Most Variable Station(s):");;
          fwrite_all "temperature_stability_stations.txt"
            ((λ r, VariableLine r.1 r.2) <$> most_variable d);;
          print MStabilitySaved;;
          mret (Some (most_stable d), Some (most_variable d))
      end
  end.

(** ** [generate_summary_report] *)

Definition is_text (c : cell) : bool :=
  match c with CStr _ => true | _ => false end.

Definition num_of (c : cell) : option F :=
  match c with
  | CNum x => Some x
  | CBool b => Some (of_nat (if b then 1 else 0))
  | _ => None
  end.

(** [a] may precede [b] in [sorted]: text by code units, numbers by value. *)
Definition cell_le (a b : cell) : Prop :=
  match a, b with
  | CStr s, CStr t => String.leb s t = true
  | _, _ =>
      match num_of a, num_of b with
      | Some x, Some y => fleb x y = true
      | _, _ => True
      end
  end.

#[export] Instance cell_le_dec : RelDecision cell_le.
Proof.
  intros a b. unfold cell_le.
  destruct a, b; simpl; try apply _; destruct b0; apply _.
Defined.

(** [sorted(values)] on station names: comparing text with a number or with
    NaN raises [TypeError]. *)
Definition py_sorted (cs : list cell) : res (list cell) :=
  if existsb is_text cs && existsb (λ c, negb (is_text c)) cs
  then Raise TypeError
  else Ok (merge_sort cell_le cs).

Definition generate_summary_report : M unit :=
  print MGenerating;;
  open_w "analysis_summary.txt";;
  fwrite "analysis_summary.txt"
    (Text "AUSTRALIAN WEATHER STATION TEMPERATURE ANALYSIS SUMMARY");;
  fwrite "analysis_summary.txt" (Text (rule 55 "="));;
  d ← gets (λ st, all_data (self st));
  match d with
  | [] => raise (KeyError "Year")
  | _ =>
      let temps := Temperature <$> d in
      fwrite "analysis_summary.txt"
        (SumPeriod (zmin_list (Year <$> d)) (zmax_list (Year <$> d)));;
      fwrite "analysis_summary.txt" (SumTotal (length d));;
      fwrite "analysis_summary.txt" (SumStations (nunique_stations d));;
      fwrite "analysis_summary.txt"
        (SumYears (merge_sort Z.le (unique (Year <$> d))));;
      fwrite "analysis_summary.txt" (Text "OVERALL TEMPERATURE STATISTICS");;
      fwrite "analysis_summary.txt" (Text (rule 30 "-"));;
      fwrite "analysis_summary.txt" (SumMean (mean temps));;
      fwrite "analysis_summary.txt" (SumStd (sample_std temps));;
      fwrite "analysis_summary.txt" (SumMax (fmax_list temps));;
      fwrite "analysis_summary.txt" (SumMin (fmin_list temps));;
      fwrite "analysis_summary.txt"
        (SumRange (osub (fmax_list temps) (fmin_list temps)));;
      fwrite "analysis_summary.txt" (Text "MONTHLY AVERAGE TEMPERATURES");;
      fwrite "analysis_summary.txt" (Text (rule 28 "-"));;
      let monthly_avg := group_means month_key d in
      let monthly_avg := reindex month_columns monthly_avg in
      fwrite_all "analysis_summary.txt" ((λ mt, SumMonth mt.1 mt.2) <$> monthly_avg);;
      fwrite "analysis_summary.txt" (Text "");;
      fwrite "analysis_summary.txt" (Text "WEATHER STATIONS INCLUDED");;
      fwrite "analysis_summary.txt" (Text (rule 25 "-"));;
      stations ← lift_res (py_sorted (unique (Station <$> d)));
      fwrite_all "analysis_summary.txt"
        (imap (λ i station, SumStation (S i) station) stations);;
      print MSummarySaved
  end.

(** ** [run_complete_analysis] *)

(** The four reports. *)
Definition report_files : list string :=
  ["average_temp.txt"; "largest_temp_range_station.txt";
   "temperature_stability_stations.txt"; "analysis_summary.txt"].

(** The statements of the [try] block that follow the load. *)
Definition analyses_and_reports : M unit :=
  seasonal_averages ← calculate_seasonal_averages;
  temp_ranges ← find_largest_temperature_range;
  stability ← analyze_temperature_stability;
  generate_summary_report;;
  print MComplete;;
  print_all ((λ st, MPreviewSeason st.1 st.2) <$> seasonal_averages);;
  print MPreviewRangeHeader;;
  print_all ((λ r, MPreviewRange (rr_station r) (rr_range r)) <$> temp_ranges);;
  match stability with
  | (Some stable_stations, Some variable_stations) =>
      print MPreviewStableHeader;;
      print_all ((λ r, MPreviewStable r.1 r.2) <$> stable_stations);;
      print MPreviewVariableHeader;;
      print_all ((λ r, MPreviewVariable r.1 r.2) <$> variable_stations)
  | _ => mret tt
  end.

Definition run_complete_analysis : M unit :=
  print MStarting;;
  try_except
    (load_all_data;; analyses_and_reports)
    (λ e, print (MErrorAnalysis e)).

(** The state in which [main()] runs the analysis: a new analyzer on the
    folder, nothing written or printed yet. *)
Definition fresh (folder : string) (dk : gmap string (list csv_file)) : state :=
  {| self := init folder; disk := dk; outputs := ∅; console := [] |}.

(** [main()] *)
Definition main (dk : gmap string (list csv_file)) : res unit * state :=
  run_complete_analysis (fresh "temperatures" dk).

(** What a computation printed. *)
Definition printed (st st' : state) : list msg :=
  drop (length (console st)) (console st').

(** The methods of the analyzer, and the steps of one run as the console
    shows them: each method prints a line when it starts; [load_all_data]
    prints one when the combined table is in place, the others when their
    report is saved. *)
Inductive method :=
  | LoadAllData
  | SeasonalAverages
  | LargestRange
  | Stability
  | SummaryReport.

Inductive event :=
  | Started (m : method)
  | Completed (m : method).

Definition event_of (m : msg) : option event :=
  match m with
  | MLoading _ => Some (Started LoadAllData)
  | MLoadComplete => Some (Completed LoadAllData)
  | MCalcSeasonal => Some (Started SeasonalAverages)
  | MSeasonalSaved => Some (Completed SeasonalAverages)
  | MCalcRanges => Some (Started LargestRange)
  | MRangesSaved => Some (Completed LargestRange)
  | MAnalyzing => Some (Started Stability)
  | MWarnNoStability | MStabilitySaved => Some (Completed Stability)
  | MGenerating => Some (Started SummaryReport)
  | MSummarySaved => Some (Completed SummaryReport)
  | _ => None
  end.

Definition events (ms : list msg) : list event := omap event_of ms.

(** What the console shows of the analyses that follow a load, up to the
    start of the summary report. *)
Definition analysis_events : list event :=
  [Started SeasonalAverages; Completed SeasonalAverages;
   Started LargestRange; Completed LargestRange;
   Started Stability; Completed Stability;
   Started SummaryReport].

(** The methods that were started, in the order of their start. *)
Definition calls (ms : list msg) : list method :=
  omap (λ e, match e with Started k => Some k | Completed _ => None end)
       (events ms).

(** ** Reference definitions the properties are stated against *)

(** The season of a month of the southern hemisphere, as the table reads;
    the empty text for a text that is no month name. *)
Definition southern_season (month : string) : string :=
  if decide (month ∈ ["December"; "January"; "February"]) then "Summer"
  else if decide (month ∈ ["March"; "April"; "May"]) then "Autumn"
  else if decide (month ∈ ["June"; "July"; "August"]) then "Winter"
  else if decide (month ∈ ["September"; "October"; "November"]) then "Spring"
  else "".

(** The number in a cell that is not missing and that [float] accepts. *)
Definition valid_temperature (v : cell) : option F :=
  if isna v then None else py_float v.

(** A malformed temperature cell: missing, or not a number for [float]. *)
Definition malformed (v : cell) : Prop :=
  isna v = true ∨ py_float v = None.

(** What one cell of a month column gives: one record when it holds a valid
    temperature, none otherwise. *)
Definition cell_records (year : Z) (station_name : cell)
    (row : gmap string cell) (month : string) : list long_record :=
  match valid_temperature (row_get row month) with
  | Some t => [ {| Station := station_name; Year := year; Month := month;
                   Temperature := t; Season := southern_season month |} ]
  | None => []
  end.

(** The long form of a wide table: one record for every row and every month
    column whose cell holds a valid temperature, rows first. *)
Definition long_form (year : Z) (station_col : string) (months : list string)
    (rs : list (gmap string cell)) : list long_record :=
  row ← rs;
  month ← months;
  cell_records year (row_get row station_col) row month.

(** A file is loaded when its name gives a year, it can be read, and it has
    a station-name column and at least one month column. *)
Definition loaded_file (f : csv_file) : option (Z * string * data_frame) :=
  year ← extract_year (file_name f);
  match read_csv f with
  | Ok df =>
      station_col ← find_station_col df;
      match available_months df with
      | [] => None
      | _ => Some (year, station_col, df)
      end
  | Raise _ => None
  end.

Definition long_form_of_file (f : csv_file) : list long_record :=
  match loaded_file f with
  | Some (year, station_col, df) =>
      long_form year station_col (available_months df) (rows df)
  | None => []
  end.

(** The records one pass of the file loop appends for a file, under the
    season dictionary [mapping]. *)
Definition file_records (mapping : gmap string string) (f : csv_file)
    : list long_record :=
  match extract_year (file_name f) with
  | None => []
  | Some year =>
      match read_csv f with
      | Raise _ => []
      | Ok df =>
          match find_station_col df with
          | None => []
          | Some station_col =>
              match for_rows mapping year station_col (available_months df) (rows df) [] with
              | Ok records => records
              | Raise _ => []
              end
          end
      end
  end.

(** A per-file frame is appended only when it has records. *)
Definition frame_list (records : list long_record) : list (list long_record) :=
  match records with
  | [] => []
  | _ => [records]
  end.

Definition with_console (st : state) (c : list msg) : state :=
  {| self := self st; disk := disk st; outputs := outputs st; console := c |}.

(** The lines [ls] written in turn to the open file [name]. *)
Definition write_lines (name : string) (ls : list line)
    (o : gmap string (list line)) : gmap string (list line) :=
  foldl (λ o l, alter (λ written, written ++ [l]) name o) o ls.

(** Two sets of written files that agree on every file outside [names]. *)
Definition same_outside (names : list string) (o o' : gmap string (list line)) : Prop :=
  ∀ n, n ∉ names → o' !! n = o !! n.

(** [m], run on the analyzer [a], gives the result [r], prints [ms], writes
    to the files [names] only, and leaves the analyzer and the folder as
    they are. *)
Definition runs {A} (names : list string) (m : M A) (a : analyzer)
    (r : res A) (ms : list msg) : Prop :=
  ∀ st, self st = a →
    ∃ o', m st = (r, {| self := a; disk := disk st; outputs := o';
                        console := console st ++ ms |})
          ∧ same_outside names (outputs st) o'.

(** The computation left the analyzer and the folder as they were, wrote to
    the files [names] only, and only added to the console. *)
Definition only_writes (names : list string) (st st' : state) : Prop :=
  self st' = self st ∧ disk st' = disk st ∧
  same_outside names (outputs st) (outputs st') ∧
  ∃ ms, console st' = console st ++ ms.

(** Every record carries the season of its month. *)
Definition season_invariant (d : list long_record) : Prop :=
  ∀ r, r ∈ d → Month r ∈ month_columns ∧ Season r = southern_season (Month r).

(** Stations and their temperatures in a combined table. *)
Definition is_station (d : list long_record) (s : cell) : Prop :=
  isna s = false ∧ ∃ r, r ∈ d ∧ Station r = s.

Definition temps_of_station (d : list long_record) (s : cell) : list F :=
  Temperature <$> filter (λ r, Station r = s) d.

Definition temps_of_season (d : list long_record) (season : string) : list F :=
  Temperature <$> filter (λ r, Season r = season) d.

(** [m] is the largest, the smallest, of the values of [xs] that are not
    NaN. *)
Definition is_maximum (m : F) (xs : list F) : Prop :=
  m ∈ xs ∧ fis_nan m = false ∧
  ∀ x, x ∈ xs → fis_nan x = false → fleb x m = true.

Definition is_minimum (m : F) (xs : list F) : Prop :=
  m ∈ xs ∧ fis_nan m = false ∧
  ∀ x, x ∈ xs → fis_nan x = false → fleb m x = true.

(** [rg] is the range of station [s]: the largest minus the smallest of its
    temperatures that are not NaN, when this difference is a number. *)
Definition has_range (d : list long_record) (s : cell) (rg : F) : Prop :=
  ∃ tmax tmin,
    is_maximum tmax (temps_of_station d s) ∧
    is_minimum tmin (temps_of_station d s) ∧
    rg = fsub tmax tmin ∧ fis_nan rg = false.

(** The range of a station as computed from its temperatures: NaN
    ([None]) when none of them is a number, and when the difference is
    NaN. *)
Definition station_range (d : list long_record) (s : cell) : option F :=
  osub (fmax_list (temps_of_station d s)) (fmin_list (temps_of_station d s)).

(** The arithmetic mean of a non-empty list: sum over count. *)
Definition arithmetic_mean (xs : list F) : F :=
  fdiv (foldl fadd (of_nat 0) xs) (of_nat (length xs)).

(** The mean of the per-station means of a season (what the seasonal
    average is not). *)
Definition mean_of_station_means (d : list long_record) (season : string) : option F :=
  let rs := filter (λ r, Season r = season) d in
  mean (omap (λ s, mean (temps_of_station rs s)) (unique (Station <$> rs))).

(** ** What the reports hold *)

(** [m], run on the analyzer [a], gives the result [r] and prints [ms]; of
    the files written it touches [name] only, whose content [w] ([None]: no
    such file) becomes [g w]. *)
Definition writes {A} (name : string) (m : M A) (a : analyzer)
    (r : res A) (ms : list msg)
    (g : option (list line) → option (list line)) : Prop :=
  ∀ st, self st = a →
    ∃ o', m st = (r, {| self := a; disk := disk st; outputs := o';
                        console := console st ++ ms |})
          ∧ o' !! name = g (outputs st !! name)
          ∧ same_outside [name] (outputs st) o'.

(** The lines of [average_temp.txt] for the series [seasonal_avg]. *)
Definition seasonal_report (seasonal_avg : list (string * option F)) : list line :=
  [Text "Seasonal Average Temperatures (All Stations, All Years)";
   Text (rule 55 "=")]
  ++ ((λ st, SeasonLine st.1 st.2) <$> seasonal_avg).

(** The lines of [largest_temp_range_station.txt] for the frame [result]. *)
Definition range_report (result : list range_row) : list line :=
  [Text "Station(s) with Largest Temperature Range"; Text (rule 40 "=")]
  ++ ((λ r, RangeLine (rr_station r) (rr_range r) (rr_max r) (rr_min r)) <$> result).

(** The lines of [temperature_stability_stations.txt] for the two frames. *)
Definition stability_report (stable variable : list (cell * F)) : list line :=
  [Text "Temperature Stability Analysis"; Text (rule 30 "=");
   Text "Most Stable Station(s):"]
  ++ ((λ r, StableLine r.1 r.2) <$> stable)
  ++ [Text "Most Variable Station(s):"]
  ++ ((λ r, VariableLine r.1 r.2) <$> variable).

Definition temps_of_month (d : list long_record) (month : string) : list F :=
  Temperature <$> filter (λ r, Month r = month) d.

(** The two lines [analysis_summary.txt] starts with. *)
Definition summary_title : list line :=
  [Text "AUSTRALIAN WEATHER STATION TEMPERATURE ANALYSIS SUMMARY";
   Text (rule 55 "=")].

(** The lines of [analysis_summary.txt] down to the heading of the station
    list, for the table [d]. *)
Definition summary_head (d : list long_record) : list line :=
  let temps := Temperature <$> d in
  summary_title
  ++ [SumPeriod (zmin_list (Year <$> d)) (zmax_list (Year <$> d));
      SumTotal (length d);
      SumStations (nunique_stations d);
      SumYears (merge_sort Z.le (unique (Year <$> d)));
      Text "OVERALL TEMPERATURE STATISTICS";
      Text (rule 30 "-");
      SumMean (mean temps);
      SumStd (sample_std temps);
      SumMax (fmax_list temps);
      SumMin (fmin_list temps);
      SumRange (osub (fmax_list temps) (fmin_list temps));
      Text "MONTHLY AVERAGE TEMPERATURES";
      Text (rule 28 "-")]
  ++ ((λ month, SumMonth month (mean (temps_of_month d month))) <$> month_columns)
  ++ [Text ""; Text "WEATHER STATIONS INCLUDED"; Text (rule 25 "-")].

(** The numbered station list, counted from one. *)
Definition station_lines (stations : list cell) : list line :=
  imap (λ i station, SumStation (S i) station) stations.

(** The station list of the table [d]: no line when [sorted] raises. *)
Definition station_list (d : list long_record) : list line :=
  match py_sorted (unique (Station <$> d)) with
  | Ok stations => station_lines stations
  | Raise _ => []
  end.

(** Station names that [sorted] cannot compare: text together with a number
    or NaN. *)
Definition mixed_names (cs : list cell) : Prop :=
  (∃ c, c ∈ cs ∧ is_text c = true) ∧ (∃ c, c ∈ cs ∧ is_text c = false).

(** The month and the temperature of a line of the monthly section. *)
Definition month_line (l : line) : option (string * option F) :=
  match l with
  | SumMonth month temp => Some (month, temp)
  | _ => None
  end.

(** The number of rows in the files of a folder that can be read. *)
Definition rows_read (files : list csv_file) : nat :=
  sum_list ((λ f, match read_csv f with
                  | Ok df => length (rows df)
                  | Raise _ => 0%nat
                  end) <$> files).

End Analyzer.

Arguments cell : clear implicits.
Arguments data_frame : clear implicits.
Arguments csv_file : clear implicits.
Arguments long_record : clear implicits.
Arguments line : clear implicits.
Arguments msg : clear implicits.
Arguments analyzer : clear implicits.
Arguments state : clear implicits.
Arguments range_row : clear implicits.
Arguments available_months : simpl never.
Arguments reindex : simpl never.
Arguments group_means : simpl never.
Arguments groupby : simpl never.
Arguments stations_with_max_range : simpl never.
Arguments station_stats : simpl never.
Arguments station_std : simpl never.
Arguments most_stable : simpl never.
Arguments most_variable : simpl never.
Arguments nunique_stations : simpl never.
Arguments py_sorted : simpl never.
Arguments mean : simpl never.
Arguments sample_std : simpl never.
Arguments fmin_list : simpl never.
Arguments fmax_list : simpl never.
Arguments zmin_list : simpl never.
Arguments zmax_list : simpl never.
Arguments rule : simpl never.
Arguments unique : simpl never.
Arguments write_lines : simpl never.
Arguments extract_year : simpl never.
Arguments find_station_col : simpl never.

(** ** A computable instance: fixed point, thousandths of a degree *)

Module Milli.

(** Decimal text [ddd], [ddd.ddd], [.ddd], [ddd.] with an optional sign; the
    digits after the third decimal are dropped. *)
Definition frac3 (s : string) : option Z :=
  match s with
  | EmptyString => Some 0
  | _ => Py.digits (String.substring 0 3 (s +:+ "000")) 0 false
  end.

Definition of_string (s : string) : option Z :=
  let t := Py.strip s in
  let '(neg, body) :=
    match t with
    | String "-" r => (true, r)
    | String "+" r => (false, r)
    | _ => (false, t)
    end in
  let v :=
    match Py.split "." body with
    | [i] => (λ n, 1000 * n) <$> Py.digits i 0 false
    | [i; f] =>
        match i, f with
        | EmptyString, EmptyString => None
        | EmptyString, _ => frac3 f
        | _, _ => n ← Py.digits i 0 false; m ← frac3 f; Some (1000 * n + m)
        end
    | _ => None
    end in
  (λ x, if neg then - x else x) <$> v.

#[export] Instance arith : Arith Z := {|
  fadd := Z.add;
  fsub := Z.sub;
  fmul := λ a b, a * b / 1000;
  fdiv := λ a b, if decide (b = 0) then 0 else 1000 * a / b;
  fsqrt := λ a, Z.sqrt (1000 * a);
  of_nat := λ n, 1000 * Z.of_nat n;
  fis_nan := λ _, false;
  fleb := Z.leb;
  feqb := Z.eqb;
  float_of_string := of_string;
  Arith_eq_dec := _;
  fleb_refl := ltac:(intros x _; apply Z.leb_refl);
  fleb_trans := ltac:(intros x y z; rewrite !Z.leb_le; lia);
  fleb_total := ltac:(intros x y _ _; rewrite !Z.leb_le; lia);
  fleb_nan := ltac:(done);
  feqb_fleb := ltac:(intros x y;
    destruct (Z.eqb_spec x y), (Z.leb_spec x y), (Z.leb_spec y x); simpl; lia)
|}.

End Milli.

(** ** A computable instance with NaN and the infinities *)

Module Extended.

(** Thousandths of a degree, the two infinities and NaN. *)
Inductive t :=
  | Fin (z : Z)
  | PosInf
  | NegInf
  | NaN.

#[export] Instance t_eq_dec : EqDecision t.
Proof. solve_decision. Defined.

Definition neg (x : t) : t :=
  match x with
  | Fin z => Fin (- z)
  | PosInf => NegInf
  | NegInf => PosInf
  | NaN => NaN
  end.

Definition add (x y : t) : t :=
  match x, y with
  | NaN, _ | _, NaN => NaN
  | Fin a, Fin b => Fin (a + b)
  | PosInf, NegInf | NegInf, PosInf => NaN
  | PosInf, _ | _, PosInf => PosInf
  | NegInf, _ | _, NegInf => NegInf
  end.

(** The sign of a value that is not NaN: -1, 0 or 1. *)
Definition sign (x : t) : Z :=
  match x with
  | Fin z => Z.sgn z
  | PosInf => 1
  | NegInf => -1
  | NaN => 0
  end.

Definition inf_of_sign (s : Z) : t :=
  if decide (s = 0) then NaN else if decide (0 < s) then PosInf else NegInf.

Definition mul (x y : t) : t :=
  match x, y with
  | NaN, _ | _, NaN => NaN
  | Fin a, Fin b => Fin (a * b / 1000)
  | _, _ => inf_of_sign (sign x * sign y)
  end.

Definition div (x y : t) : t :=
  match x, y with
  | NaN, _ | _, NaN => NaN
  | Fin a, Fin b => if decide (b = 0) then inf_of_sign (Z.sgn a) else Fin (1000 * a / b)
  | Fin _, _ => Fin 0
  | _, Fin b => inf_of_sign (sign x * (if decide (b < 0) then -1 else 1))
  | _, _ => NaN
  end.

Definition sqrt (x : t) : t :=
  match x with
  | Fin a => if decide (a < 0) then NaN else Fin (Z.sqrt (1000 * a))
  | PosInf => PosInf
  | _ => NaN
  end.

Definition is_nan (x : t) : bool :=
  match x with NaN => true | _ => false end.

Definition leb (x y : t) : bool :=
  match x, y with
  | NaN, _ | _, NaN => false
  | NegInf, _ | _, PosInf => true
  | Fin a, Fin b => a <=? b
  | _, _ => false
  end.

Definition lower (c : ascii) : ascii :=
  let n := nat_of_ascii c in
  if ((65 <=? n)%nat && (n <=? 90)%nat) then ascii_of_nat (n + 32) else c.

Fixpoint lowercase (s : string) : string :=
  match s with
  | EmptyString => EmptyString
  | String c rest => String (lower c) (lowercase rest)
  end.

(** [float(s)]: the spellings of NaN and of the infinities, any case, with
    an optional sign; decimal text otherwise. *)
Definition of_string (s : string) : option t :=
  let t := lowercase (Py.strip s) in
  let '(negative, body) :=
    match t with
    | String "-" r => (true, r)
    | String "+" r => (false, r)
    | _ => (false, t)
    end in
  if decide (body = "nan") then Some NaN
  else if decide (body = "inf" ∨ body = "infinity")
       then Some (if negative then NegInf else PosInf)
       else Fin <$> Milli.of_string s.

#[export] Instance arith : Arith t := {|
  fadd := add;
  fsub := λ x y, add x (neg y);
  fmul := mul;
  fdiv := div;
  fsqrt := sqrt;
  of_nat := λ n, Fin (1000 * Z.of_nat n);
  fis_nan := is_nan;
  fleb := leb;
  feqb := λ x y, leb x y && leb y x;
  float_of_string := of_string;
  Arith_eq_dec := _;
  fleb_refl := ltac:(intros [z| | |]; simpl; try done; intros _; apply Z.leb_refl);
  fleb_trans := ltac:(intros [a| | |] [b| | |] [c| | |]; simpl; try done;
                      rewrite !Z.leb_le; lia);
  fleb_total := ltac:(intros [a| | |] [b| | |]; simpl; try done; try (by left);
                      try (by right); intros _ _; rewrite !Z.leb_le; lia);
  fleb_nan := ltac:(by intros [a| | |] [b| | |]);
  feqb_fleb := ltac:(done)
|}.

End Extended.

(** ** Sample data *)

Module Sample.

Import Milli.

Definition row_a : gmap string (cell Z) :=
  {[ "STATION_NAME" := CStr "ADELAIDE"; "January" := CNum 30000;
     "February" := CStr "abc"; "June" := CNum 10000 ]}%string.

Definition row_b : gmap string (cell Z) :=
  {[ "STATION_NAME" := CStr "BROOME"; "January" := CNum 31000;
     "February" := CStr "29.5"; "June" := CMissing ]}%string.

Definition row_a' : gmap string (cell Z) :=
  {[ "STATION_NAME" := CStr "ADELAIDE"; "January" := CNum 28000;
     "February" := CNum 27000; "June" := CNum 12000 ]}%string.

Definition row_c : gmap string (cell Z) :=
  {[ "STATION_NAME" := CStr "CAIRNS"; "January" := CNum 25000 ]}%string.

Definition frame_1990 : data_frame Z :=
  {| columns := ["STATION_NAME"; "January"; "February"; "June"]%string;
     rows := [row_a; row_b] |}.

Definition frame_1991 : data_frame Z :=
  {| columns := ["STATION_NAME"; "January"; "February"; "June"]%string;
     rows := [row_a'; row_c] |}.

Definition file_1990 : csv_file Z :=
  {| file_name := "stations_group_1990.csv"; read_csv := Ok frame_1990 |}.

Definition file_1991 : csv_file Z :=
  {| file_name := "stations_group_1991.csv"; read_csv := Ok frame_1991 |}.

(** No year in the name. *)
Definition file_unnamed : csv_file Z :=
  {| file_name := "stations.csv"; read_csv := Ok frame_1990 |}.

(** A file [pd.read_csv] fails on. *)
Definition file_unreadable : csv_file Z :=
  {| file_name := "stations_group_1992.csv";
     read_csv := Raise (OtherError "EmptyDataError") |}.

(** A name whose last token holds [.csv] twice. *)
Definition file_dotted : csv_file Z :=
  {| file_name := "t_20.csv20.csv"; read_csv := Ok frame_1990 |}.

Definition folder : gmap string (list (csv_file Z)) :=
  {[ "temperatures"%string := [file_1990; file_unnamed; file_unreadable; file_1991] ]}.

(** A new analyzer on the sample folder, and on an empty one. *)
Definition st0 : state Z := fresh "temperatures" folder.
Definition st_empty : state Z := fresh "temperatures" ∅.

(** The sample folder loaded. *)
Definition st_loaded : state Z := (load_all_data st0).2.

(** One station with three summer records, one with a single one. *)
Definition uneven : list (long_record Z) :=
  [ {| Station := CStr "A"; Year := 1990; Month := "January";
       Temperature := 10000; Season := "Summer" |};
    {| Station := CStr "A"; Year := 1990; Month := "February";
       Temperature := 20000; Season := "Summer" |};
    {| Station := CStr "A"; Year := 1990; Month := "December";
       Temperature := 30000; Season := "Summer" |};
    {| Station := CStr "B"; Year := 1990; Month := "January";
       Temperature := 40000; Season := "Summer" |} ]%string.

(** The 1990 frame with its columns in another order. *)
Definition frame_1990_reordered : data_frame Z :=
  {| columns := ["June"; "February"; "STATION_NAME"; "January"]%string;
     rows := [row_a; row_b] |}.

Definition file_1990_reordered : csv_file Z :=
  {| file_name := "stations_group_1990.csv"; read_csv := Ok frame_1990_reordered |}.

(** An analyzer whose season dictionary has lost its entry for June. *)
Definition st_no_june : state Z :=
  {| self := {| data_folder := "temperatures"; all_data := [];
                season_mapping := delete "June"%string init_season_mapping |};
     disk := folder; outputs := ∅; console := [] |}.

End Sample.

(** ** Sample data with NaN and an infinite temperature *)

Module SampleNaN.

Import Extended.

(** One station; the January cell is the text [NAN], which [pd.isna] does
    not see as missing and [float] turns into NaN. *)
Definition row_nan : gmap string (cell t) :=
  {[ "STATION_NAME" := CStr "DARWIN"; "January" := CStr "NAN";
     "February" := CNum (Fin 30000) ]}%string.

Definition frame_nan : data_frame t :=
  {| columns := ["STATION_NAME"; "January"; "February"]%string;
     rows := [row_nan] |}.

Definition file_nan : csv_file t :=
  {| file_name := "stations_group_2000.csv"; read_csv := Ok frame_nan |}.

Definition st_nan : state t :=
  fresh "temperatures" {[ "temperatures"%string := [file_nan] ]}.

Definition st_nan_loaded : state t := (load_all_data st_nan).2.

(** One station whose only temperature is infinite. *)
Definition row_inf : gmap string (cell t) :=
  {[ "STATION_NAME" := CStr "DARWIN"; "January" := CNum PosInf ]}%string.

Definition frame_inf : data_frame t :=
  {| columns := ["STATION_NAME"; "January"]%string; rows := [row_inf] |}.

Definition file_inf : csv_file t :=
  {| file_name := "stations_group_2000.csv"; read_csv := Ok frame_inf |}.

Definition st_inf : state t :=
  fresh "temperatures" {[ "temperatures"%string := [file_inf] ]}.

Definition st_inf_loaded : state t := (load_all_data st_inf).2.

End SampleNaN.


(** * Properties *)

(** Unfolds one layer of the state-and-exception plumbing. *)
Ltac run_step :=
  unfold mbind, M_bind, mret, M_ret, print, lift_res, gets, raise, try_except,
    with_console; simpl.

Section Ingestion.

Context {F : Type} {AF : Arith F}.

Implicit Types (st : state F) (f : csv_file F) (d : list (long_record F)).

(** The dictionary of [__init__] is the table of southern seasons. *)
Lemma init_season_mapping_months (m : string) :
  m ∈ month_columns → init_season_mapping !! m = Some (southern_season m).
Proof.
  unfold month_columns. intros Hm.
  repeat (apply elem_of_cons in Hm as [->|Hm]; [vm_compute; reflexivity|]).
  by apply elem_of_nil in Hm.
Qed.

Lemma available_months_spec (df : data_frame F) (m : string) :
  m ∈ available_months df ↔ m ∈ columns df ∧ m ∈ month_columns.
Proof. unfold available_months. by rewrite list_elem_of_filter. Qed.

Lemma for_months_ok mapping year station_name row months records :
  (∀ m, m ∈ months → mapping !! m = Some (southern_season m)) →
  for_months mapping year station_name row months records
  = Ok (records ++ (months ≫= cell_records year station_name row)).
Proof.
  revert records. induction months as [|m months IH]; intros records Hmap; simpl.
  - by rewrite app_nil_r.
  - assert (Hm : mapping !! m = Some (southern_season m))
      by (apply Hmap; left).
    assert (Hrest : ∀ m', m' ∈ months → mapping !! m' = Some (southern_season m'))
      by (intros; apply Hmap; by right).
    unfold cell_records at 1, valid_temperature.
    destruct (isna (row_get row m)); [by rewrite IH|].
    destruct (py_float (row_get row m)) as [t|]; [|by rewrite IH].
    rewrite Hm, IH by done. by rewrite <- app_assoc.
Qed.

Lemma for_rows_ok mapping year station_col months rs records :
  (∀ m, m ∈ months → mapping !! m = Some (southern_season m)) →
  for_rows mapping year station_col months rs records
  = Ok (records ++ long_form year station_col months rs).
Proof.
  intros Hmap. revert records.
  induction rs as [|row rs IH]; intros records; simpl.
  - by rewrite app_nil_r.
  - rewrite for_months_ok by done. rewrite IH.
    unfold long_form. simpl. by rewrite <- app_assoc.
Qed.

Lemma file_records_init f :
  file_records init_season_mapping f = long_form_of_file f.
Proof.
  unfold file_records, long_form_of_file, loaded_file.
  destruct (extract_year (file_name f)) as [year|]; simpl; [|done].
  destruct (read_csv f) as [df|e]; simpl; [|done].
  destruct (find_station_col df) as [station_col|]; simpl; [|done].
  rewrite for_rows_ok.
  - rewrite app_nil_l.
    destruct (available_months df) eqn:Hav; [|by rewrite Hav].
    unfold long_form. induction (rows df) as [|row rs IH]; [done|].
    by rewrite bind_cons, IH.
  - intros m Hm. apply init_season_mapping_months.
    by apply available_months_spec in Hm as [_ ?].
Qed.
Lemma with_console_id st : with_console st (console st) = st.
Proof. by destruct st. Qed.

Lemma for_rows_no_months mapping year station_col rs records :
  for_rows mapping year station_col [] rs records = Ok records.
Proof. induction rs as [|row rs IH]; simpl; done. Qed.

Lemma process_file_run dfs f st :
  ∃ ms, process_file dfs f st
        = (Ok (dfs ++ frame_list (file_records (season_mapping (self st)) f)),
           with_console st (console st ++ ms))
        ∧ events ms = [].
Proof.
  unfold process_file, file_records. run_step.
  destruct (extract_year (file_name f)) as [year|]; simpl.
  2: { eexists [_; _]. rewrite app_nil_r, <- app_assoc. done. }
  destruct (read_csv f) as [df|e]; simpl.
  2: { eexists [_; _]. rewrite app_nil_r, <- app_assoc. done. }
  destruct (find_station_col df) as [station_col|]; simpl.
  2: { eexists [_; _; _; _]. rewrite app_nil_r, <- !app_assoc. done. }
  destruct (available_months df) as [|m months] eqn:Hav; simpl.
  { rewrite for_rows_no_months.
    eexists [_; _; _; _]. rewrite app_nil_r, <- !app_assoc. done. }
  destruct (for_rows _ _ _ _ _ _) as [[|r records]|e]; simpl.
  - eexists [_; _; _; _; _]. rewrite app_nil_r, <- !app_assoc. done.
  - eexists [_; _; _; _; _]. rewrite <- !app_assoc. done.
  - eexists [_; _; _; _; _]. rewrite app_nil_r, <- !app_assoc. done.
Qed.

Lemma for_files_run files dfs st :
  ∃ ms, for_files files dfs st
        = (Ok (dfs ++ (files ≫= λ f, frame_list (file_records (season_mapping (self st)) f))),
           with_console st (console st ++ ms))
        ∧ events ms = [].
Proof.
  revert dfs st. induction files as [|f files IH]; intros dfs st; simpl.
  - exists []. by rewrite !app_nil_r, with_console_id.
  - destruct (process_file_run dfs f st) as (ms1 & Hrun & Hev1).
    unfold mbind at 1, M_bind at 1. rewrite Hrun.
    destruct (IH (dfs ++ frame_list (file_records (season_mapping (self st)) f))
                 (with_console st (console st ++ ms1))) as (ms2 & Hrest & Hev2).
    rewrite Hrest. exists (ms1 ++ ms2). split.
    + simpl. by rewrite <- !app_assoc.
    + unfold events in *. by rewrite omap_app, Hev1, Hev2.
Qed.

Lemma concat_frame_list {A} (g : A → list (long_record F)) (l : list A) :
  concat (l ≫= λ a, frame_list (g a)) = l ≫= g.
Proof.
  induction l as [|a l IH]; [done|].
  rewrite !bind_cons, concat_app, IH. f_equal.
  destruct (g a); simpl; [done|by rewrite app_nil_r].
Qed.

Lemma frame_list_nil {A} (g : A → list (long_record F)) (l : list A) :
  (l ≫= λ a, frame_list (g a)) = [] ↔ l ≫= g = [].
Proof.
  rewrite <- (concat_frame_list g l).
  split; [by intros ->|].
  induction l as [|a l IH]; [done|].
  rewrite !bind_cons, concat_app. intros [H1 H2]%app_eq_nil.
  destruct (g a) eqn:Hg; simpl in *; [by apply IH|done].
Qed.

Lemma load_all_data_run st :
  let folder := data_folder (self st) in
  let d := glob st ≫= file_records (season_mapping (self st)) in
  (glob st = [] ∧
   load_all_data st
   = (Raise (FileNotFoundError folder), with_console st (console st ++ [MLoading folder])))
  ∨ (glob st ≠ [] ∧ d = [] ∧
     ∃ ms, load_all_data st
           = (Raise ValueError, with_console st (console st ++ MLoading folder :: ms))
           ∧ events ms = [])
  ∨ (glob st ≠ [] ∧ d ≠ [] ∧
     ∃ ms, load_all_data st
           = (Ok tt,
              {| self := {| data_folder := folder; all_data := d;
                            season_mapping := season_mapping (self st) |};
                 disk := disk st; outputs := outputs st;
                 console := console st ++ ms |})
           ∧ events ms = [Started LoadAllData; Completed LoadAllData]).
Proof.
  intros folder d. subst folder d. unfold load_all_data. run_step.
  change (glob {| self := self st; disk := disk st; outputs := outputs st;
                  console := console st ++ [MLoading (data_folder (self st))] |})
    with (glob st).
  destruct (glob st) as [|f0 files] eqn:Hglob; [by left|right].
  destruct (for_files_run (f0 :: files) []
              {| self := self st; disk := disk st; outputs := outputs st;
                 console := console st ++ [MLoading (data_folder (self st))] |})
    as (ms & Hrun & Hev).
  rewrite Hrun. rewrite app_nil_l.
  unfold with_console. cbn [self disk outputs console].
  set (d := (f0 :: files) ≫= file_records (season_mapping (self st))).
  destruct (decide (d = [])) as [Hd|Hd].
  - left. split; [done|]. split; [done|].
    apply (frame_list_nil (file_records (season_mapping (self st)))) in Hd.
    rewrite Hd. exists ms. split; [|done]. simpl.
    by rewrite <- app_assoc.
  - right. split; [done|]. split; [done|].
    destruct (_ ≫= _) as [|fr frs] eqn:Hfr.
    { exfalso. apply Hd. by apply (frame_list_nil (file_records (season_mapping (self st)))). }
    rewrite <- Hfr, concat_frame_list. fold d. simpl.
    eexists (MLoading _ :: ms ++ [_; _; _; _; _; _]). split.
    + rewrite <- !app_assoc. simpl. reflexivity.
    + unfold events in *. simpl. rewrite omap_app, Hev. done.
Qed.

(** Where the records of the month loop come from. *)
Lemma for_months_elem mapping year station_name row months records records' r :
  for_months mapping year station_name row months records = Ok records' →
  r ∈ records' →
  r ∈ records ∨
  (Station r = station_name ∧ Year r = year ∧ Month r ∈ months ∧
   valid_temperature (row_get row (Month r)) = Some (Temperature r) ∧
   mapping !! Month r = Some (Season r)).
Proof.
  revert records. induction months as [|m months IH]; intros records; simpl.
  - intros [= <-] ?. by left.
  - assert (Hskip : for_months mapping year station_name row months records = Ok records' →
                    r ∈ records' → r ∈ records ∨
      (Station r = station_name ∧ Year r = year ∧ Month r ∈ m :: months ∧
       valid_temperature (row_get row (Month r)) = Some (Temperature r) ∧
       mapping !! Month r = Some (Season r))).
    { intros Hrun Hr. destruct (IH _ Hrun Hr) as [?|(?&?&?&?&?)]; [by left|].
      right. split_and!; try done. by right. }
    destruct (isna (row_get row m)) eqn:Hna; [done|].
    destruct (py_float (row_get row m)) as [t|] eqn:Hfl; [|done].
    destruct (mapping !! m) as [season|] eqn:Hm; [|done].
    intros Hrun Hr. destruct (IH _ Hrun Hr) as [Hin|(?&?&?&?&?)].
    + apply elem_of_app in Hin as [?|Hin]; [by left|].
      apply list_elem_of_singleton in Hin as ->. right. simpl.
      unfold valid_temperature. rewrite Hna, Hfl. split_and!; try done. by left.
    + right. split_and!; try done. by right.
Qed.

Lemma for_rows_elem mapping year station_col months rs records records' r :
  for_rows mapping year station_col months rs records = Ok records' →
  r ∈ records' →
  r ∈ records ∨
  ∃ row, row ∈ rs ∧
    Station r = row_get row station_col ∧ Year r = year ∧ Month r ∈ months ∧
    valid_temperature (row_get row (Month r)) = Some (Temperature r) ∧
    mapping !! Month r = Some (Season r).
Proof.
  revert records. induction rs as [|row rs IH]; intros records; simpl.
  - intros [= <-] ?. by left.
  - destruct (for_months _ _ _ _ _ _) as [records1|e] eqn:Hm; [|done].
    intros Hrun Hr. destruct (IH _ Hrun Hr) as [Hin|(row' & ? & ?)].
    + destruct (for_months_elem _ _ _ _ _ _ _ _ Hm Hin) as [?|?]; [by left|].
      right. exists row. split; [by left|done].
    + right. exists row'. split; [by right|done].
Qed.

(** Where the records of a file come from. *)
Lemma file_records_elem mapping f r :
  r ∈ file_records mapping f →
  ∃ df station_col row,
    extract_year (file_name f) = Some (Year r) ∧
    read_csv f = Ok df ∧
    find_station_col df = Some station_col ∧
    row ∈ rows df ∧
    Station r = row_get row station_col ∧
    Month r ∈ available_months df ∧
    valid_temperature (row_get row (Month r)) = Some (Temperature r) ∧
    mapping !! Month r = Some (Season r).
Proof.
  unfold file_records.
  destruct (extract_year (file_name f)) as [year|] eqn:Hy;
    [|by intros ?%elem_of_nil].
  destruct (read_csv f) as [df|e] eqn:Hdf; [|by intros ?%elem_of_nil].
  destruct (find_station_col df) as [station_col|] eqn:Hsc;
    [|by intros ?%elem_of_nil].
  destruct (for_rows _ _ _ _ _ _) as [records|e'] eqn:Hrows;
    [|by intros ?%elem_of_nil].
  intros Hr. destruct (for_rows_elem _ _ _ _ _ _ _ _ Hrows Hr)
    as [?%elem_of_nil|(row & ? & ? & <- & ? & ? & ?)]; [done|].
  by exists df, station_col, row.
Qed.

Lemma bind_file_records_init (files : list (csv_file F)) :
  files ≫= file_records init_season_mapping = files ≫= long_form_of_file.
Proof.
  induction files as [|f files IH]; [done|].
  by rewrite !bind_cons, IH, file_records_init.
Qed.

Lemma valid_temperature_Some (v : cell F) (t : F) :
  valid_temperature v = Some t ↔ isna v = false ∧ py_float v = Some t.
Proof.
  unfold valid_temperature. destruct (isna v); [|by intuition].
  split; [done|]. by intros [? _].
Qed.

Lemma valid_temperature_None (v : cell F) :
  valid_temperature v = None ↔ malformed v.
Proof.
  unfold valid_temperature, malformed. destruct (isna v); [by intuition|].
  split; [by right|]. by intros [?|?].
Qed.

Lemma for_months_skip mapping year station_name (row : gmap string (cell F)) month rest records :
  malformed (row_get row month) →
  for_months mapping year station_name row (month :: rest) records
  = for_months mapping year station_name row rest records.
Proof.
  intros [Hna|Hfl]; simpl.
  - by rewrite Hna.
  - rewrite Hfl. by destruct (isna _).
Qed.

Lemma for_months_all_malformed mapping year station_name (row : gmap string (cell F)) months records :
  (∀ m, m ∈ months → malformed (row_get row m)) →
  for_months mapping year station_name row months records = Ok records.
Proof.
  induction months as [|m months IH]; intros Hbad; [done|].
  rewrite for_months_skip by (apply Hbad; left).
  apply IH. intros m' ?. apply Hbad. by right.
Qed.

(** With the dictionary of [__init__], a load that finds a record succeeds
    and stores the long forms of the files, in glob order. *)
Lemma load_all_data_init st :
  season_mapping (self st) = init_season_mapping →
  glob st ≫= long_form_of_file ≠ [] →
  ∃ st', load_all_data st = (Ok tt, st') ∧
         all_data (self st') = glob st ≫= long_form_of_file.
Proof.
  intros Hmap Hne.
  destruct (load_all_data_run st) as [[Hg _]|[(_ & Hd & _)|(_ & _ & ms & Hrun & _)]].
  - by rewrite Hg in Hne.
  - by rewrite Hmap, bind_file_records_init in Hd.
  - eexists. split; [exact Hrun|]. simpl.
    by rewrite Hmap, bind_file_records_init.
Qed.

(** C1. Wide-to-long reshaping: with the analyzer as [__init__] builds it,
    a load that finds any valid temperature returns normally, and the
    combined table is then, file after file in glob order, the long form of
    each loaded file: for every row of the file and every available month
    column, in that order, exactly one record when the cell is not missing
    and [float] accepts it (carrying the row's station name, the year of the
    file name, the column name, the parsed number and the season of the
    month) and no record otherwise; files that are not loaded give nothing. *)
Theorem C1_wide_to_long st :
  season_mapping (self st) = init_season_mapping →
  glob st ≫= long_form_of_file ≠ [] →
  (∃ st', load_all_data st = (Ok tt, st') ∧
          all_data (self st') = glob st ≫= long_form_of_file) ∧
  (∀ f year station_col df,
     loaded_file f = Some (year, station_col, df) →
     long_form_of_file f
     = rows df ≫= λ row,
         available_months df ≫= cell_records year (row_get row station_col) row) ∧
  (∀ f, loaded_file f = None → long_form_of_file f = []) ∧
  (∀ year station_name (row : gmap string (cell F)) month t,
     isna (row_get row month) = false →
     py_float (row_get row month) = Some t →
     cell_records year station_name row month
     = [ {| Station := station_name; Year := year; Month := month;
            Temperature := t; Season := southern_season month |} ]) ∧
  (∀ year station_name (row : gmap string (cell F)) month,
     malformed (row_get row month) →
     cell_records year station_name row month = []).
Proof.
  intros Hmap Hne. split_and!.
  - by apply load_all_data_init.
  - intros f year station_col df Hl. unfold long_form_of_file. by rewrite Hl.
  - intros f Hl. unfold long_form_of_file. by rewrite Hl.
  - intros year station_name row month t Hna Hfl. unfold cell_records.
    by rewrite (proj2 (valid_temperature_Some _ t) (conj Hna Hfl)).
  - intros year station_name row month Hbad. unfold cell_records.
    by rewrite (proj2 (valid_temperature_None _) Hbad).
Qed.

(** C5. Skipping malformed cells: (1) a month cell that is missing or that
    [float] rejects is passed over, the month loop going on with the
    remaining months and the records gathered so far; (2) a row whose month
    cells are all malformed is passed over in the same way by the row loop;
    (3) the loop over the files never raises; (4) after a load that
    returned, every record of the combined table comes from a cell that is
    not malformed and carries the number [float] gave for it; (5) a valid
    cell of a loaded file has its record in the combined table, and the
    load returns, whatever the other cells hold. *)
Theorem C5_malformed_cells_skipped :
  (∀ mapping year station_name (row : gmap string (cell F)) month rest records,
     malformed (row_get row month) →
     for_months mapping year station_name row (month :: rest) records
     = for_months mapping year station_name row rest records) ∧
  (∀ mapping year station_col months (row : gmap string (cell F)) rest records,
     (∀ m, m ∈ months → malformed (row_get row m)) →
     for_rows mapping year station_col months (row :: rest) records
     = for_rows mapping year station_col months rest records) ∧
  (∀ (files : list (csv_file F)) dfs st,
     ∃ dfs' st', for_files files dfs st = (Ok dfs', st')) ∧
  (∀ st st' r,
     load_all_data st = (Ok tt, st') → r ∈ all_data (self st') →
     ∃ f df row,
       f ∈ glob st ∧ read_csv f = Ok df ∧ row ∈ rows df ∧
       ¬ malformed (row_get row (Month r)) ∧
       py_float (row_get row (Month r)) = Some (Temperature r)) ∧
  (∀ st f year station_col df row month t,
     season_mapping (self st) = init_season_mapping →
     f ∈ glob st → loaded_file f = Some (year, station_col, df) →
     row ∈ rows df → month ∈ available_months df →
     isna (row_get row month) = false →
     py_float (row_get row month) = Some t →
     ∃ st', load_all_data st = (Ok tt, st') ∧
            {| Station := row_get row station_col; Year := year; Month := month;
               Temperature := t; Season := southern_season month |}
            ∈ all_data (self st')).
Proof.
  split_and!.
  - intros. by apply for_months_skip.
  - intros * Hbad. simpl. by rewrite for_months_all_malformed.
  - intros files dfs st. destruct (for_files_run files dfs st) as (ms & -> & _).
    by eexists _, _.
  - intros st st' r Hrun Hr.
    destruct (load_all_data_run st) as [[_ H]|[(_ & _ & ms & H & _)|(_ & _ & ms & H & _)]];
      rewrite H in Hrun; try done.
    injection Hrun as <-. simpl in Hr.
    apply list_elem_of_bind in Hr as (f & Hr & Hf).
    apply file_records_elem in Hr as (df & sc & row & _ & Hdf & _ & Hrow & _ & _ & Hv & _).
    apply valid_temperature_Some in Hv as [Hna Hfl].
    exists f, df, row. split_and!; try done.
    intros [?|?]; congruence.
  - intros st f year station_col df row month t Hmap Hf Hl Hrow Hm Hna Hfl.
    set (r := {| Station := row_get row station_col; Year := year; Month := month;
               Temperature := t; Season := southern_season month |}).
    assert (Hin : r ∈ glob st ≫= long_form_of_file).
    { apply list_elem_of_bind. exists f. split; [|done].
      unfold long_form_of_file. rewrite Hl. unfold long_form.
      apply list_elem_of_bind. exists row. split; [|done].
      apply list_elem_of_bind. exists month. split; [|done].
      unfold cell_records.
      assert (Hv : valid_temperature (row_get row month) = Some t)
        by by apply valid_temperature_Some.
      rewrite Hv. by left. }
    destruct (load_all_data_init st Hmap) as (st' & Hrun & Hd).
    { intros Hnil. rewrite Hnil in Hin. by apply elem_of_nil in Hin. }
    exists st'. by rewrite Hd.
Qed.

End Ingestion.

(** ** The methods step by step *)

Section Methods.
Context {F : Type} {AF : Arith F}.
Implicit Types (st : state F) (f : csv_file F) (d : list (long_record F)).
Implicit Types (o : gmap string (list (line F))) (a : analyzer F).

Lemma same_outside_refl names o : same_outside names o o.
Proof. by intros n _. Qed.

Lemma same_outside_trans names o1 o2 o3 :
  same_outside names o1 o2 → same_outside names o2 o3 → same_outside names o1 o3.
Proof. intros H1 H2 n Hn. by rewrite H2, H1. Qed.

Lemma same_outside_weaken names names' o o' :
  names ⊆ names' → same_outside names o o' → same_outside names' o o'.
Proof. intros Hsub H n Hn. apply H. intros ?. apply Hn. by apply Hsub. Qed.

Lemma runs_ret {A} names (x : A) a : runs names (mret x) a (Ok x) [].
Proof.
  intros st <-. exists (outputs st). split; [|apply same_outside_refl].
  unfold mret, M_ret. rewrite app_nil_r. by destruct st.
Qed.

Lemma runs_raise {A} names e a : runs names (raise (A:=A) e) a (Raise e) [].
Proof.
  intros st <-. exists (outputs st). split; [|apply same_outside_refl].
  unfold raise. rewrite app_nil_r. by destruct st.
Qed.

Lemma runs_lift_res {A} names (r : res A) a : runs names (lift_res r) a r [].
Proof.
  intros st <-. exists (outputs st). split; [|apply same_outside_refl].
  unfold lift_res. rewrite app_nil_r. by destruct st.
Qed.

Lemma runs_gets {A} names (g : analyzer F → A) a :
  runs names (gets (λ st, g (self st))) a (Ok (g a)) [].
Proof.
  intros st <-. exists (outputs st). split; [|apply same_outside_refl].
  unfold gets. rewrite app_nil_r. by destruct st.
Qed.

Lemma runs_print names m a : runs names (print m) a (Ok tt) [m].
Proof.
  intros st <-. exists (outputs st). split; [done|apply same_outside_refl].
Qed.

Lemma runs_open_w names name a :
  name ∈ names → runs names (open_w name) a (Ok tt) [].
Proof.
  intros Hin st <-. eexists. split.
  - unfold open_w. by rewrite app_nil_r.
  - intros n Hn. rewrite lookup_insert_ne; [done|]. by intros ->.
Qed.

Lemma runs_fwrite names name l a :
  name ∈ names → runs names (fwrite name l) a (Ok tt) [].
Proof.
  intros Hin st <-. eexists. split.
  - unfold fwrite. by rewrite app_nil_r.
  - intros n Hn. rewrite lookup_alter_ne; [done|]. by intros ->.
Qed.

Lemma runs_bind {A B} names (m : M A) (k : A → M B) a x ms1 r ms2 :
  runs names m a (Ok x) ms1 → runs names (k x) a r ms2 →
  runs names (m ≫= k) a r (ms1 ++ ms2).
Proof.
  intros Hm Hk st Hst. destruct (Hm st Hst) as (o1 & Hrun1 & Ho1).
  destruct (Hk {| self := a; disk := disk st; outputs := o1;
                  console := console st ++ ms1 |} eq_refl) as (o2 & Hrun2 & Ho2).
  exists o2. split; [|by eapply same_outside_trans].
  unfold mbind, M_bind. rewrite Hrun1, Hrun2. simpl. by rewrite <- app_assoc.
Qed.

Lemma runs_bind_raise {A B} names (m : M A) (k : A → M B) a e ms :
  runs names m a (Raise e) ms → runs names (m ≫= k) a (Raise e) ms.
Proof.
  intros Hm st Hst. destruct (Hm st Hst) as (o1 & Hrun1 & Ho1).
  exists o1. split; [|done]. unfold mbind, M_bind. by rewrite Hrun1.
Qed.

Lemma runs_fwrite_all names name ls a :
  name ∈ names → runs names (fwrite_all name ls) a (Ok tt) [].
Proof.
  intros Hin. induction ls as [|l ls IH]; simpl.
  - apply runs_ret.
  - change [] with (@nil (msg F) ++ []).
    eapply runs_bind; [by apply runs_fwrite|apply IH].
Qed.

Lemma runs_print_all names ms a : runs names (print_all ms) a (Ok tt) ms.
Proof.
  induction ms as [|m ms IH]; simpl.
  - apply runs_ret.
  - change (m :: ms) with ([m] ++ ms).
    eapply runs_bind; [apply runs_print|apply IH].
Qed.

Lemma runs_weaken {A} names names' (m : M A) a r ms :
  names ⊆ names' → runs names m a r ms → runs names' m a r ms.
Proof.
  intros Hsub H st Hst. destruct (H st Hst) as (o' & ? & ?).
  exists o'. split; [done|]. by eapply same_outside_weaken.
Qed.

Lemma runs_msgs {A} names (m : M A) a r ms ms' :
  runs names m a r ms → ms = ms' → runs names m a r ms'.
Proof. by intros ? <-. Qed.

Ltac run_step1 :=
  lazymatch goal with
  | |- runs _ (mret _) _ _ _ => apply runs_ret
  | |- runs _ (raise _) _ _ _ => apply runs_raise
  | |- runs _ (lift_res _) _ _ _ => apply runs_lift_res
  | |- runs _ (print _) _ _ _ => apply runs_print
  | |- runs _ (open_w _) _ _ _ => apply runs_open_w; by left
  | |- runs _ (fwrite _ _) _ _ _ => apply runs_fwrite; by left
  | |- runs _ (fwrite_all _ _) _ _ _ => apply runs_fwrite_all; by left
  | |- runs _ (print_all _) _ _ _ => apply runs_print_all
  | |- runs _ (gets _) _ _ _ => apply runs_gets
  | |- runs _ (mbind _ (lift_res (Raise _))) _ _ _ =>
      eapply runs_bind_raise; apply runs_lift_res
  | |- runs _ (mbind _ _) _ _ _ => eapply runs_bind
  end.

Ltac run_steps := repeat first [run_step1 | progress cbn [all_data]].

Lemma calculate_seasonal_averages_runs a :
  runs ["average_temp.txt"] calculate_seasonal_averages a
    (match all_data a with
     | [] => Raise (KeyError "Season")
     | d => Ok (reindex season_order (group_means season_key d))
     end)
    (match all_data a with
     | [] => [MCalcSeasonal]
     | _ => [MCalcSeasonal; MSeasonalSaved]
     end).
Proof.
  destruct a as [folder [|r d] mapping]; unfold calculate_seasonal_averages;
    cbv zeta; (eapply runs_msgs; [run_steps|reflexivity]).
Qed.

Lemma find_largest_temperature_range_runs a :
  runs ["largest_temp_range_station.txt"] find_largest_temperature_range a
    (match all_data a with
     | [] => Raise (KeyError "Station")
     | d => Ok (stations_with_max_range d)
     end)
    (match all_data a with
     | [] => [MCalcRanges]
     | _ => [MCalcRanges; MRangesSaved]
     end).
Proof.
  destruct a as [folder [|r d] mapping]; unfold find_largest_temperature_range;
    cbv zeta; (eapply runs_msgs; [run_steps|reflexivity]).
Qed.

Lemma analyze_temperature_stability_runs a :
  runs ["temperature_stability_stations.txt"] analyze_temperature_stability a
    (match all_data a with
     | [] => Raise (KeyError "Station")
     | d => Ok (match station_std d with
                | [] => (None, None)
                | _ => (Some (most_stable d), Some (most_variable d))
                end)
     end)
    (match all_data a with
     | [] => [MAnalyzing]
     | d => [MAnalyzing;
             match station_std d with
             | [] => MWarnNoStability
             | _ => MStabilitySaved
             end]
     end).
Proof.
  destruct a as [folder [|r d] mapping]; unfold analyze_temperature_stability;
    cbv zeta.
  - eapply runs_msgs; [run_steps|reflexivity].
  - cbn [all_data].
    destruct (station_std (r :: d)) as [|s ss] eqn:Hstd;
      (eapply runs_msgs;
       [eapply runs_bind; [apply runs_print|];
        eapply runs_bind; [apply runs_gets|]; cbn [all_data]; rewrite Hstd;
        run_steps
       |reflexivity]).
Qed.

Lemma generate_summary_report_runs a :
  ∃ r ms,
    runs ["analysis_summary.txt"] generate_summary_report a r (MGenerating :: ms)
    ∧ (r = Ok tt ∧ ms = [MSummarySaved] ∨ (∃ e, r = Raise e) ∧ ms = []).
Proof.
  destruct a as [folder [|r d] mapping]; unfold generate_summary_report; cbv zeta.
  - eexists _, []. split; [eapply runs_msgs; [run_steps|reflexivity]|].
    right. split; [by eexists|done].
  - destruct (py_sorted (unique (Station <$> r :: d))) as [stations|e] eqn:Hs.
    + eexists _, [_]. split; [|by left].
      eapply runs_msgs;
        [do 5 (eapply runs_bind; [run_step1|]); cbn [all_data self];
         rewrite Hs; run_steps
        |reflexivity].
    + eexists _, []. split; [|right; split; [by eexists|done]].
      eapply runs_msgs;
        [do 5 (eapply runs_bind; [run_step1|]); cbn [all_data self];
         rewrite Hs; run_steps
        |reflexivity].
Qed.

Lemma events_app (ms1 ms2 : list (msg F)) :
  events (ms1 ++ ms2) = events ms1 ++ events ms2.
Proof. apply omap_app. Qed.

Lemma events_fmap_none {A} (g : A → msg F) (l : list A) :
  (∀ x, event_of (g x) = None) → events (g <$> l) = [].
Proof.
  intros Hg. induction l as [|x l IH]; [done|].
  unfold events in *. simpl. by rewrite Hg.
Qed.

Lemma report_files_sub (name : string) :
  name ∈ report_files → [name] ⊆ report_files.
Proof. intros Hin x Hx. by apply list_elem_of_singleton in Hx as ->. Qed.

Lemma analyses_and_reports_runs a :
  all_data a ≠ [] →
  ∃ r ms,
    runs report_files analyses_and_reports a r ms ∧
    events ms
    = [Started SeasonalAverages; Completed SeasonalAverages;
       Started LargestRange; Completed LargestRange;
       Started Stability; Completed Stability;
       Started SummaryReport]
      ++ match r with Ok _ => [Completed SummaryReport] | Raise _ => [] end.
Proof.
  intros Hd.
  pose proof (calculate_seasonal_averages_runs a) as H1.
  pose proof (find_largest_temperature_range_runs a) as H2.
  pose proof (analyze_temperature_stability_runs a) as H3.
  destruct (generate_summary_report_runs a) as (r4 & ms4 & H4 & Hcase).
  destruct (all_data a) as [|r0 d] eqn:Hdata; [done|].
  apply (runs_weaken _ report_files) in H1; [|by apply report_files_sub; repeat constructor].
  apply (runs_weaken _ report_files) in H2; [|by apply report_files_sub; repeat constructor].
  apply (runs_weaken _ report_files) in H3; [|by apply report_files_sub; repeat constructor].
  apply (runs_weaken _ report_files) in H4; [|by apply report_files_sub; repeat constructor].
  unfold analyses_and_reports. cbv beta iota zeta in H3.
  revert H3. destruct (station_std (r0 :: d)) as [|sd sds]; intros H3;
    (destruct Hcase as [[-> ->]|[[e ->] ->]];
     [eexists (Ok tt), _; split;
      [eapply runs_bind; [exact H1|]; eapply runs_bind; [exact H2|];
       eapply runs_bind; [exact H3|]; eapply runs_bind; [exact H4|];
       cbv beta iota; run_steps
      |rewrite ?events_app, ?events_fmap_none by done; reflexivity]
     |eexists (Raise e), _; split;
      [eapply runs_bind; [exact H1|]; eapply runs_bind; [exact H2|];
       eapply runs_bind; [exact H3|]; eapply runs_bind_raise; exact H4
      |rewrite ?events_app; reflexivity]]).
Qed.

Lemma bind_run {A B} (m : M A) (k : A → M B) st :
  (m ≫= k) st
  = match m st with
    | (Ok x, st') => k x st'
    | (Raise e, st') => (Raise e, st')
    end.
Proof. reflexivity. Qed.

Lemma load_all_data_Ok st st' :
  load_all_data st = (Ok tt, st') →
  all_data (self st') = glob st ≫= file_records (season_mapping (self st)) ∧
  all_data (self st') ≠ [] ∧
  data_folder (self st') = data_folder (self st) ∧
  season_mapping (self st') = season_mapping (self st) ∧
  disk st' = disk st ∧ outputs st' = outputs st ∧
  ∃ ms, console st' = console st ++ ms ∧
        events ms = [Started LoadAllData; Completed LoadAllData].
Proof.
  intros Hrun.
  destruct (load_all_data_run st)
    as [[_ H]|[(_ & _ & ms & H & _)|(_ & Hd & ms & H & Hev)]];
    rewrite H in Hrun; try done.
  injection Hrun as <-. simpl. split_and!; try done. by exists ms.
Qed.

Lemma load_all_data_Raise st e st' :
  load_all_data st = (Raise e, st') →
  self st' = self st ∧ disk st' = disk st ∧ outputs st' = outputs st ∧
  (e = FileNotFoundError (data_folder (self st)) ∧ glob st = [] ∨
   e = ValueError ∧ glob st ≠ [] ∧
   glob st ≫= file_records (season_mapping (self st)) = []) ∧
  ∃ ms, console st' = console st ++ ms ∧ events ms = [Started LoadAllData].
Proof.
  intros Hrun.
  destruct (load_all_data_run st)
    as [[Hg H]|[(Hg & Hd & ms & H & Hev)|(_ & Hd & ms & H & Hev)]];
    rewrite H in Hrun; try done; injection Hrun as <- <-; simpl.
  - split_and!; try done; [by left|]. by eexists [_].
  - split_and!; try done; [by right|].
    exists (MLoading (data_folder (self st)) :: ms). split; [done|].
    change (events (MLoading (data_folder (self st)) :: ms))
      with (Started LoadAllData :: events ms).
    by rewrite Hev.
Qed.

Lemma run_complete_analysis_run st :
  ∃ st', run_complete_analysis st = (Ok tt, st') ∧
    match load_all_data (with_console st (console st ++ [MStarting])) with
    | (Raise e, st1) => st' = with_console st1 (console st1 ++ [MErrorAnalysis e])
    | (Ok _, st1) =>
        self st' = self st1 ∧ disk st' = disk st1 ∧
        same_outside report_files (outputs st1) (outputs st') ∧
        ∃ ms, console st' = console st1 ++ ms ∧
              (events ms = analysis_events ++ [Completed SummaryReport] ∨
               events ms = analysis_events ∧ ∃ e ms', ms = ms' ++ [MErrorAnalysis e])
    end.
Proof.
  unfold run_complete_analysis. rewrite bind_run.
  change (print MStarting st) with (Ok tt, with_console st (console st ++ [MStarting])).
  cbv beta iota. unfold try_except. rewrite bind_run.
  destruct (load_all_data _) as [[[]|e] st1] eqn:Hload.
  - apply load_all_data_Ok in Hload as (_ & Hne & _).
    destruct (analyses_and_reports_runs (self st1) Hne) as (r & ms & Hruns & Hev).
    destruct (Hruns st1 eq_refl) as (o' & Hrun & Ho'). rewrite Hrun.
    destruct r as [[]|e].
    + eexists. split; [done|]. simpl. split_and!; try done.
      exists ms. split; [done|]. by left.
    + eexists. split; [done|]. simpl. split_and!; try done.
      exists (ms ++ [MErrorAnalysis e]). split; [by rewrite app_assoc|].
      right. split; [|by eauto]. rewrite events_app, Hev.
      by rewrite !app_nil_r.
  - by eexists.
Qed.
End Methods.

(** ** The pipeline: frame, invariant, errors, order *)

Section PipelineClaims.
Context {F : Type} {AF : Arith F}.
Implicit Types (st : state F) (f : csv_file F) (d : list (long_record F)).
Implicit Types (o : gmap string (list (line F))) (a : analyzer F).

Lemma runs_only_writes {A} names (m : M A) st r ms :
  runs names m (self st) r ms → only_writes names st (m st).2.
Proof.
  intros H. destruct (H st eq_refl) as (o' & -> & Ho'). simpl.
  split_and!; try done. by exists ms.
Qed.

Lemma runs_result {A} names (m : M A) st r ms :
  runs names m (self st) r ms → (m st).1 = r.
Proof. intros H. by destruct (H st eq_refl) as (o' & -> & Ho'). Qed.

(** The outcome of a load does not depend on what the console holds. *)
Lemma load_all_data_console st c :
  (load_all_data (with_console st c)).1 = (load_all_data st).1 ∧
  self (load_all_data (with_console st c)).2 = self (load_all_data st).2.
Proof.
  destruct (load_all_data_run st)
    as [[Hg H]|[(Hg & Hd & ms & H & _)|(Hg & Hd & ms & H & _)]];
  destruct (load_all_data_run (with_console st c))
    as [[Hg' H']|[(Hg' & Hd' & ms' & H' & _)|(Hg' & Hd' & ms' & H' & _)]];
  rewrite H, H'; try done.
Qed.

(** C7. No state beyond the in-memory table: from any state, each of
    [calculate_seasonal_averages], [find_largest_temperature_range],
    [analyze_temperature_stability] and [generate_summary_report] leaves
    every field of the analyzer ([all_data] included) and the data folder as
    they are; besides its result it only writes its own report file and adds
    its progress lines to the console. *)
Theorem C7_analyses_only_report st :
  only_writes ["average_temp.txt"] st (calculate_seasonal_averages st).2 ∧
  only_writes ["largest_temp_range_station.txt"] st
    (find_largest_temperature_range st).2 ∧
  only_writes ["temperature_stability_stations.txt"] st
    (analyze_temperature_stability st).2 ∧
  only_writes ["analysis_summary.txt"] st (generate_summary_report st).2.
Proof.
  split_and!.
  - eapply runs_only_writes, calculate_seasonal_averages_runs.
  - eapply runs_only_writes, find_largest_temperature_range_runs.
  - eapply runs_only_writes, analyze_temperature_stability_runs.
  - destruct (generate_summary_report_runs (self st)) as (r & ms & H & _).
    eapply runs_only_writes, H.
Qed.

Lemma file_records_season mapping f r :
  mapping = init_season_mapping →
  r ∈ file_records mapping f →
  Month r ∈ month_columns ∧ Season r = southern_season (Month r).
Proof.
  intros -> Hr.
  apply file_records_elem in Hr as (df & sc & row & _ & _ & _ & _ & _ & Hm & _ & Hs).
  apply available_months_spec in Hm as [_ Hm]. split; [done|].
  rewrite (init_season_mapping_months _ Hm) in Hs. by injection Hs.
Qed.

Lemma load_all_data_season st :
  season_mapping (self st) = init_season_mapping →
  season_invariant (all_data (self st)) →
  season_invariant (all_data (self (load_all_data st).2)).
Proof.
  intros Hmap Hinv.
  destruct (load_all_data st) as [[[]|e] st'] eqn:Hrun; simpl.
  - apply load_all_data_Ok in Hrun as (-> & _). intros r Hr.
    apply list_elem_of_bind in Hr as (f & Hr & _).
    by eapply file_records_season.
  - apply load_all_data_Raise in Hrun as (-> & _). done.
Qed.

(** C8. Season mapping: for an analyzer as [__init__] builds it, whose table
    satisfies the invariant (every record has a month of the twelve and the
    southern-hemisphere season of that month: December, January, February
    are Summer; March, April, May Autumn; June, July, August Winter;
    September, October, November Spring), the invariant holds after
    [load_all_data] and after each later operation, and after a whole
    [run_complete_analysis]. *)
Theorem C8_season_of_month st :
  season_mapping (self st) = init_season_mapping →
  season_invariant (all_data (self st)) →
  season_invariant (all_data (self (load_all_data st).2)) ∧
  season_invariant (all_data (self (calculate_seasonal_averages st).2)) ∧
  season_invariant (all_data (self (find_largest_temperature_range st).2)) ∧
  season_invariant (all_data (self (analyze_temperature_stability st).2)) ∧
  season_invariant (all_data (self (generate_summary_report st).2)) ∧
  season_invariant (all_data (self (run_complete_analysis st).2)).
Proof.
  intros Hmap Hinv. split_and!.
  - by apply load_all_data_season.
  - destruct (runs_only_writes _ _ st _ _ (calculate_seasonal_averages_runs _))
      as (-> & _). done.
  - destruct (runs_only_writes _ _ st _ _ (find_largest_temperature_range_runs _))
      as (-> & _). done.
  - destruct (runs_only_writes _ _ st _ _ (analyze_temperature_stability_runs _))
      as (-> & _). done.
  - destruct (generate_summary_report_runs (self st)) as (r & ms & H & _).
    destruct (runs_only_writes _ _ st _ _ H) as (-> & _). done.
  - destruct (run_complete_analysis_run st) as (st' & -> & Hst'). simpl.
    pose proof (load_all_data_season (with_console st (console st ++ [MStarting]))
                  Hmap Hinv) as Hload.
    destruct (load_all_data _) as [[[]|e] st1]; simpl in *.
    + destruct Hst' as (-> & _). done.
    + by subst st'.
Qed.

(** C9. Raising: for an analyzer as [__init__] builds it, [load_all_data]
    raises [FileNotFoundError] exactly when the folder has no CSV file, and
    [ValueError] exactly when there are CSV files and none yields a record;
    it raises nothing else; when it raises, the analyzer is unchanged (so an
    empty table stays empty), and [run_complete_analysis] ends by printing
    the error message; [run_complete_analysis] always returns normally. *)
Theorem C9_load_errors st :
  season_mapping (self st) = init_season_mapping →
  ((∃ x, (load_all_data st).1 = Raise (FileNotFoundError x)) ↔ glob st = []) ∧
  ((load_all_data st).1 = Raise ValueError ↔
     glob st ≠ [] ∧ ∀ f, f ∈ glob st → long_form_of_file f = []) ∧
  (∀ e, (load_all_data st).1 = Raise e →
     (e = FileNotFoundError (data_folder (self st)) ∨ e = ValueError) ∧
     self (load_all_data st).2 = self st ∧
     (all_data (self st) = [] → all_data (self (load_all_data st).2) = []) ∧
     last (console (run_complete_analysis st).2) = Some (MErrorAnalysis e)) ∧
  (run_complete_analysis st).1 = Ok tt.
Proof.
  intros Hmap.
  assert (Hnil : glob st ≫= file_records (season_mapping (self st)) = [] ↔
                 ∀ f, f ∈ glob st → long_form_of_file f = []).
  { rewrite Hmap, bind_file_records_init. split.
    - intros Hb f Hf. destruct (long_form_of_file f) as [|r l] eqn:Hl; [done|].
      assert (r ∈ glob st ≫= long_form_of_file) as Hr.
      { apply list_elem_of_bind. exists f. rewrite Hl. split; [by left|done]. }
      rewrite Hb in Hr. by apply elem_of_nil in Hr.
    - intros Hall. induction (glob st) as [|f files IH]; [done|].
      rewrite bind_cons, Hall by left. simpl. apply IH.
      intros f' ?. apply Hall. by right. }
  split_and!.
  - destruct (load_all_data st) as [[[]|e] st'] eqn:Hrun; simpl.
    + apply load_all_data_Ok in Hrun as (Hd & Hne & _).
      split; [by intros [x ?]|]. intros Hg. rewrite Hg in Hd. done.
    + apply load_all_data_Raise in Hrun as (_ & _ & _ & [[-> Hg]|(-> & Hg & _)] & _).
      * split; [done|]. by eexists.
      * split; [by intros [x ?]|done].
  - destruct (load_all_data st) as [[[]|e] st'] eqn:Hrun; simpl.
    + apply load_all_data_Ok in Hrun as (Hd & Hne & _).
      split; [done|]. intros [_ Hall%Hnil]. by rewrite Hd in Hne.
    + apply load_all_data_Raise in Hrun as (_ & _ & _ & [[-> Hg]|(-> & Hg & Hd)] & _).
      * split; [done|]. by intros [? _].
      * split; [|done]. intros _. split; [done|]. by apply Hnil.
  - intros e He.
    destruct (load_all_data st) as [r st'] eqn:Hrun. simpl in He. subst r.
    pose proof Hrun as Hrun'.
    apply load_all_data_Raise in Hrun' as (Hself & _ & _ & Hcase & _). simpl.
    split_and!.
    + destruct Hcase as [[-> _]|(-> & _)]; [by left|by right].
    + done.
    + by rewrite Hself.
    + destruct (run_complete_analysis_run st) as (st2 & -> & Hst2). simpl.
      destruct (load_all_data_console st (console st ++ [MStarting])) as [Hres _].
      rewrite Hrun in Hres. simpl in Hres.
      destruct (load_all_data (with_console _ _)) as [r1 st1]. simpl in Hres.
      subst r1. subst st2. simpl. by rewrite last_snoc.
  - by destruct (run_complete_analysis_run st) as (st' & -> & _).
Qed.

Lemma printed_app st st' ms : console st' = console st ++ ms → printed st st' = ms.
Proof. unfold printed. intros ->. by rewrite drop_app_length. Qed.

(** C6 (amended). Pipeline order: when [load_all_data] returns normally,
    [run_complete_analysis] starts each of the five methods exactly once, in
    the order load, seasonal averages, largest range, stability, summary
    report; the load completes before the first analysis starts, each
    analysis completes before the next starts, and the table the analyses
    see is the one the load stored.  When [load_all_data] raises, none of the
    four later methods is started. *)
Theorem C6_pipeline_order st :
  ((load_all_data st).1 = Ok tt →
   calls (printed st (run_complete_analysis st).2)
   = [LoadAllData; SeasonalAverages; LargestRange; Stability; SummaryReport] ∧
   self (run_complete_analysis st).2 = self (load_all_data st).2 ∧
   ∃ tail,
     events (printed st (run_complete_analysis st).2)
     = [Started LoadAllData; Completed LoadAllData] ++ analysis_events ++ tail ∧
     (tail = [Completed SummaryReport] ∨ tail = [])) ∧
  (∀ e, (load_all_data st).1 = Raise e →
   events (printed st (run_complete_analysis st).2) = [Started LoadAllData] ∧
   calls (printed st (run_complete_analysis st).2) = [LoadAllData]).
Proof.
  destruct (run_complete_analysis_run st) as (st' & Hrun & Hst').
  destruct (load_all_data_console st (console st ++ [MStarting])) as [Hres Hself].
  destruct (load_all_data (with_console st (console st ++ [MStarting])))
    as [r1 st1] eqn:Hload.
  simpl in Hres, Hself. rewrite Hrun. simpl. split.
  - intros Hok. rewrite Hok in Hres. subst r1.
    destruct Hst' as (Hs' & _ & _ & ms & Hc & Hev).
    apply load_all_data_Ok in Hload as (_ & _ & _ & _ & _ & _ & ms1 & Hc1 & Hev1).
    simpl in Hc1.
    assert (Hp : printed st st' = MStarting :: ms1 ++ ms).
    { apply printed_app. rewrite Hc, Hc1, <- !app_assoc. done. }
    assert (Hevs : events (printed st st') = events ms1 ++ events ms).
    { rewrite Hp. change (MStarting :: ms1 ++ ms) with ([MStarting] ++ ms1 ++ ms).
      by rewrite !events_app. }
    unfold calls. rewrite Hevs, Hev1. split_and!.
    + by destruct Hev as [->|[-> _]].
    + by rewrite Hs', Hself.
    + destruct Hev as [->|[-> _]].
      * exists [Completed SummaryReport]. split; [done|by left].
      * exists []. split; [done|by right].
  - intros e He. rewrite He in Hres. subst r1. subst st'.
    apply load_all_data_Raise in Hload as (_ & _ & _ & _ & ms1 & Hc1 & Hev1).
    simpl in Hc1.
    assert (Hp : printed st (with_console st1 (console st1 ++ [MErrorAnalysis e]))
                 = [MStarting] ++ ms1 ++ [MErrorAnalysis e]).
    { apply printed_app. simpl. rewrite Hc1, <- !app_assoc. done. }
    unfold calls. rewrite Hp, !events_app, Hev1. done.
Qed.

Lemma find_station_col_None (df : data_frame F) :
  "STATION_NAME" ∉ columns df → "Station" ∉ columns df → "station" ∉ columns df →
  find_station_col df = None.
Proof.
  intros H1 H2 H3. unfold find_station_col.
  by rewrite !decide_False.
Qed.

Lemma available_months_nil (df : data_frame F) :
  (∀ m, m ∈ month_columns → m ∉ columns df) → available_months df = [].
Proof.
  intros Hno. destruct (available_months df) as [|m ms] eqn:Hav; [done|].
  assert (Hm : m ∈ available_months df) by (rewrite Hav; left).
  apply available_months_spec in Hm as [Hc Hm]. by apply Hno in Hm.
Qed.

(** C10 (amended). Skipped files: one pass of the file loop leaves
    [all_dataframes] as it is when [int] rejects the last
    underscore-separated token of the file name with every occurrence of
    [.csv] removed, when the frame has none of the columns [STATION_NAME],
    [Station], [station], or when it has none of the twelve month columns;
    in every case the records the pass appends all carry the year parsed
    from the file name, and so does every record of the combined table. *)
Theorem C10_skipped_files f dfs st :
  (extract_year (file_name f) = None → (process_file dfs f st).1 = Ok dfs) ∧
  (∀ df, read_csv f = Ok df →
     "STATION_NAME" ∉ columns df → "Station" ∉ columns df → "station" ∉ columns df →
     (process_file dfs f st).1 = Ok dfs) ∧
  (∀ df, read_csv f = Ok df →
     (∀ m, m ∈ month_columns → m ∉ columns df) →
     (process_file dfs f st).1 = Ok dfs) ∧
  (∃ records,
     (process_file dfs f st).1 = Ok (dfs ++ frame_list records) ∧
     ∀ r, r ∈ records → extract_year (file_name f) = Some (Year r)) ∧
  (∀ st', load_all_data st = (Ok tt, st') →
     ∀ r, r ∈ all_data (self st') →
       ∃ f', f' ∈ glob st ∧ extract_year (file_name f') = Some (Year r)).
Proof.
  destruct (process_file_run dfs f st) as (ms & Hrun & _). rewrite Hrun. simpl.
  assert (Hnone : ∀ records, records = [] → Ok (dfs ++ frame_list records) = Ok dfs).
  { intros ? ->. simpl. by rewrite app_nil_r. }
  split_and!.
  - intros Hy. apply Hnone. unfold file_records. by rewrite Hy.
  - intros df Hdf H1 H2 H3. apply Hnone. unfold file_records.
    rewrite Hdf, find_station_col_None by done. by destruct (extract_year _).
  - intros df Hdf Hno. apply Hnone. unfold file_records.
    rewrite Hdf, available_months_nil by done.
    destruct (extract_year _); [|done]. destruct (find_station_col df); [|done].
    by rewrite for_rows_no_months.
  - eexists. split; [done|]. intros r Hr.
    by apply file_records_elem in Hr as (df & sc & row & Hy & _).
  - intros st' Hload r Hr. apply load_all_data_Ok in Hload as (Hd & _).
    rewrite Hd in Hr. apply list_elem_of_bind in Hr as (f' & Hr & Hf').
    exists f'. split; [done|].
    by apply file_records_elem in Hr as (df & sc & row & Hy & _).
Qed.
End PipelineClaims.

(** ** Aggregation: seasonal means, largest range, stability *)

Section Aggregation.
Context {F : Type} {AF : Arith F}.
Implicit Types (st : state F) (d : list (long_record F)) (xs : list F).

(** NaN and the values a reduction takes into account. *)
Lemma elem_of_dropna xs x : x ∈ dropna xs ↔ fis_nan x = false ∧ x ∈ xs.
Proof. unfold dropna. by rewrite list_elem_of_filter. Qed.

Lemma dropna_all xs : (∀ x, x ∈ xs → fis_nan x = false) → dropna xs = xs.
Proof.
  intros H. induction xs as [|x xs IH]; [done|]. unfold dropna in *.
  rewrite filter_cons, IH by (intros y Hy; apply H; by right).
  rewrite decide_True; [done|]. apply H. by left.
Qed.

Lemma dropna_idemp xs : dropna (dropna xs) = dropna xs.
Proof. apply dropna_all. by intros x [? _]%elem_of_dropna. Qed.

Lemma not_nan_Some (x y : F) : not_nan x = Some y ↔ x = y ∧ fis_nan x = false.
Proof.
  unfold not_nan. destruct (fis_nan x) eqn:E; split;
    try done; try (by intros [= ->]); try (by intros [-> _]); by intros [_ ?].
Qed.

Lemma not_nan_None (x : F) : not_nan x = None ↔ fis_nan x = true.
Proof. unfold not_nan. by destruct (fis_nan x). Qed.

Lemma osub_Some (a b : option F) (rg : F) :
  osub a b = Some rg ↔
  ∃ x y, a = Some x ∧ b = Some y ∧ rg = fsub x y ∧ fis_nan rg = false.
Proof.
  unfold osub. destruct a as [x|], b as [y|]; simpl; split;
    try done; try (by intros (? & ? & ? & ? & _)).
  - intros [Hx Hn]%not_nan_Some. exists x, y. rewrite <- Hx. by split_and!.
  - intros (x' & y' & [= <-] & [= <-] & -> & Hn). by apply not_nan_Some.
Qed.

(** Maximum and minimum of a column. *)
Lemma foldl_max_spec (x : F) (rest : list F) :
  (∀ y, y ∈ x :: rest → fis_nan y = false) →
  let m := foldl (λ m y, if fleb m y then y else m) x rest in
  m ∈ x :: rest ∧ ∀ y, y ∈ x :: rest → fleb y m = true.
Proof.
  revert x. induction rest as [|y rest IH]; intros x Hnan; simpl.
  - split; [left|]. intros y ->%list_elem_of_singleton.
    apply fleb_refl, Hnan. by left.
  - assert (Hx : fis_nan x = false) by (apply Hnan; by left).
    assert (Hy : fis_nan y = false) by (apply Hnan; right; by left).
    destruct (IH (if fleb x y then y else x)) as [Hin Hle].
    { intros z Hz. apply elem_of_cons in Hz as [->|Hz].
      - by destruct (fleb x y).
      - apply Hnan. by do 2 right. }
    split.
    + apply elem_of_cons in Hin as [->|Hin].
      * destruct (fleb x y); [right; left|left].
      * by do 2 right.
    + assert (Hx' : fleb (if fleb x y then y else x)
                      (foldl (λ m y0, if fleb m y0 then y0 else m)
                             (if fleb x y then y else x) rest) = true)
        by (apply Hle; left).
      intros z Hz. apply elem_of_cons in Hz as [->|Hz];
        [|apply elem_of_cons in Hz as [->|Hz]].
      * eapply fleb_trans; [|exact Hx'].
        destruct (fleb x y) eqn:Hxy; [done|by apply fleb_refl].
      * eapply fleb_trans; [|exact Hx'].
        destruct (fleb x y) eqn:Hxy; [by apply fleb_refl|].
        destruct (fleb_total x y Hx Hy) as [?|?]; [congruence|done].
      * apply Hle. by right.
Qed.

Lemma foldl_min_spec (x : F) (rest : list F) :
  (∀ y, y ∈ x :: rest → fis_nan y = false) →
  let m := foldl (λ m y, if fleb m y then m else y) x rest in
  m ∈ x :: rest ∧ ∀ y, y ∈ x :: rest → fleb m y = true.
Proof.
  revert x. induction rest as [|y rest IH]; intros x Hnan; simpl.
  - split; [left|]. intros y ->%list_elem_of_singleton.
    apply fleb_refl, Hnan. by left.
  - assert (Hx : fis_nan x = false) by (apply Hnan; by left).
    assert (Hy : fis_nan y = false) by (apply Hnan; right; by left).
    destruct (IH (if fleb x y then x else y)) as [Hin Hle].
    { intros z Hz. apply elem_of_cons in Hz as [->|Hz].
      - by destruct (fleb x y).
      - apply Hnan. by do 2 right. }
    split.
    + apply elem_of_cons in Hin as [->|Hin].
      * destruct (fleb x y); [left|right; left].
      * by do 2 right.
    + assert (Hx' : fleb (foldl (λ m y0, if fleb m y0 then m else y0)
                             (if fleb x y then x else y) rest)
                         (if fleb x y then x else y) = true)
        by (apply Hle; left).
      intros z Hz. apply elem_of_cons in Hz as [->|Hz];
        [|apply elem_of_cons in Hz as [->|Hz]].
      * eapply fleb_trans; [exact Hx'|].
        destruct (fleb x y) eqn:Hxy; [by apply fleb_refl|].
        destruct (fleb_total x y Hx Hy) as [?|?]; [congruence|done].
      * eapply fleb_trans; [exact Hx'|].
        destruct (fleb x y) eqn:Hxy; [done|by apply fleb_refl].
      * apply Hle. by right.
Qed.

Lemma fmax_list_spec xs m : fmax_list xs = Some m → is_maximum m xs.
Proof.
  unfold fmax_list. destruct (dropna xs) as [|x rest] eqn:E; [done|]. intros [= <-].
  assert (Hnan : ∀ y, y ∈ x :: rest → fis_nan y = false).
  { intros y Hy. rewrite <- E in Hy. by apply elem_of_dropna in Hy as [? _]. }
  destruct (foldl_max_spec x rest Hnan) as [Hin Hub].
  split_and!.
  - rewrite <- E in Hin. by apply elem_of_dropna in Hin as [_ ?].
  - by apply Hnan.
  - intros y Hy Hny. apply Hub. rewrite <- E. by apply elem_of_dropna.
Qed.

Lemma fmin_list_spec xs m : fmin_list xs = Some m → is_minimum m xs.
Proof.
  unfold fmin_list. destruct (dropna xs) as [|x rest] eqn:E; [done|]. intros [= <-].
  assert (Hnan : ∀ y, y ∈ x :: rest → fis_nan y = false).
  { intros y Hy. rewrite <- E in Hy. by apply elem_of_dropna in Hy as [? _]. }
  destruct (foldl_min_spec x rest Hnan) as [Hin Hlb].
  split_and!.
  - rewrite <- E in Hin. by apply elem_of_dropna in Hin as [_ ?].
  - by apply Hnan.
  - intros y Hy Hny. apply Hlb. rewrite <- E. by apply elem_of_dropna.
Qed.

Lemma fmax_list_is_Some xs : dropna xs ≠ [] → is_Some (fmax_list xs).
Proof. unfold fmax_list. destruct (dropna xs); [done|by eexists]. Qed.

Lemma fmin_list_is_Some xs : dropna xs ≠ [] → is_Some (fmin_list xs).
Proof. unfold fmin_list. destruct (dropna xs); [done|by eexists]. Qed.

Lemma fmax_list_None xs : fmax_list xs = None ↔ dropna xs = [].
Proof. unfold fmax_list. by destruct (dropna xs). Qed.

Lemma fmin_list_None xs : fmin_list xs = None ↔ dropna xs = [].
Proof. unfold fmin_list. by destruct (dropna xs). Qed.

Lemma feqb_true (x y : F) : feqb x y = true ↔ fleb x y = true ∧ fleb y x = true.
Proof. rewrite feqb_fleb. apply andb_true_iff. Qed.

Lemma oeqb_true (v m : option F) :
  oeqb v m = true ↔ ∃ x y, v = Some x ∧ m = Some y ∧ feqb x y = true.
Proof.
  unfold oeqb. destruct v as [x|], m as [y|]; split;
    try done; try (by intros (? & ? & ? & ? & _)).
  - intros H. by exists x, y.
  - by intros (x' & y' & [= <-] & [= <-] & H).
Qed.

(** Selecting the rows that equal the column maximum keeps exactly the rows
    whose value is a number that no number of the column exceeds. *)
Lemma rows_equal_max {A} (col : A → option F) (frame : list A) (r : A) :
  r ∈ rows_equal col (fmax_list (omap col frame)) frame ↔
  r ∈ frame ∧
  ∃ x, col r = Some x ∧ fis_nan x = false ∧
       ∀ r' x', r' ∈ frame → col r' = Some x' → fis_nan x' = false →
                fleb x' x = true.
Proof.
  unfold rows_equal. rewrite list_elem_of_filter, oeqb_true. split.
  - intros [(x & v & Hx & Hm & [Hle Hge]%feqb_true) Hr]. split; [done|].
    exists x. split; [done|]. split; [by apply fleb_nan in Hle as [? _]|].
    intros r' x' Hr' Hx' Hn'.
    apply fmax_list_spec in Hm as (_ & _ & Hub).
    eapply fleb_trans; [|exact Hge]. apply Hub; [|done].
    apply list_elem_of_omap. by exists r'.
  - intros [Hr (x & Hx & Hn & Hall)]. split; [|done].
    destruct (fmax_list_is_Some (omap col frame)) as [v Hv].
    { intros Hnil.
      assert (x ∈ dropna (omap col frame)) as Hin.
      { apply elem_of_dropna. split; [done|]. apply list_elem_of_omap. by exists r. }
      rewrite Hnil in Hin. by apply elem_of_nil in Hin. }
    exists x, v. split; [done|]. split; [done|]. apply feqb_true.
    pose proof (fmax_list_spec _ _ Hv) as (Hin & Hnv & Hub).
    apply list_elem_of_omap in Hin as (r0 & Hr0 & Hc0). split.
    + apply Hub; [|done]. apply list_elem_of_omap. by exists r.
    + by apply (Hall r0 v).
Qed.

Lemma rows_equal_min {A} (col : A → option F) (frame : list A) (r : A) :
  r ∈ rows_equal col (fmin_list (omap col frame)) frame ↔
  r ∈ frame ∧
  ∃ x, col r = Some x ∧ fis_nan x = false ∧
       ∀ r' x', r' ∈ frame → col r' = Some x' → fis_nan x' = false →
                fleb x x' = true.
Proof.
  unfold rows_equal. rewrite list_elem_of_filter, oeqb_true. split.
  - intros [(x & v & Hx & Hm & [Hle Hge]%feqb_true) Hr]. split; [done|].
    exists x. split; [done|]. split; [by apply fleb_nan in Hle as [? _]|].
    intros r' x' Hr' Hx' Hn'.
    apply fmin_list_spec in Hm as (_ & _ & Hlb).
    eapply fleb_trans; [exact Hle|]. apply Hlb; [|done].
    apply list_elem_of_omap. by exists r'.
  - intros [Hr (x & Hx & Hn & Hall)]. split; [|done].
    destruct (fmin_list_is_Some (omap col frame)) as [v Hv].
    { intros Hnil.
      assert (x ∈ dropna (omap col frame)) as Hin.
      { apply elem_of_dropna. split; [done|]. apply list_elem_of_omap. by exists r. }
      rewrite Hnil in Hin. by apply elem_of_nil in Hin. }
    exists x, v. split; [done|]. split; [done|]. apply feqb_true.
    pose proof (fmin_list_spec _ _ Hv) as (Hin & Hnv & Hlb).
    apply list_elem_of_omap in Hin as (r0 & Hr0 & Hc0). split.
    + by apply (Hall r0 v).
    + apply Hlb; [|done]. apply list_elem_of_omap. by exists r.
Qed.

(** Grouping. *)
Lemma groupby_elem {K} `{EqDecision K} (key : long_record F → option K) d k g :
  (k, g) ∈ groupby key d ↔
  (∃ r, r ∈ d ∧ key r = Some k) ∧ g = filter (λ r, key r = Some k) d.
Proof.
  unfold groupby, unique. rewrite list_elem_of_fmap. split.
  - intros (k' & [= -> ->] & Hk). split; [|done].
    by apply elem_of_remove_dups, list_elem_of_omap in Hk.
  - intros [Hk ->]. exists k. split; [done|].
    by apply elem_of_remove_dups, list_elem_of_omap.
Qed.

Lemma series_get_fmap {K V} `{EqDecision K} (g : K → V) (l : list K) (k : K) :
  series_get k ((λ k', (k', g k')) <$> l)
  = if decide (k ∈ l) then Some (g k) else None.
Proof.
  induction l as [|k' l IH].
  - destruct (decide (k ∈ [])) as [Hin|]; [by apply elem_of_nil in Hin|done].
  - rewrite fmap_cons. cbn [series_get].
    destruct (decide (k' = k)) as [->|Hne].
    + destruct (decide (k ∈ k :: l)) as [|Hn]; [done|]. exfalso. apply Hn. left.
    + rewrite IH.
      destruct (decide (k ∈ l)) as [Hin|Hnin], (decide (k ∈ k' :: l)) as [Hin'|Hnin'];
        try done.
      * exfalso. apply Hnin'. by right.
      * apply elem_of_cons in Hin' as [?|?]; congruence.
Qed.

Lemma group_means_get {K} `{EqDecision K} (key : long_record F → option K) d k :
  mjoin (series_get k (group_means key d))
  = mean (Temperature <$> filter (λ r, key r = Some k) d).
Proof.
  assert (Hgm : group_means key d
                = (λ k, (k, mean (Temperature <$> filter (λ r, key r = Some k) d)))
                  <$> unique (omap key d)).
  { unfold group_means, groupby. by rewrite <- list_fmap_compose. }
  rewrite Hgm, series_get_fmap.
  destruct (decide (k ∈ unique (omap key d))) as [Hin|Hnin]; [done|].
  simpl. destruct (filter _ d) as [|r rs] eqn:Hf; [done|].
  exfalso. apply Hnin. apply elem_of_remove_dups, list_elem_of_omap.
  assert (Hr : r ∈ filter (λ r, key r = Some k) d) by (rewrite Hf; left).
  apply list_elem_of_filter in Hr as [? ?]. by exists r.
Qed.

Lemma filter_season d s :
  filter (λ r, season_key r = Some s) d = filter (λ r, Season r = s) d.
Proof.
  apply list_filter_iff. intros r. unfold season_key. split; [by intros [=]|by intros ->].
Qed.

Lemma mean_arithmetic xs :
  dropna xs ≠ [] → mean xs = not_nan (arithmetic_mean (dropna xs)).
Proof. unfold mean, arithmetic_mean, fsum. by destruct (dropna xs). Qed.

Lemma mean_no_number xs : dropna xs = [] → mean xs = None.
Proof. unfold mean. by intros ->. Qed.

(** C2. Seasonal means: on a loaded table, [calculate_seasonal_averages]
    returns the four seasons in the order Summer, Autumn, Winter, Spring,
    each with the mean of the temperatures of the records of that season,
    whatever their station and year.  The mean of a season is the
    arithmetic mean, sum over count, of its temperatures that are not NaN,
    and NaN when it has none; when none of its temperatures is NaN this is
    the arithmetic mean over all its records. *)
Theorem C2_seasonal_means st :
  all_data (self st) ≠ [] →
  (calculate_seasonal_averages st).1
  = Ok [("Summer"%string, mean (temps_of_season (all_data (self st)) "Summer"));
        ("Autumn"%string, mean (temps_of_season (all_data (self st)) "Autumn"));
        ("Winter"%string, mean (temps_of_season (all_data (self st)) "Winter"));
        ("Spring"%string, mean (temps_of_season (all_data (self st)) "Spring"))] ∧
  (∀ s, dropna (temps_of_season (all_data (self st)) s) ≠ [] →
        mean (temps_of_season (all_data (self st)) s)
        = not_nan (arithmetic_mean (dropna (temps_of_season (all_data (self st)) s)))) ∧
  (∀ s, dropna (temps_of_season (all_data (self st)) s) = [] →
        mean (temps_of_season (all_data (self st)) s) = None) ∧
  (∀ s, (∃ r, r ∈ all_data (self st) ∧ Season r = s) →
        (∀ r, r ∈ all_data (self st) → Season r = s → fis_nan (Temperature r) = false) →
        mean (temps_of_season (all_data (self st)) s)
        = not_nan (arithmetic_mean (temps_of_season (all_data (self st)) s))).
Proof.
  intros Hd. split_and!.
  - rewrite (runs_result _ _ st _ _ (calculate_seasonal_averages_runs (self st))).
    destruct (all_data (self st)) as [|r d] eqn:Hdata; [done|].
    unfold reindex, season_order, temps_of_season. simpl.
    by rewrite !group_means_get, !filter_season.
  - intros s. apply mean_arithmetic.
  - intros s. apply mean_no_number.
  - intros s (r & Hr & Hs) Hnan.
    assert (Hall : dropna (temps_of_season (all_data (self st)) s)
                   = temps_of_season (all_data (self st)) s).
    { apply dropna_all. unfold temps_of_season.
      intros x (r' & -> & [Hs' Hr']%list_elem_of_filter)%list_elem_of_fmap.
      by apply Hnan. }
    rewrite mean_arithmetic; rewrite Hall; [done|].
    unfold temps_of_season. intros Hnil%fmap_nil_inv.
    eapply (filter_nil_not_elem_of _ _ r); [exact Hnil|done|done].
Qed.

(** Stations. *)
Lemma station_key_Some (r : long_record F) (k : cell F) :
  station_key r = Some k ↔ Station r = k ∧ isna k = false.
Proof.
  unfold station_key. destruct (isna (Station r)) eqn:E.
  - split; [done|]. intros [<- ?]. congruence.
  - split; [by intros [= <-]|by intros [<- _]].
Qed.

Lemma filter_station d (s : cell F) :
  isna s = false →
  filter (λ r, station_key r = Some s) d = filter (λ r, Station r = s) d.
Proof.
  intros Hs. apply list_filter_iff. intros r. rewrite station_key_Some.
  split; [by intros [? _]|done].
Qed.

Lemma is_station_temps d (s : cell F) : is_station d s → temps_of_station d s ≠ [].
Proof.
  intros [_ (r & Hr & Hs)] Hnil%fmap_nil_inv.
  eapply (filter_nil_not_elem_of _ _ r); [exact Hnil|done|done].
Qed.

Lemma station_groups d (k : cell F) g :
  (k, g) ∈ groupby station_key d ↔
  is_station d k ∧ g = filter (λ r, Station r = k) d.
Proof.
  rewrite groupby_elem. split.
  - intros [(r & Hr & [Hk Hne]%station_key_Some) ->].
    split; [split; [done|by exists r]|by apply filter_station].
  - intros [[Hne (r & Hr & Hk)] ->]. split.
    + exists r. split; [done|]. by apply station_key_Some.
    + by rewrite filter_station.
Qed.

Lemma station_stats_elem d (row : range_row F) :
  row ∈ station_stats d ↔
  is_station d (rr_station row) ∧
  rr_min row = fmin_list (temps_of_station d (rr_station row)) ∧
  rr_max row = fmax_list (temps_of_station d (rr_station row)) ∧
  rr_range row = station_range d (rr_station row).
Proof.
  unfold station_stats. rewrite list_elem_of_fmap. split.
  - intros ([k g] & -> & [Hk ->]%station_groups). by unfold min_max_row.
  - intros (Hst & Hmin & Hmax & Hrg).
    exists (rr_station row, filter (λ r, Station r = rr_station row) d). split.
    + unfold min_max_row. simpl. fold (temps_of_station d (rr_station row)).
      fold (station_range d (rr_station row)).
      rewrite <- Hmin, <- Hmax, <- Hrg. by destruct row.
    + by apply station_groups.
Qed.

Lemma station_stats_range d (row : range_row F) :
  row ∈ station_stats d → rr_range row = station_range d (rr_station row).
Proof. by intros (_ & _ & _ & ?)%station_stats_elem. Qed.

Lemma station_row d (s : cell F) :
  is_station d s → ∃ row, row ∈ station_stats d ∧ rr_station row = s.
Proof.
  intros Hs.
  exists {| rr_station := s; rr_min := fmin_list (temps_of_station d s);
            rr_max := fmax_list (temps_of_station d s);
            rr_range := station_range d s |}.
  split; [|done]. by apply station_stats_elem.
Qed.

Lemma station_range_has_range d (s : cell F) (rg : F) :
  station_range d s = Some rg → has_range d s rg.
Proof.
  unfold station_range.
  intros (tmax & tmin & Hmax & Hmin & -> & Hn)%osub_Some.
  exists tmax, tmin.
  split_and!; [by apply fmax_list_spec|by apply fmin_list_spec|done|done].
Qed.

Lemma station_range_not_nan d (s : cell F) (rg : F) :
  station_range d s = Some rg → fis_nan rg = false.
Proof. unfold station_range. by intros (? & ? & _ & _ & _ & ?)%osub_Some. Qed.

Lemma stations_with_max_range_elem d (row : range_row F) :
  row ∈ stations_with_max_range d ↔
  row ∈ station_stats d ∧
  ∃ rg, rr_range row = Some rg ∧
        ∀ row' rg', row' ∈ station_stats d → rr_range row' = Some rg' →
                    fleb rg' rg = true.
Proof.
  unfold stations_with_max_range, sort_by_range_desc.
  assert (Hperm : ∀ r, r ∈ merge_sort range_ge (station_stats d) ↔ r ∈ station_stats d)
    by (intros r; by rewrite merge_sort_Permutation).
  rewrite rows_equal_max, Hperm. split.
  - intros [Hrow (rg & Hrg & Hn & Hmax)]. split; [done|].
    exists rg. split; [done|]. intros row' rg' Hrow' Hrg'.
    apply (Hmax row' rg'); [by apply Hperm|done|].
    rewrite (station_stats_range _ _ Hrow') in Hrg'.
    by eapply station_range_not_nan.
  - intros [Hrow (rg & Hrg & Hmax)]. split; [done|].
    exists rg. split; [done|]. split.
    + rewrite (station_stats_range _ _ Hrow) in Hrg.
      by eapply station_range_not_nan.
    + intros row' rg' Hrow'%Hperm Hrg' _. by apply (Hmax row' rg').
Qed.

(** C3. Largest range: on a loaded table, the stations of the rows
    [find_largest_temperature_range] returns are exactly the stations whose
    range is a number that the range of no station exceeds (every station
    tied for the maximum is there); a station whose range is NaN is not
    returned.  Each returned row carries the largest and the smallest of the
    temperatures of its station that are not NaN, over all its records, and
    their difference as the range. *)
Theorem C3_largest_range st :
  all_data (self st) ≠ [] →
  ∃ result,
    (find_largest_temperature_range st).1 = Ok result ∧
    (∀ s, s ∈ rr_station <$> result ↔
       is_station (all_data (self st)) s ∧
       ∃ rg, station_range (all_data (self st)) s = Some rg ∧
         ∀ s' rg', is_station (all_data (self st)) s' →
                   station_range (all_data (self st)) s' = Some rg' →
                   fleb rg' rg = true) ∧
    (∀ s, station_range (all_data (self st)) s = None → s ∉ rr_station <$> result) ∧
    (∀ row, row ∈ result →
       ∃ rg tmax tmin,
         rr_range row = Some rg ∧ rr_max row = Some tmax ∧ rr_min row = Some tmin ∧
         station_range (all_data (self st)) (rr_station row) = Some rg ∧
         has_range (all_data (self st)) (rr_station row) rg ∧
         is_maximum tmax (temps_of_station (all_data (self st)) (rr_station row)) ∧
         is_minimum tmin (temps_of_station (all_data (self st)) (rr_station row)) ∧
         rg = fsub tmax tmin).
Proof.
  intros Hd. exists (stations_with_max_range (all_data (self st))).
  assert (Hiff : ∀ s, s ∈ rr_station <$> stations_with_max_range (all_data (self st)) ↔
       is_station (all_data (self st)) s ∧
       ∃ rg, station_range (all_data (self st)) s = Some rg ∧
         ∀ s' rg', is_station (all_data (self st)) s' →
                   station_range (all_data (self st)) s' = Some rg' →
                   fleb rg' rg = true).
  { intros s. rewrite list_elem_of_fmap. split.
    - intros (row & -> & [Hrow (rg & Hrg & Hmax)]%stations_with_max_range_elem).
      split; [by apply station_stats_elem in Hrow as [? _]|].
      exists rg. split; [by rewrite <- (station_stats_range _ _ Hrow)|].
      intros s' rg' [row' [Hrow' <-]]%station_row Hrg'.
      apply (Hmax row' rg'); [done|]. by rewrite (station_stats_range _ _ Hrow').
    - intros [[row [Hrow <-]]%station_row (rg & Hrg & Hmax)].
      exists row. split; [done|]. apply stations_with_max_range_elem.
      split; [done|]. exists rg. split; [by rewrite (station_stats_range _ _ Hrow)|].
      intros row' rg' Hrow' Hrg'. apply (Hmax (rr_station row')).
      + by apply station_stats_elem in Hrow' as [? _].
      + by rewrite <- (station_stats_range _ _ Hrow'). }
  split_and!.
  - rewrite (runs_result _ _ st _ _ (find_largest_temperature_range_runs (self st))).
    by destruct (all_data (self st)).
  - exact Hiff.
  - intros s Hnone [_ (rg & Hrg & _)]%Hiff. congruence.
  - intros row [Hrow (rg & Hrg & _)]%stations_with_max_range_elem.
    pose proof (station_stats_range _ _ Hrow) as Hsr. rewrite Hrg in Hsr.
    symmetry in Hsr. pose proof Hsr as Hsr'.
    unfold station_range in Hsr'.
    apply osub_Some in Hsr' as (tmax & tmin & Hmax & Hmin & -> & Hn).
    apply station_stats_elem in Hrow as (_ & Hrmin & Hrmax & _).
    exists (fsub tmax tmin), tmax, tmin.
    split_and!; try done; try congruence.
    + by apply station_range_has_range.
    + by apply fmax_list_spec.
    + by apply fmin_list_spec.
Qed.

Lemma sample_std_few xs : (length (dropna xs) < 2)%nat → sample_std xs = None.
Proof. intros H. unfold sample_std. by rewrite decide_True. Qed.

Lemma sample_std_Some xs (sd : F) :
  sample_std xs = Some sd → (2 ≤ length (dropna xs))%nat ∧ fis_nan sd = false.
Proof.
  unfold sample_std. destruct (decide (length (dropna xs) < 2)%nat); [done|].
  intros [<- Hn]%not_nan_Some. split; [lia|done].
Qed.

Lemma station_std_elem d (s : cell F) (sd : F) :
  (s, sd) ∈ station_std d ↔
  is_station d s ∧ sample_std (temps_of_station d s) = Some sd.
Proof.
  unfold station_std. rewrite list_elem_of_omap. split.
  - intros ([k g] & [Hk ->]%station_groups & Hrow). simpl in Hrow.
    fold (temps_of_station d k) in Hrow.
    destruct (sample_std (temps_of_station d k)) as [sd'|] eqn:Hsd; [|done].
    simpl in Hrow. injection Hrow as <- <-. done.
  - intros [Hs Hsd]. exists (s, filter (λ r, Station r = s) d). split.
    + by apply station_groups.
    + simpl. fold (temps_of_station d s). by rewrite Hsd.
Qed.

Lemma station_std_not_nan d (s : cell F) (sd : F) :
  (s, sd) ∈ station_std d → fis_nan sd = false.
Proof. by intros [_ [_ ?]%sample_std_Some]%station_std_elem. Qed.

Lemma omap_Some_snd {A} (l : list (A * F)) : omap (λ r, Some r.2) l = snd <$> l.
Proof.
  induction l as [|r l IH]; [done|].
  change (omap (λ r, Some r.2) (r :: l)) with (r.2 :: omap (λ r, Some r.2) l).
  by rewrite IH.
Qed.

(** The most stable stations are those whose standard deviation no station
    undercuts, the most variable those no station exceeds. *)
Lemma most_stable_elem d (s : cell F) (sd : F) :
  (s, sd) ∈ most_stable d ↔
  (s, sd) ∈ station_std d ∧
  ∀ s' sd', (s', sd') ∈ station_std d → fleb sd sd' = true.
Proof.
  unfold most_stable. rewrite <- omap_Some_snd, rows_equal_min. split.
  - intros [Hin (x & [= <-] & Hn & Hmin)]. split; [done|].
    intros s' sd' Hin'. apply (Hmin (s', sd') sd'); [done|done|].
    by eapply station_std_not_nan.
  - intros [Hin Hmin]. split; [done|]. exists sd. split; [done|].
    split; [by eapply station_std_not_nan|].
    intros [s' sd'] x' Hin' [= <-] _. by apply (Hmin s').
Qed.

Lemma most_variable_elem d (s : cell F) (sd : F) :
  (s, sd) ∈ most_variable d ↔
  (s, sd) ∈ station_std d ∧
  ∀ s' sd', (s', sd') ∈ station_std d → fleb sd' sd = true.
Proof.
  unfold most_variable. rewrite <- omap_Some_snd, rows_equal_max. split.
  - intros [Hin (x & [= <-] & Hn & Hmax)]. split; [done|].
    intros s' sd' Hin'. apply (Hmax (s', sd') sd'); [done|done|].
    by eapply station_std_not_nan.
  - intros [Hin Hmax]. split; [done|]. exists sd. split; [done|].
    split; [by eapply station_std_not_nan|].
    intros [s' sd'] x' Hin' [= <-] _. by apply (Hmax s').
Qed.

(** C4. Stability: on a loaded table, [analyze_temperature_stability]
    returns [(None, None)] exactly when no station has a standard
    deviation; otherwise the most stable stations are exactly the stations
    with a standard deviation that no such station undercuts, and the most
    variable are exactly those no such station exceeds.  The standard
    deviation of a station is taken over its temperatures that are not NaN:
    a station with fewer than two of them has none and is in neither
    frame, and a standard deviation that is there is a number. *)
Theorem C4_stability st :
  all_data (self st) ≠ [] →
  ((∀ s, is_station (all_data (self st)) s →
         sample_std (temps_of_station (all_data (self st)) s) = None) ↔
   (analyze_temperature_stability st).1 = Ok (None, None)) ∧
  ((∃ s, is_station (all_data (self st)) s ∧
         is_Some (sample_std (temps_of_station (all_data (self st)) s))) →
   ∃ stable variable,
     (analyze_temperature_stability st).1 = Ok (Some stable, Some variable) ∧
     (∀ s sd, (s, sd) ∈ stable ↔
        is_station (all_data (self st)) s ∧
        sample_std (temps_of_station (all_data (self st)) s) = Some sd ∧
        ∀ s' sd', is_station (all_data (self st)) s' →
                  sample_std (temps_of_station (all_data (self st)) s') = Some sd' →
                  fleb sd sd' = true) ∧
     (∀ s sd, (s, sd) ∈ variable ↔
        is_station (all_data (self st)) s ∧
        sample_std (temps_of_station (all_data (self st)) s) = Some sd ∧
        ∀ s' sd', is_station (all_data (self st)) s' →
                  sample_std (temps_of_station (all_data (self st)) s') = Some sd' →
                  fleb sd' sd = true)) ∧
  (∀ xs, (length (dropna xs) < 2)%nat → sample_std xs = None) ∧
  (∀ xs sd, sample_std xs = Some sd →
            (2 ≤ length (dropna xs))%nat ∧ (2 ≤ length xs)%nat ∧ fis_nan sd = false).
Proof.
  intros Hd.
  pose proof (runs_result _ _ st _ _ (analyze_temperature_stability_runs (self st)))
    as Hres.
  destruct (all_data (self st)) as [|r0 d0] eqn:Hdata; [done|].
  set (d := r0 :: d0) in *. cbv zeta in Hres. split_and!.
  - rewrite Hres. split.
    + intros Hnone.
      destruct (station_std d) as [|[s sd] l] eqn:Hstd; [done|]. exfalso.
      assert (Hin : (s, sd) ∈ station_std d) by (rewrite Hstd; left).
      apply station_std_elem in Hin as [Hs Hsd].
      apply Hnone in Hs. congruence.
    + destruct (station_std d) as [|p l] eqn:Hstd; [|done]. intros _ s Hs.
      destruct (sample_std (temps_of_station d s)) as [sd|] eqn:Hsd; [|done].
      assert (Hin : (s, sd) ∈ station_std d) by by apply station_std_elem.
      rewrite Hstd in Hin. by apply elem_of_nil in Hin.
  - intros (s & Hs & [sd Hsd]). exists (most_stable d), (most_variable d).
    split_and!.
    + rewrite Hres. destruct (station_std d) as [|p l] eqn:Hstd; [|done]. exfalso.
      assert (Hin : (s, sd) ∈ station_std d) by by apply station_std_elem.
      rewrite Hstd in Hin. by apply elem_of_nil in Hin.
    + intros s1 sd1. rewrite most_stable_elem, station_std_elem. split.
      * intros [[Hs1 Hsd1] Hmin]. split_and!; try done.
        intros s' sd' Hs' Hsd'. apply (Hmin s'). by apply station_std_elem.
      * intros (Hs1 & Hsd1 & Hmin). split; [done|].
        intros s' sd' [Hs' Hsd']%station_std_elem. by eapply Hmin.
    + intros s1 sd1. rewrite most_variable_elem, station_std_elem. split.
      * intros [[Hs1 Hsd1] Hmax]. split_and!; try done.
        intros s' sd' Hs' Hsd'. apply (Hmax s'). by apply station_std_elem.
      * intros (Hs1 & Hsd1 & Hmax). split; [done|].
        intros s' sd' [Hs' Hsd']%station_std_elem. by eapply Hmax.
  - apply sample_std_few.
  - intros xs sd [Hlen Hn]%sample_std_Some. split; [done|]. split; [|done].
    pose proof (length_filter (λ x, fis_nan x = false) xs) as Hle.
    unfold dropna in Hlen. lia.
Qed.
End Aggregation.

(** ** File names *)

Section FileNames.

Lemma split_nonempty sep s : Py.split sep s ≠ [].
Proof.
  destruct s as [|c s]; simpl; [done|].
  destruct (Ascii.eqb c sep); [done|]. by destruct (Py.split sep s).
Qed.

Lemma split_no_sep sep s :
  sep ∉ list_ascii_of_string s → Py.split sep s = [s].
Proof.
  induction s as [|c s IH]; simpl; [done|]. intros Hn.
  destruct (Ascii.eqb_spec c sep) as [->|Hne].
  - exfalso. apply Hn. by left.
  - rewrite IH; [done|]. intros Hin. apply Hn. by right.
Qed.

Lemma split_app_sep sep p s :
  ∃ t pre, Py.split sep (p +:+ String sep s) = t :: pre ++ Py.split sep s.
Proof.
  induction p as [|c p (t & pre & IH)]; simpl.
  - rewrite Ascii.eqb_refl. by exists EmptyString, [].
  - rewrite IH. destruct (Ascii.eqb c sep).
    + by exists EmptyString, (t :: pre).
    + by exists (String c t), pre.
Qed.

Lemma last_split_app_sep sep p s :
  last (Py.split sep (p +:+ String sep s)) = last (Py.split sep s).
Proof.
  destruct (split_app_sep sep p s) as (t & pre & ->).
  change (t :: pre ++ Py.split sep s) with ((t :: pre) ++ Py.split sep s).
  rewrite last_app.
  destruct (last (Py.split sep s)) eqn:E; [done|].
  apply last_None in E. by apply split_nonempty in E.
Qed.

(** X1.  Only the part of a file name after its last underscore decides the
    year.  For a token [tok] that holds no underscore, the name
    [prefix_tok] gives, whatever the prefix, what [int] reads in [tok] once
    every [.csv] in it is removed; so does the name [tok] alone, which has
    no underscore at all. *)
Theorem X1_year_from_last_token (prefix tok : string) :
  "_"%char ∉ list_ascii_of_string tok →
  extract_year (prefix +:+ "_" +:+ tok) = Py.int (Py.replace ".csv" "" tok) ∧
  extract_year tok = Py.int (Py.replace ".csv" "" tok).
Proof.
  intros Hn. unfold extract_year. split.
  - change ("_" +:+ tok)%string with (String "_" tok).
    by rewrite last_split_app_sep, split_no_sep.
  - by rewrite split_no_sep.
Qed.

End FileNames.

(** Case analysis on a digit below ten. *)
Ltac digit_cases d H :=
  let Hc := fresh in
  assert (d = 0 ∨ d = 1 ∨ d = 2 ∨ d = 3 ∨ d = 4 ∨ d = 5 ∨ d = 6 ∨ d = 7
          ∨ d = 8 ∨ d = 9)%nat as Hc by lia;
  clear H;
  destruct Hc as [->|[->|[->|[->|[->|[->|[->|[->|[->| ->]]]]]]]]].

Section DigitNames.

Lemma digit_of_digit_char d : (d < 10)%nat → Py.digit_of (digit_char d) = Some (Z.of_nat d).
Proof. intros H. digit_cases d H; reflexivity. Qed.

Lemma is_space_digit_char d : (d < 10)%nat → Py.is_space (digit_char d) = false.
Proof. intros H. digit_cases d H; reflexivity. Qed.

Lemma digits_digit_string ds acc b :
  Forall (λ d, d < 10)%nat ds →
  Py.digits (digit_string ds) acc b
  = match ds with
    | [] => if b then Some acc else None
    | _ => Some (foldl (λ acc d, 10 * acc + Z.of_nat d) acc ds)
    end.
Proof.
  intros H. revert acc b. induction H as [|d ds Hd Hds IH]; intros acc b; [done|].
  change (digit_string (d :: ds)) with (String (digit_char d) (digit_string ds)).
  cbn [Py.digits]. rewrite (digit_of_digit_char d Hd), IH. by destruct ds.
Qed.

Lemma rstrip_digit_string ds :
  Forall (λ d, d < 10)%nat ds → Py.rstrip (digit_string ds) = digit_string ds.
Proof.
  induction 1 as [|d ds Hd Hds IH]; [done|].
  change (digit_string (d :: ds)) with (String (digit_char d) (digit_string ds)).
  cbn [Py.rstrip]. rewrite IH, (is_space_digit_char d Hd).
  by destruct (digit_string ds).
Qed.

Lemma int_digit_string ds :
  ds ≠ [] → Forall (λ d, d < 10)%nat ds →
  Py.int (digit_string ds) = Some (digits_value ds).
Proof.
  intros Hne H. unfold Py.int, Py.strip.
  assert (Py.lstrip (digit_string ds) = digit_string ds) as ->.
  { destruct H as [|d ds Hd Hds]; [done|].
    change (digit_string (d :: ds)) with (String (digit_char d) (digit_string ds)).
    cbn [Py.lstrip]. by rewrite (is_space_digit_char d Hd). }
  rewrite (rstrip_digit_string ds H).
  pose proof (digits_digit_string ds 0 false H) as Hdig.
  destruct H as [|d ds Hd Hds]; [done|].
  change (digit_string (d :: ds)) with (String (digit_char d) (digit_string ds)) in *.
  unfold digits_value. rewrite <- Hdig.
  digit_cases d Hd; reflexivity.
Qed.

Lemma replace_digit_string ds :
  Forall (λ d, d < 10)%nat ds →
  Py.replace ".csv" "" (digit_string ds +:+ ".csv") = digit_string ds.
Proof.
  unfold Py.replace. induction 1 as [|d ds Hd Hds IH]; [reflexivity|].
  change (digit_string (d :: ds) +:+ ".csv")%string
    with (String (digit_char d) (digit_string ds +:+ ".csv")).
  change (digit_string (d :: ds)) with (String (digit_char d) (digit_string ds)).
  cbn [Py.replace_from].
  assert (String.prefix ".csv" (String (digit_char d) (digit_string ds +:+ ".csv")) = false) as ->.
  { digit_cases d Hd; reflexivity. }
  by rewrite IH.
Qed.

Lemma digit_string_no_underscore ds :
  Forall (λ d, d < 10)%nat ds →
  "_"%char ∉ list_ascii_of_string (digit_string ds +:+ ".csv").
Proof.
  induction 1 as [|d ds Hd Hds IH].
  - simpl. intros Hin. repeat (apply elem_of_cons in Hin as [Hin|Hin]; [done|]).
    by apply elem_of_nil in Hin.
  - change (digit_string (d :: ds) +:+ ".csv")%string
      with (String (digit_char d) (digit_string ds +:+ ".csv")).
    cbn [list_ascii_of_string]. intros Hin.
    apply elem_of_cons in Hin as [Hin|Hin]; [|done].
    revert Hin. digit_cases d Hd; done.
Qed.

(** X2.  A file name that ends in an underscore, decimal digits and [.csv]
    gives the number the digits denote, leading zeros allowed, whatever
    stands before the underscore.  The digits are non-empty and at most
    4300, the length up to which [int] converts a string. *)
Theorem X2_year_of_digit_name (prefix : string) (ds : list nat) :
  ds ≠ [] → (length ds ≤ 4300)%nat → Forall (λ d, d < 10)%nat ds →
  extract_year (prefix +:+ "_" +:+ digit_string ds +:+ ".csv") = Some (digits_value ds).
Proof.
  intros Hne _ H. unfold extract_year.
  change ("_" +:+ digit_string ds +:+ ".csv")%string
    with (String "_" (digit_string ds +:+ ".csv")).
  rewrite last_split_app_sep, split_no_sep by by apply digit_string_no_underscore.
  simpl. rewrite replace_digit_string by done. by apply int_digit_string.
Qed.

End DigitNames.

(** ** Ingestion: files, columns, reloads *)

Section IngestionDetails.

Context {F : Type} {AF : Arith F}.

Lemma available_months_sublist (df : data_frame F) :
  available_months df `sublist_of` month_columns.
Proof. apply sublist_filter. Qed.

Lemma for_months_new mapping year station_name (row : gmap string (cell F))
    months records records' :
  for_months mapping year station_name row months records = Ok records' →
  ∃ new, records' = records ++ new ∧ Month <$> new `sublist_of` months.
Proof.
  revert records. induction months as [|month rest IH]; intros records; simpl.
  - intros [= <-]. exists []. by rewrite app_nil_r.
  - destruct (isna (row_get row month)).
    { intros H. destruct (IH _ H) as (new & -> & Hsub).
      exists new. split; [done|]. by apply sublist_cons. }
    destruct (py_float (row_get row month)) as [t|].
    2:{ intros H. destruct (IH _ H) as (new & -> & Hsub).
        exists new. split; [done|]. by apply sublist_cons. }
    destruct (mapping !! month) as [season|]; [|done].
    intros H. destruct (IH _ H) as (new & -> & Hsub).
    eexists (_ :: new). rewrite <- app_assoc. split; [done|].
    simpl. by apply sublist_skip.
Qed.

Lemma for_rows_new mapping year station_col months (rs : list (gmap string (cell F)))
    records records' :
  for_rows mapping year station_col months rs records = Ok records' →
  ∃ new, records' = records ++ new ∧ (length new ≤ length rs * length months)%nat.
Proof.
  revert records. induction rs as [|row rest IH]; intros records; simpl.
  - intros [= <-]. exists []. by rewrite app_nil_r.
  - destruct (for_months mapping year (row_get row station_col) row months records)
      as [recs|] eqn:E; [|done].
    intros H. destruct (for_months_new _ _ _ _ _ _ _ E) as (new1 & -> & Hsub).
    destruct (IH _ H) as (new2 & -> & Hlen).
    exists (new1 ++ new2). rewrite <- app_assoc. split; [done|].
    apply sublist_length in Hsub. rewrite length_fmap in Hsub.
    rewrite length_app. lia.
Qed.

Lemma file_records_length mapping (f : csv_file F) :
  (length (file_records mapping f)
   ≤ 12 * match read_csv f with Ok df => length (rows df) | Raise _ => 0 end)%nat.
Proof.
  unfold file_records.
  destruct (extract_year (file_name f)) as [year|]; [|simpl; lia].
  destruct (read_csv f) as [df|]; [|simpl; lia].
  destruct (find_station_col df) as [station_col|]; [|simpl; lia].
  destruct (for_rows _ _ _ _ _ _) as [records|] eqn:E; [|simpl; lia].
  destruct (for_rows_new _ _ _ _ _ _ _ E) as (new & -> & Hlen). simpl.
  pose proof (sublist_length _ _ (available_months_sublist df)) as Hm.
  change (length month_columns) with 12%nat in Hm. nia.
Qed.

(** X5.  The records of one row come in calendar order, whatever the order
    of the month columns in the file: their months form a subsequence of
    January..December without repetition, so a row gives at most twelve
    records, each with the station name and the year of the row and a month
    that is a column of the frame. *)
Theorem X5_row_records_in_calendar_order mapping year station_name
    (row : gmap string (cell F)) (df : data_frame F) records :
  for_months mapping year station_name row (available_months df) [] = Ok records →
  Month <$> records `sublist_of` month_columns ∧
  NoDup (Month <$> records) ∧
  (length records ≤ 12)%nat ∧
  ∀ r, r ∈ records → Station r = station_name ∧ Year r = year ∧ Month r ∈ columns df.
Proof.
  intros H. destruct (for_months_new _ _ _ _ _ _ _ H) as (new & -> & Hsub).
  simpl in *.
  assert (Hcal : Month <$> new `sublist_of` month_columns).
  { etrans; [done|]. apply available_months_sublist. }
  split; [done|]. split.
  { apply (sublist_NoDup _ month_columns); [|done]. unfold month_columns. compute_done. }
  split.
  { apply sublist_length in Hcal. by rewrite length_fmap in Hcal. }
  intros r Hr.
  destruct (for_months_elem _ _ _ _ _ _ _ _ H Hr) as [Hin|(Hs & Hy & Hm & _)].
  - by apply elem_of_nil in Hin.
  - split; [done|]. split; [done|]. by apply available_months_spec in Hm as [? _].
Qed.


Lemma available_months_columns (df df' : data_frame F) :
  (∀ c, c ∈ columns df ↔ c ∈ columns df') →
  available_months df = available_months df'.
Proof. intros H. unfold available_months. by apply list_filter_iff. Qed.

Lemma find_station_col_columns (df df' : data_frame F) :
  (∀ c, c ∈ columns df ↔ c ∈ columns df') →
  find_station_col df = find_station_col df'.
Proof.
  intros H. unfold find_station_col.
  repeat case_decide; try done;
    match goal with
    | Hc : ?x ∈ columns df, Hc' : ?x ∉ columns df' |- _ => by apply H in Hc
    | Hc : ?x ∉ columns df, Hc' : ?x ∈ columns df' |- _ => by apply H in Hc'
    end.
Qed.

(** X4.  The order of the columns of a file does not matter.  Two files of
    the same name whose frames have the same rows and the same set of column
    names give the same records, in the same order. *)
Theorem X4_column_order_irrelevant mapping (f f' : csv_file F) (df df' : data_frame F) :
  file_name f = file_name f' →
  read_csv f = Ok df → read_csv f' = Ok df' →
  rows df = rows df' →
  (∀ c, c ∈ columns df ↔ c ∈ columns df') →
  file_records mapping f = file_records mapping f'.
Proof.
  intros Hn Hr Hr' Hrows Hcols. unfold file_records.
  rewrite Hn, Hr, Hr', (find_station_col_columns df df' Hcols),
    (available_months_columns df df' Hcols), Hrows. done.
Qed.

Lemma bind_file_records_length mapping (files : list (csv_file F)) :
  (length (files ≫= file_records mapping) ≤ 12 * rows_read files)%nat.
Proof.
  unfold rows_read. induction files as [|f files IH]; [simpl; lia|].
  rewrite bind_cons, length_app, fmap_cons. simpl.
  pose proof (file_records_length mapping f). lia.
Qed.

(** X7.  After a load that returns normally the combined table is not empty
    and holds at most twelve records for every row of every file that
    [pd.read_csv] could read. *)
Theorem X7_record_bound st st' :
  load_all_data st = (Ok tt, st') →
  (0 < length (all_data (self st')) ≤ 12 * rows_read (glob st))%nat.
Proof.
  intros H. apply load_all_data_Ok in H as (Hd & Hne & _).
  rewrite Hd in *. split.
  - destruct (glob st ≫= _); [done|simpl; lia].
  - apply bind_file_records_length.
Qed.

Lemma for_months_Raise mapping year station_name (row : gmap string (cell F))
    months records e :
  for_months mapping year station_name row months records = Raise e →
  ∃ m, e = KeyError m ∧ m ∈ months ∧ mapping !! m = None.
Proof.
  revert records. induction months as [|month rest IH]; intros records; simpl; [done|].
  destruct (isna (row_get row month)).
  { intros H. destruct (IH _ H) as (m & -> & Hm & Hn). exists m. set_solver. }
  destruct (py_float (row_get row month)) as [t|].
  2:{ intros H. destruct (IH _ H) as (m & -> & Hm & Hn). exists m. set_solver. }
  destruct (mapping !! month) as [season|] eqn:E.
  - intros H. destruct (IH _ H) as (m & -> & Hm & Hn). exists m. set_solver.
  - intros [= <-]. exists month. set_solver.
Qed.

Lemma for_months_missing_season mapping year station_name (row : gmap string (cell F))
    months records month t :
  month ∈ months → valid_temperature (row_get row month) = Some t →
  mapping !! month = None →
  ∃ e, for_months mapping year station_name row months records = Raise e.
Proof.
  intros Hin Hv Hn. apply valid_temperature_Some in Hv as [Hna Hfl].
  revert records. induction months as [|month0 rest IH]; intros records.
  { by apply elem_of_nil in Hin. }
  simpl. destruct (decide (month0 = month)) as [->|Hne].
  - rewrite Hna, Hfl, Hn. by eexists.
  - apply elem_of_cons in Hin as [->|Hin]; [done|].
    destruct (isna (row_get row month0)); [by apply IH|].
    destruct (py_float (row_get row month0)); [|by apply IH].
    destruct (mapping !! month0); [by apply IH|by eexists].
Qed.

Lemma for_rows_missing_season mapping year station_col months
    (rs : list (gmap string (cell F))) records row month t :
  row ∈ rs → month ∈ months →
  valid_temperature (row_get row month) = Some t →
  mapping !! month = None →
  ∃ e, for_rows mapping year station_col months rs records = Raise e.
Proof.
  intros Hrow Hin Hv Hn. revert records.
  induction rs as [|row0 rest IH]; intros records.
  { by apply elem_of_nil in Hrow. }
  simpl. apply elem_of_cons in Hrow as [<-|Hrow].
  - destruct (for_months_missing_season mapping year (row_get row station_col)
                row months records month t Hin Hv Hn) as [e ->]. by eexists.
  - destruct (for_months _ _ _ row0 _ _); [by apply IH|by eexists].
Qed.

(** X6.  When the season dictionary has no entry for a month column in which
    some row of a file holds a valid temperature, the [KeyError] is caught
    by the handler of the file loop and the whole file is dropped: it
    contributes no record, not even those read before the failing cell, and
    the analyzer is unchanged. *)
Theorem X6_missing_season_drops_file (f : csv_file F) dfs st year station_col df row month t :
  extract_year (file_name f) = Some year →
  read_csv f = Ok df →
  find_station_col df = Some station_col →
  row ∈ rows df → month ∈ available_months df →
  valid_temperature (row_get row month) = Some t →
  season_mapping (self st) !! month = None →
  file_records (season_mapping (self st)) f = [] ∧
  (process_file dfs f st).1 = Ok dfs ∧
  self (process_file dfs f st).2 = self st.
Proof.
  intros Hy Hr Hc Hrow Hm Hv Hn.
  assert (Hrec : file_records (season_mapping (self st)) f = []).
  { unfold file_records. rewrite Hy, Hr, Hc.
    by destruct (for_rows_missing_season (season_mapping (self st)) year station_col
                   (available_months df) (rows df) [] row month t Hrow Hm Hv Hn)
      as [e ->]. }
  split; [done|].
  destruct (process_file_run dfs f st) as (ms & -> & _).
  rewrite Hrec. simpl. by rewrite app_nil_r.
Qed.

(** X3.  A file whose name gives a year but on which [pd.read_csv] raises is
    skipped: the exception is caught, the list of per-file frames is left as
    it was, and the console gains exactly the processing line and the error
    line of that file. *)
Theorem X3_unreadable_file_skipped (f : csv_file F) dfs st year e :
  extract_year (file_name f) = Some year →
  read_csv f = Raise e →
  process_file dfs f st
  = (Ok dfs, with_console st
               (console st ++ [MProcessing (file_name f);
                               MErrorProcessing (file_name f) e])).
Proof.
  intros Hy Hr. unfold process_file. rewrite Hy, Hr.
  unfold mbind, M_bind, mret, M_ret, print, lift_res, try_except, with_console.
  simpl. by rewrite <- app_assoc.
Qed.

Lemma glob_eq (st st' : state F) :
  disk st' = disk st → data_folder (self st') = data_folder (self st) →
  glob st' = glob st.
Proof. intros Hd Hf. unfold glob. by rewrite Hd, Hf. Qed.

(** X8.  Loading again replaces the combined table, it does not append to
    it: a second [load_all_data] right after a successful one succeeds too
    and leaves the analyzer, the folder and the written files exactly as the
    first left them. *)
Theorem X8_reload_replaces st st' :
  load_all_data st = (Ok tt, st') →
  ∃ st'', load_all_data st' = (Ok tt, st'') ∧ self st'' = self st' ∧
          disk st'' = disk st' ∧ outputs st'' = outputs st'.
Proof.
  intros H. apply load_all_data_Ok in H as (Hd & Hne & Hf & Hm & Hdisk & _).
  pose proof (glob_eq st st' Hdisk Hf) as Hg.
  destruct (load_all_data_run st') as [[Hnil _]|[(_ & Hnil & _)|(_ & _ & ms & E & _)]].
  - exfalso. apply Hne. rewrite Hd, <- Hg, Hnil. done.
  - exfalso. apply Hne. rewrite Hd, <- Hg, <- Hm. done.
  - eexists. split; [exact E|]. simpl. rewrite Hg.
    replace (glob st ≫= file_records (season_mapping (self st')))
      with (all_data (self st')) by (by rewrite Hd, Hm).
    split; [by destruct (self st')|done].
Qed.

(** X9.  [load_all_data] writes no file and changes neither the folder, nor
    [data_folder], nor the season dictionary; it only adds lines to the
    console, and when it raises the combined table is the one from before
    the call. *)
Theorem X9_load_frame st :
  let st' := (load_all_data st).2 in
  disk st' = disk st ∧ outputs st' = outputs st ∧
  data_folder (self st') = data_folder (self st) ∧
  season_mapping (self st') = season_mapping (self st) ∧
  (∀ e, (load_all_data st).1 = Raise e → all_data (self st') = all_data (self st)) ∧
  ∃ ms, console st' = console st ++ ms.
Proof.
  simpl.
  destruct (load_all_data_run st)
    as [[_ E]|[(_ & _ & ms & E & _)|(_ & _ & ms & E & _)]]; rewrite E; simpl.
  - repeat (split; [done|]). by eexists.
  - repeat (split; [done|]). by eexists.
  - repeat (split; [done|]). by eexists.
Qed.

End IngestionDetails.

(** ** The frames the analyses return *)

Section Frames.

Context {F : Type} {AF : Arith F}.

Lemma season_invariant_season (d : list (long_record F)) r :
  season_invariant d → r ∈ d → Season r ∈ season_order.
Proof.
  intros H Hr. destruct (H r Hr) as [Hm ->].
  unfold month_columns in Hm.
  repeat (apply elem_of_cons in Hm as [->|Hm]; [compute_done|]).
  by apply elem_of_nil in Hm.
Qed.

Lemma seasons_sizes (d : list (long_record F)) :
  season_invariant d →
  length d = sum_list ((λ s, length (temps_of_season d s)) <$> season_order).
Proof.
  intros H. induction d as [|r d IH]; [done|].
  assert (Hr : Season r ∈ season_order).
  { apply (season_invariant_season (r :: d)); [done|by left]. }
  rewrite length_cons, IH by (intros r' Hr'; apply H; by right).
  unfold temps_of_season, season_order in *. simpl.
  rewrite !length_fmap, !filter_cons.
  repeat (apply elem_of_cons in Hr as [->|Hr];
          [repeat case_decide; try done; simpl; rewrite ?length_fmap; lia|]).
  by apply elem_of_nil in Hr.
Qed.

Lemma seasonal_averages_series (d : list (long_record F)) :
  reindex season_order (group_means season_key d)
  = (λ s, (s, mean (temps_of_season d s))) <$> season_order.
Proof.
  unfold reindex. apply list_fmap_ext. intros i s _. simpl.
  unfold temps_of_season. by rewrite group_means_get, filter_season.
Qed.

Lemma reindex_labels {K} `{EqDecision K} (order : list K) (s : list (K * option F)) :
  fst <$> reindex order s = order.
Proof.
  unfold reindex. rewrite <- list_fmap_compose.
  rewrite <- (list_fmap_id order) at 2. by apply list_fmap_ext.
Qed.

Lemma calculate_seasonal_averages_result st :
  (calculate_seasonal_averages st).1
  = match all_data (self st) with
    | [] => Raise (KeyError "Season")
    | d => Ok (reindex season_order (group_means season_key d))
    end.
Proof. eapply runs_result, calculate_seasonal_averages_runs. Qed.

(** X11.  In a table whose records carry the season of their month, the
    four labels of the series [calculate_seasonal_averages] returns
    partition the table: the season of every record is one of the labels,
    the value at a label is the mean of the records of that season, no label
    comes twice, and the sizes of the four groups add up to the size of the
    table (reindexing to the four seasons drops no group). *)
Theorem X11_seasons_partition st :
  all_data (self st) ≠ [] →
  season_invariant (all_data (self st)) →
  ∃ seasonal_avg,
    (calculate_seasonal_averages st).1 = Ok seasonal_avg ∧
    NoDup (fst <$> seasonal_avg) ∧
    (∀ r, r ∈ all_data (self st) →
       (Season r, mean (temps_of_season (all_data (self st)) (Season r)))
       ∈ seasonal_avg) ∧
    (∀ s v, (s, v) ∈ seasonal_avg →
       v = mean (temps_of_season (all_data (self st)) s)) ∧
    length (all_data (self st))
    = sum_list ((λ sv, length (temps_of_season (all_data (self st)) sv.1))
                  <$> seasonal_avg).
Proof.
  intros Hd Hinv. rewrite calculate_seasonal_averages_result.
  destruct (all_data (self st)) as [|r0 d0] eqn:E; [done|]. rewrite <- E in *.
  clear E r0 d0. set (d := all_data (self st)) in *.
  eexists. split; [done|]. split.
  { rewrite reindex_labels. unfold season_order. compute_done. }
  rewrite seasonal_averages_series. split_and!.
  - intros r Hr. apply list_elem_of_fmap. exists (Season r).
    split; [done|]. by apply (season_invariant_season d).
  - by intros s v (s' & [= -> ->] & _)%list_elem_of_fmap.
  - rewrite <- list_fmap_compose. by apply seasons_sizes.
Qed.

Lemma fmin_le_fmax (xs : list F) lo hi :
  fmin_list xs = Some lo → fmax_list xs = Some hi → fleb lo hi = true.
Proof.
  intros Hlo Hhi. apply fmin_list_spec in Hlo as (Hin & Hn & _).
  apply fmax_list_spec in Hhi as (_ & _ & Hub). by apply Hub.
Qed.

Lemma omap_fmap_sublist {A B C} (g : A → option B) (h : B → C) (k : A → C) (l : list A) :
  (∀ x y, g x = Some y → h y = k x) →
  h <$> omap g l `sublist_of` k <$> l.
Proof.
  intros Hg. induction l as [|x l IH]; simpl; [done|].
  destruct (g x) as [y|] eqn:E; simpl.
  - rewrite (Hg x y E). by apply sublist_skip.
  - by apply sublist_cons.
Qed.

Lemma groupby_keys {K} `{EqDecision K} (key : long_record F → option K) d :
  fst <$> groupby key d = unique (omap key d).
Proof.
  unfold groupby. rewrite <- list_fmap_compose.
  rewrite <- (list_fmap_id (unique (omap key d))) at 2.
  by apply list_fmap_ext.
Qed.

Lemma station_stats_stations (d : list (long_record F)) :
  rr_station <$> station_stats d = unique (omap station_key d).
Proof.
  unfold station_stats. rewrite <- list_fmap_compose, <- groupby_keys.
  by apply list_fmap_ext.
Qed.

Lemma station_stats_NoDup (d : list (long_record F)) :
  NoDup (rr_station <$> station_stats d).
Proof. rewrite station_stats_stations. apply NoDup_remove_dups. Qed.

Lemma rows_equal_sublist {A} (col : A → option F) m (frame : list A) :
  rows_equal col m frame `sublist_of` frame.
Proof. unfold rows_equal. apply sublist_filter. Qed.

Lemma stations_with_max_range_NoDup (d : list (long_record F)) :
  NoDup (rr_station <$> stations_with_max_range d).
Proof.
  unfold stations_with_max_range, sort_by_range_desc.
  eapply sublist_NoDup; [|apply fmap_sublist, rows_equal_sublist].
  rewrite merge_sort_Permutation. apply station_stats_NoDup.
Qed.

(** The selection is empty exactly when the column has no number. *)
Lemma rows_equal_max_nil {A} (col : A → option F) (frame : list A) :
  rows_equal col (fmax_list (omap col frame)) frame = [] ↔
  fmax_list (omap col frame) = None.
Proof.
  split.
  - intros Hnil. destruct (fmax_list (omap col frame)) as [v|] eqn:Hv; [|done].
    exfalso. pose proof (fmax_list_spec _ _ Hv) as (Hin & Hn & Hub).
    apply list_elem_of_omap in Hin as (r & Hr & Hc).
    assert (r ∈ rows_equal col (fmax_list (omap col frame)) frame) as Hin.
    { apply rows_equal_max. split; [done|]. exists v. split; [done|]. split; [done|].
      intros r' x' Hr' Hc' Hn'. apply Hub; [|done].
      apply list_elem_of_omap. by exists r'. }
    rewrite Hv, Hnil in Hin. by apply elem_of_nil in Hin.
  - intros ->. unfold rows_equal.
    induction frame as [|r frame IH]; [done|].
    rewrite filter_cons, IH. rewrite decide_False; [done|].
    unfold oeqb. by destruct (col r).
Qed.

Lemma rows_equal_min_nil {A} (col : A → option F) (frame : list A) :
  rows_equal col (fmin_list (omap col frame)) frame = [] ↔
  fmin_list (omap col frame) = None.
Proof.
  split.
  - intros Hnil. destruct (fmin_list (omap col frame)) as [v|] eqn:Hv; [|done].
    exfalso. pose proof (fmin_list_spec _ _ Hv) as (Hin & Hn & Hlb).
    apply list_elem_of_omap in Hin as (r & Hr & Hc).
    assert (r ∈ rows_equal col (fmin_list (omap col frame)) frame) as Hin.
    { apply rows_equal_min. split; [done|]. exists v. split; [done|]. split; [done|].
      intros r' x' Hr' Hc' Hn'. apply Hlb; [|done].
      apply list_elem_of_omap. by exists r'. }
    rewrite Hv, Hnil in Hin. by apply elem_of_nil in Hin.
  - intros ->. unfold rows_equal.
    induction frame as [|r frame IH]; [done|].
    rewrite filter_cons, IH. rewrite decide_False; [done|].
    unfold oeqb. by destruct (col r).
Qed.

Lemma find_largest_temperature_range_result st :
  (find_largest_temperature_range st).1
  = match all_data (self st) with
    | [] => Raise (KeyError "Station")
    | d => Ok (stations_with_max_range d)
    end.
Proof. eapply runs_result, find_largest_temperature_range_runs. Qed.

Lemma analyze_temperature_stability_result st :
  (analyze_temperature_stability st).1
  = match all_data (self st) with
    | [] => Raise (KeyError "Station")
    | d => Ok (match station_std d with
               | [] => (None, None)
               | _ => (Some (most_stable d), Some (most_variable d))
               end)
    end.
Proof. eapply runs_result, analyze_temperature_stability_runs. Qed.

(** X13.  The frame returned by [find_largest_temperature_range] is empty
    exactly when no station has a range that is a number (so also when no
    record has a station name); it lists no station twice; in each of its
    rows the minimum and the maximum are numbers, the minimum at most the
    maximum; and all its rows have equal ranges. *)
Theorem X13_largest_range_frame st result :
  (find_largest_temperature_range st).1 = Ok result →
  (result = [] ↔
   ∀ s, is_station (all_data (self st)) s →
        station_range (all_data (self st)) s = None) ∧
  ((∀ r, r ∈ all_data (self st) → isna (Station r) = true) → result = []) ∧
  NoDup (rr_station <$> result) ∧
  (∀ row, row ∈ result →
     ∃ lo hi, rr_min row = Some lo ∧ rr_max row = Some hi ∧ fleb lo hi = true) ∧
  (∀ row row', row ∈ result → row' ∈ result →
     oeqb (rr_range row) (rr_range row') = true).
Proof.
  rewrite find_largest_temperature_range_result.
  destruct (all_data (self st)) as [|r0 d0] eqn:E; [done|]. rewrite <- E. clear E r0 d0.
  intros [= <-]. set (d := all_data (self st)).
  assert (Hempty : stations_with_max_range d = [] ↔
                   ∀ s, is_station d s → station_range d s = None).
  { split.
    - intros Hnil s Hs.
      destruct (station_range d s) as [rg|] eqn:Hrg; [|done]. exfalso.
      destruct (station_row d s Hs) as (row & Hrow & <-).
      unfold stations_with_max_range in Hnil.
      apply rows_equal_max_nil, fmax_list_None in Hnil.
      assert (rg ∈ dropna (omap rr_range (sort_by_range_desc (station_stats d))))
        as Hin.
      { apply elem_of_dropna. split; [by eapply station_range_not_nan|].
        apply list_elem_of_omap. exists row. split.
        - unfold sort_by_range_desc. by rewrite merge_sort_Permutation.
        - by rewrite (station_stats_range _ _ Hrow). }
      rewrite Hnil in Hin. by apply elem_of_nil in Hin.
    - intros Hall. destruct (stations_with_max_range d) as [|row rest] eqn:E'; [done|].
      exfalso. assert (Hrow : row ∈ stations_with_max_range d) by (rewrite E'; by left).
      apply stations_with_max_range_elem in Hrow as [Hrow (rg & Hrg & _)].
      rewrite (station_stats_range _ _ Hrow) in Hrg.
      apply station_stats_elem in Hrow as [Hs _].
      rewrite (Hall _ Hs) in Hrg. done. }
  split_and!.
  - exact Hempty.
  - intros Hall. apply Hempty. intros s [Hne (r & Hr & Hs)].
    exfalso. rewrite <- Hs, (Hall r Hr) in Hne. done.
  - apply stations_with_max_range_NoDup.
  - intros row [Hrow (rg & Hrg & _)]%stations_with_max_range_elem.
    rewrite (station_stats_range _ _ Hrow) in Hrg. unfold station_range in Hrg.
    apply osub_Some in Hrg as (hi & lo & Hmax & Hmin & _).
    apply station_stats_elem in Hrow as (_ & Hrmin & Hrmax & _).
    exists lo, hi. rewrite Hrmin, Hrmax. split_and!; try done.
    by eapply fmin_le_fmax.
  - intros row row' Hrow Hrow'.
    apply stations_with_max_range_elem in Hrow as [Hrow (rg & Hrg & Hub)].
    apply stations_with_max_range_elem in Hrow' as [Hrow' (rg' & Hrg' & Hub')].
    rewrite Hrg, Hrg'. simpl. apply feqb_true.
    split; [by apply (Hub' row rg)|by apply (Hub row' rg')].
Qed.

Lemma station_std_NoDup (d : list (long_record F)) : NoDup (fst <$> station_std d).
Proof.
  unfold station_std.
  apply (sublist_NoDup _ (fst <$> groupby station_key d)).
  - rewrite groupby_keys. apply NoDup_remove_dups.
  - apply omap_fmap_sublist. intros [k g] [s sd]. simpl.
    destruct (sample_std _); simpl; [|done]. by intros [= <- _].
Qed.

Lemma station_std_has_number (d : list (long_record F)) :
  station_std d ≠ [] → dropna (snd <$> station_std d) ≠ [].
Proof.
  intros Hne Hnil. destruct (station_std d) as [|[s sd] l] eqn:E; [done|].
  assert (Hin : (s, sd) ∈ station_std d) by (rewrite E; by left).
  apply station_std_not_nan in Hin.
  assert (sd ∈ dropna (snd <$> (s, sd) :: l)) as Hsd.
  { apply elem_of_dropna. split; [done|]. by left. }
  rewrite Hnil in Hsd. by apply elem_of_nil in Hsd.
Qed.

(** X16.  When [analyze_temperature_stability] returns two frames, neither
    is empty, neither lists a station twice, every standard deviation of the
    first is at most every standard deviation of the second, and every
    station listed has at least two records. *)
Theorem X16_stability_frames st stable variable :
  (analyze_temperature_stability st).1 = Ok (Some stable, Some variable) →
  stable ≠ [] ∧ variable ≠ [] ∧
  NoDup (fst <$> stable) ∧ NoDup (fst <$> variable) ∧
  (∀ s sd s' sd', (s, sd) ∈ stable → (s', sd') ∈ variable → fleb sd sd' = true) ∧
  (∀ s sd, (s, sd) ∈ stable ∨ (s, sd) ∈ variable →
     (2 ≤ length (temps_of_station (all_data (self st)) s))%nat).
Proof.
  rewrite analyze_temperature_stability_result.
  destruct (all_data (self st)) as [|r0 d0] eqn:E; [done|]. rewrite <- E. clear E r0 d0.
  set (d := all_data (self st)). cbv zeta.
  destruct (station_std d) as [|p ps] eqn:E; [done|].
  assert (Hne : station_std d ≠ []) by by rewrite E.
  clear E p ps. intros [= <- <-].
  apply station_std_has_number in Hne.
  split.
  { unfold most_stable. rewrite <- omap_Some_snd.
    intros Hnil%rows_equal_min_nil%fmin_list_None.
    by rewrite omap_Some_snd in Hnil. }
  split.
  { unfold most_variable. rewrite <- omap_Some_snd.
    intros Hnil%rows_equal_max_nil%fmax_list_None.
    by rewrite omap_Some_snd in Hnil. }
  split; [eapply sublist_NoDup; [apply station_std_NoDup|apply fmap_sublist, rows_equal_sublist]|].
  split; [eapply sublist_NoDup; [apply station_std_NoDup|apply fmap_sublist, rows_equal_sublist]|].
  split.
  - intros s sd s' sd' [Hs Hlb]%most_stable_elem [Hv _]%most_variable_elem.
    by apply (Hlb s').
  - intros s sd Hin.
    assert (Hs : (s, sd) ∈ station_std d).
    { destruct Hin as [Hin|Hin].
      - by apply most_stable_elem in Hin as [? _].
      - by apply most_variable_elem in Hin as [? _]. }
    apply station_std_elem in Hs as [_ [Hlen _]%sample_std_Some].
    pose proof (length_filter (λ x, fis_nan x = false) (temps_of_station d s)) as Hle.
    unfold dropna in Hlen. lia.
Qed.

End Frames.

(** ** What the methods write *)

Section Writes.

Context {F : Type} {AF : Arith F}.

Implicit Types (a : analyzer F) (st : state F) (name : string).

Lemma writes_ret {A} name (x : A) a : writes name (mret x) a (Ok x) [] id.
Proof.
  intros st <-. exists (outputs st). rewrite app_nil_r.
  split; [by destruct st|]. split; [done|apply same_outside_refl].
Qed.

Lemma writes_raise {A} name e a : writes name (raise (A:=A) e) a (Raise e) [] id.
Proof.
  intros st <-. exists (outputs st). rewrite app_nil_r.
  split; [by destruct st|]. split; [done|apply same_outside_refl].
Qed.

Lemma writes_lift_res {A} name (r : res A) a : writes name (lift_res r) a r [] id.
Proof.
  intros st <-. exists (outputs st). rewrite app_nil_r.
  split; [by destruct st|]. split; [done|apply same_outside_refl].
Qed.

Lemma writes_gets {A} name (g : analyzer F → A) a :
  writes name (gets (λ st, g (self st))) a (Ok (g a)) [] id.
Proof.
  intros st <-. exists (outputs st). rewrite app_nil_r.
  split; [by destruct st|]. split; [done|apply same_outside_refl].
Qed.

Lemma writes_print name m a : writes name (print m) a (Ok tt) [m] id.
Proof.
  intros st <-. exists (outputs st).
  split; [done|]. split; [done|apply same_outside_refl].
Qed.

Lemma writes_open_w name a : writes name (open_w name) a (Ok tt) [] (λ _, Some []).
Proof.
  intros st <-. exists (<[name := []]> (outputs st)). rewrite app_nil_r.
  split; [done|]. split; [apply lookup_insert_eq|].
  intros n Hn. apply lookup_insert_ne. intros ->. apply Hn. by left.
Qed.

Lemma writes_fwrite name l a :
  writes name (fwrite name l) a (Ok tt) [] (fmap (λ w, w ++ [l])).
Proof.
  intros st <-. exists (alter (λ w, w ++ [l]) name (outputs st)). rewrite app_nil_r.
  split; [done|]. split; [apply lookup_alter_eq|].
  intros n Hn. apply lookup_alter_ne. intros ->. apply Hn. by left.
Qed.

Lemma writes_bind {A B} name (m : M A) (k : A → M B) a x ms1 g1 r ms2 g2 :
  writes name m a (Ok x) ms1 g1 → writes name (k x) a r ms2 g2 →
  writes name (m ≫= k) a r (ms1 ++ ms2) (g2 ∘ g1).
Proof.
  intros H1 H2 st Ha.
  destruct (H1 st Ha) as (o1 & E1 & L1 & S1).
  destruct (H2 {| self := a; disk := disk st; outputs := o1;
                  console := console st ++ ms1 |} eq_refl) as (o2 & E2 & L2 & S2).
  exists o2. unfold mbind, M_bind. rewrite E1, E2. simpl in *.
  rewrite <- app_assoc. split; [done|]. split.
  - by rewrite L2, L1.
  - intros n Hn. by rewrite S2, S1.
Qed.

Lemma writes_bind_raise {A B} name (m : M A) (k : A → M B) a e ms g :
  writes name m a (Raise e) ms g → writes name (m ≫= k) a (Raise e) ms g.
Proof.
  intros H1 st Ha. destruct (H1 st Ha) as (o1 & E1 & L1 & S1).
  exists o1. unfold mbind, M_bind. by rewrite E1.
Qed.

Lemma writes_fwrite_all name ls a :
  writes name (fwrite_all name ls) a (Ok tt) [] (fmap (λ w, w ++ ls)).
Proof.
  induction ls as [|l ls IH]; intros st Ha.
  - destruct (writes_ret name tt a st Ha) as (o & E & L & S).
    exists o. split; [done|]. split; [|done].
    rewrite L. simpl. destruct (outputs st !! name); simpl; [|done].
    by rewrite app_nil_r.
  - destruct (writes_bind name (fwrite name l) (λ _, fwrite_all name ls)
                a tt [] _ (Ok tt) [] _ (writes_fwrite name l a) IH st Ha)
      as (o & E & L & S).
    exists o. split; [done|]. split; [|done].
    rewrite L. simpl. destruct (outputs st !! name); simpl; [|done].
    by rewrite <- app_assoc.
Qed.

Lemma writes_print_all name ms a : writes name (print_all ms) a (Ok tt) ms id.
Proof.
  induction ms as [|m ms IH].
  - apply writes_ret.
  - apply (writes_bind name (print m) (λ _, print_all ms) a tt [m] id (Ok tt) ms id).
    + apply writes_print.
    + apply IH.
Qed.

(** The same run, its messages and its effect on the file rewritten. *)
Lemma writes_eq {A} name (m : M A) a r ms ms' g g' :
  writes name m a r ms g → ms = ms' → (∀ w, g w = g' w) → writes name m a r ms' g'.
Proof.
  intros H -> Hg st Ha. destruct (H st Ha) as (o & E & L & S).
  exists o. by rewrite <- Hg.
Qed.

Lemma writes_runs {A} name (m : M A) a r ms g :
  writes name m a r ms g → runs [name] m a r ms.
Proof.
  intros H st Ha. destruct (H st Ha) as (o & E & L & S). by exists o.
Qed.

End Writes.

(** One step of a method, by the shape of the computation. *)
Ltac write_step1 :=
  lazymatch goal with
  | |- writes _ (mret _) _ _ _ _ => apply writes_ret
  | |- writes _ (raise _) _ _ _ _ => apply writes_raise
  | |- writes _ (lift_res _) _ _ _ _ => apply writes_lift_res
  | |- writes _ (print _) _ _ _ _ => apply writes_print
  | |- writes _ (open_w _) _ _ _ _ => apply writes_open_w
  | |- writes _ (fwrite _ _) _ _ _ _ => apply writes_fwrite
  | |- writes _ (fwrite_all _ _) _ _ _ _ => apply writes_fwrite_all
  | |- writes _ (print_all _) _ _ _ _ => apply writes_print_all
  | |- writes _ (gets _) _ _ _ _ => apply writes_gets
  | |- writes _ (mbind _ (lift_res (Raise _))) _ _ _ _ =>
      eapply writes_bind_raise; apply writes_lift_res
  | |- writes _ (mbind _ _) _ _ _ _ => eapply writes_bind
  end.

Ltac write_steps := repeat first [write_step1 | progress cbn [all_data]].

Section MethodWrites.

Context {F : Type} {AF : Arith F}.

Implicit Types (a : analyzer F) (st : state F) (name : string).

Lemma calculate_seasonal_averages_writes a :
  all_data a ≠ [] →
  writes "average_temp.txt" calculate_seasonal_averages a
    (Ok (reindex season_order (group_means season_key (all_data a))))
    [MCalcSeasonal; MSeasonalSaved]
    (λ _, Some (seasonal_report
                  (reindex season_order (group_means season_key (all_data a))))).
Proof.
  intros Hd. unfold calculate_seasonal_averages.
  eapply writes_eq.
  - write_steps. destruct (all_data a) eqn:E; [done|]. rewrite <- E. write_steps.
  - reflexivity.
  - intros w. reflexivity.
Qed.


Lemma find_largest_temperature_range_writes a :
  all_data a ≠ [] →
  writes "largest_temp_range_station.txt" find_largest_temperature_range a
    (Ok (stations_with_max_range (all_data a)))
    [MCalcRanges; MRangesSaved]
    (λ _, Some (range_report (stations_with_max_range (all_data a)))).
Proof.
  intros Hd. unfold find_largest_temperature_range.
  eapply writes_eq.
  - write_steps. destruct (all_data a) eqn:E; [done|]. rewrite <- E. write_steps.
  - reflexivity.
  - intros w. reflexivity.
Qed.

Lemma analyze_temperature_stability_writes a :
  all_data a ≠ [] → station_std (all_data a) ≠ [] →
  writes "temperature_stability_stations.txt" analyze_temperature_stability a
    (Ok (Some (most_stable (all_data a)), Some (most_variable (all_data a))))
    [MAnalyzing; MStabilitySaved]
    (λ _, Some (stability_report (most_stable (all_data a))
                                 (most_variable (all_data a)))).
Proof.
  intros Hd Hs. unfold analyze_temperature_stability.
  eapply writes_eq.
  - write_steps. destruct (all_data a) eqn:E; [done|]. rewrite <- E in Hs |- *.
    destruct (station_std (all_data a)) eqn:E'; [done|]. write_steps.
  - reflexivity.
  - intros w. unfold stability_report. simpl. by rewrite <- !app_assoc.
Qed.

Lemma analyze_temperature_stability_skips a :
  all_data a ≠ [] → station_std (all_data a) = [] →
  writes "temperature_stability_stations.txt" analyze_temperature_stability a
    (Ok (None, None)) [MAnalyzing; MWarnNoStability] id.
Proof.
  intros Hd Hs. unfold analyze_temperature_stability.
  eapply writes_eq.
  - write_steps. destruct (all_data a) eqn:E; [done|]. rewrite <- E in Hs |- *.
    rewrite Hs. write_steps.
  - reflexivity.
  - intros w. reflexivity.
Qed.

(** On the column-less table of a new analyzer the three analyses fail on
    their first access to a column, before any file is opened. *)
Lemma calculate_seasonal_averages_empty a :
  all_data a = [] →
  writes "average_temp.txt" calculate_seasonal_averages a
    (Raise (KeyError "Season")) [MCalcSeasonal] id.
Proof.
  intros Hd. unfold calculate_seasonal_averages.
  eapply writes_eq.
  - write_steps. rewrite Hd. write_steps.
  - reflexivity.
  - intros w. reflexivity.
Qed.

Lemma find_largest_temperature_range_empty a :
  all_data a = [] →
  writes "largest_temp_range_station.txt" find_largest_temperature_range a
    (Raise (KeyError "Station")) [MCalcRanges] id.
Proof.
  intros Hd. unfold find_largest_temperature_range.
  eapply writes_eq.
  - write_steps. rewrite Hd. write_steps.
  - reflexivity.
  - intros w. reflexivity.
Qed.

Lemma analyze_temperature_stability_empty a :
  all_data a = [] →
  writes "temperature_stability_stations.txt" analyze_temperature_stability a
    (Raise (KeyError "Station")) [MAnalyzing] id.
Proof.
  intros Hd. unfold analyze_temperature_stability.
  eapply writes_eq.
  - write_steps. rewrite Hd. write_steps.
  - reflexivity.
  - intros w. reflexivity.
Qed.

Lemma generate_summary_report_empty a :
  all_data a = [] →
  writes "analysis_summary.txt" generate_summary_report a
    (Raise (KeyError "Year")) [MGenerating] (λ _, Some summary_title).
Proof.
  intros Hd. unfold generate_summary_report.
  eapply writes_eq.
  - write_steps. rewrite Hd. write_steps.
  - reflexivity.
  - intros w. reflexivity.
Qed.


Lemma filter_month (d : list (long_record F)) (m : string) :
  filter (λ r : long_record F, month_key r = Some m) d = filter (λ r, Month r = m) d.
Proof.
  apply list_filter_iff. intros r. unfold month_key. split; [by intros [= ->]|by intros ->].
Qed.

Lemma month_lines_means (d : list (long_record F)) :
  (λ mt, SumMonth mt.1 mt.2) <$> reindex month_columns (group_means month_key d)
  = (λ month, SumMonth month (mean (temps_of_month d month))) <$> month_columns.
Proof.
  unfold reindex. rewrite <- list_fmap_compose. apply list_fmap_ext.
  intros i m _. simpl. f_equal. unfold temps_of_month.
  by rewrite group_means_get, filter_month.
Qed.

Lemma generate_summary_report_writes a stations :
  all_data a ≠ [] →
  py_sorted (unique (Station <$> all_data a)) = Ok stations →
  writes "analysis_summary.txt" generate_summary_report a
    (Ok tt) [MGenerating; MSummarySaved]
    (λ _, Some (summary_head (all_data a) ++ station_lines stations)).
Proof.
  intros Hd Hs. unfold generate_summary_report.
  eapply writes_eq.
  - write_steps. destruct (all_data a) eqn:E; [done|]. rewrite <- E in Hs |- *.
    cbv zeta. rewrite Hs. write_steps.
  - reflexivity.
  - intros w. unfold summary_head, summary_title, station_lines.
    rewrite month_lines_means.
    generalize ((λ month, SumMonth month (mean (temps_of_month (all_data a) month)))
                  <$> month_columns).
    intros months. simpl. by rewrite <- !app_assoc.
Qed.

Lemma generate_summary_report_fails a e :
  all_data a ≠ [] →
  py_sorted (unique (Station <$> all_data a)) = Raise e →
  writes "analysis_summary.txt" generate_summary_report a
    (Raise e) [MGenerating]
    (λ _, Some (summary_head (all_data a))).
Proof.
  intros Hd Hs. unfold generate_summary_report.
  eapply writes_eq.
  - write_steps. destruct (all_data a) eqn:E; [done|]. rewrite <- E in Hs |- *.
    cbv zeta. rewrite Hs. write_steps.
  - reflexivity.
  - intros w. unfold summary_head, summary_title.
    rewrite month_lines_means.
    generalize ((λ month, SumMonth month (mean (temps_of_month (all_data a) month)))
                  <$> month_columns).
    intros months. simpl. by rewrite <- !app_assoc.
Qed.

End MethodWrites.

(** ** The reports *)

Section Reports.

Context {F : Type} {AF : Arith F}.

Lemma writes_state {A} name (m : M A) (st : state F) r ms g :
  writes name m (self st) r ms g →
  (m st).1 = r ∧ self (m st).2 = self st ∧ disk (m st).2 = disk st ∧
  console (m st).2 = console st ++ ms ∧
  outputs (m st).2 !! name = g (outputs st !! name) ∧
  ∀ n, n ≠ name → outputs (m st).2 !! n = outputs st !! n.
Proof.
  intros H. destruct (H st eq_refl) as (o & -> & L & S). simpl.
  repeat (split; [done|]). intros n Hn. apply S. by intros ->%list_elem_of_singleton.
Qed.

Lemma writes_nothing {A} name (m : M A) (st : state F) r ms :
  writes name m (self st) r ms id → outputs (m st).2 = outputs st.
Proof.
  intros H. apply writes_state in H as (_ & _ & _ & _ & L & S).
  apply map_eq. intros n. destruct (decide (n = name)) as [->|Hn]; [done|by apply S].
Qed.

Lemma last_snoc2 {A} (l : list A) (x y : A) : last (l ++ [x; y]) = Some y.
Proof.
  replace (l ++ [x; y]) with ((l ++ [x]) ++ [y]) by by rewrite <- app_assoc.
  apply last_snoc.
Qed.

(** X12.  On a table with records [calculate_seasonal_averages] returns a
    series labelled Summer, Autumn, Winter, Spring in this order and leaves
    [average_temp.txt] with exactly six lines: the title, the rule, and one
    line per season with the returned value.  What the file held before is
    gone. *)
Theorem X12_seasonal_report st :
  all_data (self st) ≠ [] →
  ∃ seasonal_avg,
    (calculate_seasonal_averages st).1 = Ok seasonal_avg ∧
    fst <$> seasonal_avg = season_order ∧
    outputs (calculate_seasonal_averages st).2 !! "average_temp.txt"
    = Some (seasonal_report seasonal_avg) ∧
    length (seasonal_report seasonal_avg) = 6%nat.
Proof.
  intros Hd.
  destruct (writes_state _ _ st _ _ _ (calculate_seasonal_averages_writes (self st) Hd))
    as (Hr & _ & _ & _ & L & _).
  eexists. split; [exact Hr|]. split; [apply reindex_labels|]. split; [exact L|].
  unfold seasonal_report. rewrite length_app, length_fmap.
  rewrite <- (length_fmap fst), reindex_labels. done.
Qed.

(** X14.  On a table with records [find_largest_temperature_range] leaves
    [largest_temp_range_station.txt] with the title, the rule and one line
    for every row of the frame it returns, in the order of the frame. *)
Theorem X14_range_report st :
  all_data (self st) ≠ [] →
  ∃ result,
    (find_largest_temperature_range st).1 = Ok result ∧
    outputs (find_largest_temperature_range st).2 !! "largest_temp_range_station.txt"
    = Some (range_report result) ∧
    length (range_report result) = (2 + length result)%nat.
Proof.
  intros Hd.
  destruct (writes_state _ _ st _ _ _ (find_largest_temperature_range_writes (self st) Hd))
    as (Hr & _ & _ & _ & L & _).
  eexists. split; [exact Hr|]. split; [exact L|].
  unfold range_report. by rewrite length_app, length_fmap.
Qed.

(** X17.  When [analyze_temperature_stability] returns [(None, None)] it
    has written nothing, every file is as before, and the last line on the
    console is the warning.  When it returns two frames,
    [temperature_stability_stations.txt] holds the title, the rule, the
    heading and lines of the first frame, then the heading and lines of the
    second. *)
Theorem X17_stability_report st :
  ((analyze_temperature_stability st).1 = Ok (None, None) →
   outputs (analyze_temperature_stability st).2 = outputs st ∧
   last (console (analyze_temperature_stability st).2) = Some MWarnNoStability) ∧
  (∀ stable variable,
     (analyze_temperature_stability st).1 = Ok (Some stable, Some variable) →
     outputs (analyze_temperature_stability st).2 !! "temperature_stability_stations.txt"
     = Some (stability_report stable variable)).
Proof.
  rewrite analyze_temperature_stability_result.
  destruct (all_data (self st)) as [|r0 d0] eqn:E; [done|].
  assert (Hd : all_data (self st) ≠ []) by by rewrite E.
  rewrite <- E. clear E r0 d0. cbv zeta.
  destruct (station_std (all_data (self st))) as [|p ps] eqn:E.
  - split; [|done]. intros _.
    pose proof (analyze_temperature_stability_skips (self st) Hd E) as H.
    split; [by eapply writes_nothing|].
    apply writes_state in H as (_ & _ & _ & -> & _).
    apply last_snoc2.
  - split; [done|]. intros stable variable [= <- <-].
    assert (Hs : station_std (all_data (self st)) ≠ []) by by rewrite E.
    by destruct (writes_state _ _ st _ _ _
                   (analyze_temperature_stability_writes (self st) Hd Hs))
      as (_ & _ & _ & _ & L & _).
Qed.

(** X18.  On the column-less table of an analyzer that has loaded nothing
    the three analyses raise [KeyError] before they open their file, so
    every written file is as before; [generate_summary_report] raises
    [KeyError] too, but only after it has opened its file: it leaves
    [analysis_summary.txt] with the two title lines and nothing else. *)
Theorem X18_empty_table st :
  all_data (self st) = [] →
  ((calculate_seasonal_averages st).1 = Raise (KeyError "Season") ∧
   outputs (calculate_seasonal_averages st).2 = outputs st) ∧
  ((find_largest_temperature_range st).1 = Raise (KeyError "Station") ∧
   outputs (find_largest_temperature_range st).2 = outputs st) ∧
  ((analyze_temperature_stability st).1 = Raise (KeyError "Station") ∧
   outputs (analyze_temperature_stability st).2 = outputs st) ∧
  ((generate_summary_report st).1 = Raise (KeyError "Year") ∧
   outputs (generate_summary_report st).2 !! "analysis_summary.txt"
   = Some summary_title).
Proof.
  intros Hd.
  pose proof (calculate_seasonal_averages_empty (self st) Hd) as H1.
  pose proof (find_largest_temperature_range_empty (self st) Hd) as H2.
  pose proof (analyze_temperature_stability_empty (self st) Hd) as H3.
  pose proof (generate_summary_report_empty (self st) Hd) as H4.
  repeat split.
  - by apply writes_state in H1 as [? _].
  - by eapply writes_nothing.
  - by apply writes_state in H2 as [? _].
  - by eapply writes_nothing.
  - by apply writes_state in H3 as [? _].
  - by eapply writes_nothing.
  - by apply writes_state in H4 as [? _].
  - by apply writes_state in H4 as (_ & _ & _ & _ & ? & _).
Qed.

Lemma py_sorted_Raise (cs : list (cell F)) e :
  py_sorted cs = Raise e ↔ e = TypeError ∧ mixed_names cs.
Proof.
  unfold py_sorted, mixed_names.
  destruct (existsb is_text cs) eqn:E1; destruct (existsb (λ c, negb (is_text c)) cs) eqn:E2;
    simpl.
  - apply existsb_exists in E1 as (c1 & H1 & T1).
    apply existsb_exists in E2 as (c2 & H2 & T2).
    apply list_elem_of_In in H1, H2. apply negb_true_iff in T2.
    split; [intros [= <-]|intros [-> _]; done].
    split; [done|]. split; [by exists c1|by exists c2].
  - split; [done|]. intros [_ [_ (c & Hc & Tc)]]. exfalso.
    assert (existsb (λ c, negb (is_text c)) cs = true); [|congruence].
    apply existsb_exists. exists c. split; [by apply list_elem_of_In|by rewrite Tc].
  - split; [done|]. intros [_ [(c & Hc & Tc) _]]. exfalso.
    assert (existsb is_text cs = true); [|congruence].
    apply existsb_exists. exists c. split; [by apply list_elem_of_In|done].
  - split; [done|]. intros [_ [(c & Hc & Tc) _]]. exfalso.
    assert (existsb is_text cs = true); [|congruence].
    apply existsb_exists. exists c. split; [by apply list_elem_of_In|done].
Qed.

Lemma py_sorted_Ok (cs stations : list (cell F)) :
  py_sorted cs = Ok stations → stations ≡ₚ cs.
Proof.
  unfold py_sorted. destruct (_ && _); [done|]. intros [= <-].
  apply merge_sort_Permutation.
Qed.

Lemma mixed_names_unique (cs : list (cell F)) :
  mixed_names (unique cs) ↔ mixed_names cs.
Proof.
  unfold mixed_names, unique.
  split; intros [(c1 & H1 & T1) (c2 & H2 & T2)];
    (split; [exists c1|exists c2]); split; try done;
    by apply elem_of_remove_dups.
Qed.

(** X19.  On a table with records [generate_summary_report] fails exactly
    when the station names mix text with a number or NaN.  It then raises
    [TypeError], prints nothing after its first line, and leaves the report
    cut off after the heading of the station list.  Otherwise it returns
    normally, its last printed line says that the report is saved, and the
    report ends with the numbered list of the distinct station names. *)
Theorem X19_summary_report st :
  all_data (self st) ≠ [] →
  let d := all_data (self st) in
  let st' := (generate_summary_report st).2 in
  (mixed_names (Station <$> d) →
   (generate_summary_report st).1 = Raise TypeError ∧
   outputs st' !! "analysis_summary.txt" = Some (summary_head d) ∧
   last (console st') = Some MGenerating) ∧
  (¬ mixed_names (Station <$> d) →
   (generate_summary_report st).1 = Ok tt ∧
   last (console st') = Some MSummarySaved ∧
   ∃ stations,
     stations ≡ₚ unique (Station <$> d) ∧
     outputs st' !! "analysis_summary.txt"
     = Some (summary_head d ++ station_lines stations)).
Proof.
  intros Hd d st'. subst d st'.
  destruct (py_sorted (unique (Station <$> all_data (self st)))) as [stations|e] eqn:E.
  - pose proof (generate_summary_report_writes (self st) stations Hd E) as H.
    apply writes_state in H as (Hr & _ & _ & Hc & L & _).
    split.
    + intros Hmix. apply (proj2 (mixed_names_unique _)) in Hmix.
      assert (py_sorted (unique (Station <$> all_data (self st))) = Raise TypeError)
        as E' by by apply py_sorted_Raise.
      congruence.
    + intros _. split; [done|]. split.
      { rewrite Hc. apply last_snoc2. }
      exists stations. split; [by apply py_sorted_Ok|done].
  - pose proof (generate_summary_report_fails (self st) e Hd E) as H.
    apply writes_state in H as (Hr & _ & _ & Hc & L & _).
    apply py_sorted_Raise in E as [-> Hmix]. apply (proj1 (mixed_names_unique _)) in Hmix.
    split; [|intros Hn; by destruct (Hn Hmix)]. intros _. split; [done|]. split; [done|].
    rewrite Hc. apply last_snoc.
Qed.

End Reports.

(** ** A whole run *)

Section Run.

Context {F : Type} {AF : Arith F}.

Lemma generate_summary_report_any a :
  all_data a ≠ [] →
  ∃ r ms, writes "analysis_summary.txt" generate_summary_report a r ms
            (λ _, Some (summary_head (all_data a) ++ station_list (all_data a))).
Proof.
  intros Hd. unfold station_list.
  destruct (py_sorted (unique (Station <$> all_data a))) as [stations|e] eqn:E.
  - eexists _, _. by apply generate_summary_report_writes.
  - eexists _, _. eapply writes_eq; [by apply generate_summary_report_fails|done|].
    intros w. cbv beta iota. by rewrite app_nil_r.
Qed.

Lemma analyze_temperature_stability_any a :
  all_data a ≠ [] →
  ∃ r ms, writes "temperature_stability_stations.txt" analyze_temperature_stability a
            (Ok r) ms
            (λ w, match station_std (all_data a) with
                  | [] => w
                  | _ => Some (stability_report (most_stable (all_data a))
                                                (most_variable (all_data a)))
                  end).
Proof.
  intros Hd. destruct (station_std (all_data a)) as [|p ps] eqn:E.
  - eexists _, _. by apply analyze_temperature_stability_skips.
  - eexists _, _. eapply writes_eq;
      [apply analyze_temperature_stability_writes; [done|by rewrite E]|done|done].
Qed.

Lemma preview_writes name (seasonal_averages : list (string * option F))
    (temp_ranges : list (range_row F)) stability a :
  ∃ ms, writes name
    (print MComplete;;
     print_all ((λ st, MPreviewSeason st.1 st.2) <$> seasonal_averages);;
     print MPreviewRangeHeader;;
     print_all ((λ r, MPreviewRange (rr_station r) (rr_range r)) <$> temp_ranges);;
     match stability with
     | (Some stable_stations, Some variable_stations) =>
         print MPreviewStableHeader;;
         print_all ((λ r, MPreviewStable r.1 r.2) <$> stable_stations);;
         print MPreviewVariableHeader;;
         print_all ((λ r, MPreviewVariable r.1 r.2) <$> variable_stations)
     | _ => mret tt
     end) a (Ok tt) ms id.
Proof.
  destruct stability as [[stable|] [variable|]]; eexists;
    (eapply writes_eq; [write_steps|reflexivity|done]).
Qed.

Lemma analyses_and_reports_outputs st :
  all_data (self st) ≠ [] →
  let d := all_data (self st) in
  let o := outputs (analyses_and_reports st).2 in
  o !! "average_temp.txt"
  = Some (seasonal_report (reindex season_order (group_means season_key d))) ∧
  o !! "largest_temp_range_station.txt"
  = Some (range_report (stations_with_max_range d)) ∧
  o !! "temperature_stability_stations.txt"
  = match station_std d with
    | [] => outputs st !! "temperature_stability_stations.txt"
    | _ => Some (stability_report (most_stable d) (most_variable d))
    end ∧
  o !! "analysis_summary.txt" = Some (summary_head d ++ station_list d) ∧
  ∀ n, n ∉ report_files → o !! n = outputs st !! n.
Proof.
  intros Hd d o. subst d o. set (a := self st).
  pose proof (calculate_seasonal_averages_writes a Hd) as H1.
  pose proof (find_largest_temperature_range_writes a Hd) as H2.
  destruct (analyze_temperature_stability_any a Hd) as (r3 & ms3 & H3).
  destruct (generate_summary_report_any a Hd) as (r4 & ms4 & H4).
  remember (analyses_and_reports st) as final eqn:Hrun.
  unfold analyses_and_reports in Hrun. rewrite bind_run in Hrun.
  destruct (H1 st eq_refl) as (o1 & E1 & L1 & S1).
  rewrite E1, bind_run in Hrun.
  match type of Hrun with context [find_largest_temperature_range ?s] =>
    destruct (H2 s eq_refl) as (o2 & E2 & L2 & S2) end.
  rewrite E2, bind_run in Hrun.
  match type of Hrun with context [analyze_temperature_stability ?s] =>
    destruct (H3 s eq_refl) as (o3 & E3 & L3 & S3) end.
  rewrite E3, bind_run in Hrun.
  match type of Hrun with context [generate_summary_report ?s] =>
    destruct (H4 s eq_refl) as (o4 & E4 & L4 & S4) end.
  rewrite E4 in Hrun. clear E1 E2 E3 E4.
  cbn [outputs console disk self] in *.
  assert (outputs final.2 = o4) as ->.
  { rewrite Hrun. destruct r4 as [[]|e]; [|done].
    destruct (preview_writes "analysis_summary.txt"
                (reindex season_order (group_means season_key (all_data a)))
                (stations_with_max_range (all_data a)) r3 a) as [ms5 H5].
    match goal with |- outputs (?m ?s).2 = _ =>
      exact (writes_nothing _ m s _ _ H5) end. }
  clear Hrun. split_and!.
  - rewrite S4, S3, S2 by (by intros ?%list_elem_of_singleton). exact L1.
  - rewrite S4, S3 by (by intros ?%list_elem_of_singleton). exact L2.
  - rewrite S4 by (by intros ?%list_elem_of_singleton). rewrite L3.
    destruct (station_std (all_data a)); [|done].
    by rewrite S2, S1 by (by intros ?%list_elem_of_singleton).
  - exact L4.
  - intros n Hn. unfold report_files in Hn.
    rewrite S4, S3, S2, S1; [done|..]; intros ->%list_elem_of_singleton; apply Hn;
      repeat constructor.
Qed.

Lemma run_complete_analysis_outputs st :
  match load_all_data (with_console st (console st ++ [MStarting])) with
  | (Ok _, st1) =>
      outputs (run_complete_analysis st).2 = outputs (analyses_and_reports st1).2
  | (Raise _, _) => outputs (run_complete_analysis st).2 = outputs st
  end.
Proof.
  unfold run_complete_analysis. rewrite bind_run.
  change (print MStarting st) with (Ok tt, with_console st (console st ++ [MStarting])).
  cbv beta iota. unfold try_except. rewrite bind_run.
  destruct (load_all_data _) as [[[]|e] st1] eqn:Hload.
  - by destruct (analyses_and_reports st1) as [[[]|e] st2].
  - simpl. by apply load_all_data_Raise in Hload as (_ & _ & -> & _).
Qed.

(** X21.  After a run whose load succeeds, [average_temp.txt] and
    [largest_temp_range_station.txt] hold the reports of the loaded table;
    [temperature_stability_stations.txt] holds the stability report when
    some station has a standard deviation and is what it was before the run
    otherwise; [analysis_summary.txt] holds the summary, without station
    lines when the station names cannot be sorted; no other file is
    touched. *)
Theorem X21_run_reports st :
  (load_all_data st).1 = Ok tt →
  let d := all_data (self (load_all_data st).2) in
  let o := outputs (run_complete_analysis st).2 in
  o !! "average_temp.txt"
  = Some (seasonal_report (reindex season_order (group_means season_key d))) ∧
  o !! "largest_temp_range_station.txt"
  = Some (range_report (stations_with_max_range d)) ∧
  o !! "temperature_stability_stations.txt"
  = match station_std d with
    | [] => outputs st !! "temperature_stability_stations.txt"
    | _ => Some (stability_report (most_stable d) (most_variable d))
    end ∧
  o !! "analysis_summary.txt" = Some (summary_head d ++ station_list d) ∧
  ∀ n, n ∉ report_files → o !! n = outputs st !! n.
Proof.
  intros Hload d o. subst d o.
  pose proof (run_complete_analysis_outputs st) as Hrun.
  destruct (load_all_data_console st (console st ++ [MStarting])) as [Hres Hself].
  rewrite Hload in Hres. rewrite <- Hself.
  destruct (load_all_data (with_console st _)) as [[[]|e] st1] eqn:E; [|done].
  simpl in *. rewrite Hrun.
  apply load_all_data_Ok in E as (_ & Hne & _ & _ & _ & Ho & _).
  simpl in Ho. rewrite <- Ho. by apply analyses_and_reports_outputs.
Qed.

(** X22.  When the load raises, [run_complete_analysis] writes no file and
    leaves the analyzer and the folder as they were. *)
Theorem X22_failed_load_writes_nothing st e :
  (load_all_data st).1 = Raise e →
  outputs (run_complete_analysis st).2 = outputs st ∧
  disk (run_complete_analysis st).2 = disk st ∧
  self (run_complete_analysis st).2 = self st.
Proof.
  intros Hload.
  pose proof (run_complete_analysis_outputs st) as Hrun.
  destruct (run_complete_analysis_run st) as (st' & Erun & Hst').
  destruct (load_all_data_console st (console st ++ [MStarting])) as [Hres _].
  rewrite Hload in Hres.
  destruct (load_all_data (with_console st _)) as [[[]|e'] st1] eqn:E; [done|].
  split; [done|]. rewrite Erun. simpl. subst st'. simpl.
  by apply load_all_data_Raise in E as (-> & -> & _).
Qed.

(** X23.  Without a [temperatures] folder, or with one that holds no CSV
    file, [main] returns normally, writes no file and prints three items:
    the banner, the loading line and the error message of the
    [FileNotFoundError]. *)
Theorem X23_main_without_data dk :
  default [] (dk !! "temperatures") = [] →
  main dk
  = (Ok tt, {| self := init "temperatures"; disk := dk; outputs := ∅;
               console := [MStarting; MLoading "temperatures";
                           MErrorAnalysis (FileNotFoundError "temperatures")] |}).
Proof.
  intros Hdk. unfold main, run_complete_analysis, fresh. rewrite bind_run.
  change (print MStarting ?s) with (Ok tt, with_console s (console s ++ [MStarting])).
  cbv beta iota. unfold try_except. rewrite bind_run.
  match goal with |- context [load_all_data ?s] =>
    destruct (load_all_data_run s) as [[_ E]|[(Hg & _)|(Hg & _)]] end.
  - rewrite E. reflexivity.
  - by destruct Hg.
  - by destruct Hg.
Qed.

End Run.

(** ** The summary: months, years, stations *)

Section Summary.

Context {F : Type} {AF : Arith F}.

Lemma omap_imap_None {A B C} (g : B → option C) (f : nat → A → B) (l : list A) :
  (∀ i x, g (f i x) = None) → omap g (imap f l) = [].
Proof.
  revert f. induction l as [|x l IH]; intros f H; simpl; [done|].
  rewrite H. apply IH. intros i y. apply H.
Qed.

Lemma temps_of_month_nil (d : list (long_record F)) m :
  temps_of_month d m = [] ↔ ∀ r, r ∈ d → Month r ≠ m.
Proof.
  unfold temps_of_month. split.
  - intros H%fmap_nil_inv r Hr Hm.
    assert (r ∈ filter (λ r, Month r = m) d) as Hin by by apply list_elem_of_filter.
    rewrite H in Hin. by apply elem_of_nil in Hin.
  - intros H. destruct (filter _ d) as [|r rs] eqn:E; [done|].
    assert (r ∈ filter (λ r, Month r = m) d) as Hin by (rewrite E; by left).
    apply list_elem_of_filter in Hin as [Hm Hr]. by destruct (H r Hr).
Qed.

(** X20.  Whether or not the station list can be written, the monthly lines
    of [analysis_summary.txt] are the twelve months in calendar order, each
    with the mean of the month: the arithmetic mean of the temperatures that
    are not NaN of the records of that month, stations and years pooled, and
    NaN for a month with no such temperature, so also for a month without a
    record. *)
Theorem X20_summary_months st :
  all_data (self st) ≠ [] →
  let d := all_data (self st) in
  ∃ ls,
    outputs (generate_summary_report st).2 !! "analysis_summary.txt" = Some ls ∧
    omap month_line ls = (λ m, (m, mean (temps_of_month d m))) <$> month_columns ∧
    (∀ m, dropna (temps_of_month d m) ≠ [] →
          mean (temps_of_month d m)
          = not_nan (arithmetic_mean (dropna (temps_of_month d m)))) ∧
    (∀ m, dropna (temps_of_month d m) = [] → mean (temps_of_month d m) = None) ∧
    (∀ m, (∀ r, r ∈ d → Month r ≠ m) → mean (temps_of_month d m) = None).
Proof.
  intros Hd d. subst d.
  destruct (generate_summary_report_any (self st) Hd) as (r & ms & H).
  apply writes_state in H as (_ & _ & _ & _ & L & _).
  eexists. split; [exact L|]. split_and!.
  - rewrite omap_app. unfold station_list.
    assert (omap month_line
              match py_sorted (unique (Station <$> all_data (self st))) with
              | Ok stations => station_lines stations
              | Raise _ => []
              end = []) as ->.
    { destruct (py_sorted _); [|done]. by apply omap_imap_None. }
    rewrite app_nil_r. reflexivity.
  - intros m. apply mean_arithmetic.
  - intros m. apply mean_no_number.
  - intros m Hm%temps_of_month_nil. apply mean_no_number. by rewrite Hm.
Qed.

(** The lines [load_all_data] ends with. *)
Lemma load_all_data_lines st st' :
  load_all_data st = (Ok tt, st') →
  ∃ ms,
    console st'
    = console st ++ ms
      ++ [MLoadComplete;
          MTotalRecords (length (all_data (self st')));
          MUniqueStations (nunique_stations (all_data (self st')));
          MYearsCovered (merge_sort Z.le (unique (Year <$> all_data (self st'))));
          MTempRange (fmin_list (Temperature <$> all_data (self st')))
                     (fmax_list (Temperature <$> all_data (self st')));
          MSample (take 10 (all_data (self st')))].
Proof.
  unfold load_all_data. run_step.
  change (glob {| self := self st; disk := disk st; outputs := outputs st;
                  console := console st ++ [MLoading (data_folder (self st))] |})
    with (glob st).
  destruct (glob st) as [|f0 files] eqn:Hglob; [done|].
  destruct (for_files_run (f0 :: files) []
              {| self := self st; disk := disk st; outputs := outputs st;
                 console := console st ++ [MLoading (data_folder (self st))] |})
    as (ms & Hrun & Hev).
  rewrite Hrun. rewrite app_nil_l.
  unfold with_console. cbn [self disk outputs console].
  destruct (_ ≫= _) as [|fr frs] eqn:Hfr; [done|].
  rewrite <- Hfr. simpl. intros [= <-]. simpl.
  exists (MLoading (data_folder (self st)) :: ms).
  by rewrite <- !app_assoc.
Qed.

Lemma summary_head_lines (d : list (long_record F)) :
  SumPeriod (zmin_list (Year <$> d)) (zmax_list (Year <$> d)) ∈ summary_head d ∧
  SumStations (nunique_stations d) ∈ summary_head d ∧
  SumYears (merge_sort Z.le (unique (Year <$> d))) ∈ summary_head d.
Proof.
  unfold summary_head. split_and!;
    (apply elem_of_app; right; apply elem_of_app; left).
  - by left.
  - do 2 right. by left.
  - do 3 right. by left.
Qed.

Lemma foldl_min_elem (x : Z) (rest : list Z) :
  foldl Z.min x rest ∈ x :: rest ∧ ∀ y, y ∈ x :: rest → foldl Z.min x rest ≤ y.
Proof.
  revert x. induction rest as [|z rest IH]; intros x; simpl.
  - split; [by left|]. intros y ->%list_elem_of_singleton. lia.
  - destruct (IH (Z.min x z)) as [Hin Hlb]. split.
    + apply elem_of_cons in Hin as [->|Hin]; [|by do 2 right].
      destruct (Z.min_spec x z) as [[_ ->]|[_ ->]]; [by left|by right; left].
    + intros y Hy.
      assert (foldl Z.min (Z.min x z) rest ≤ Z.min x z) by (apply Hlb; by left).
      apply elem_of_cons in Hy as [->|Hy]; [lia|].
      apply elem_of_cons in Hy as [->|Hy]; [lia|].
      apply Hlb. by right.
Qed.

Lemma foldl_max_elem (x : Z) (rest : list Z) :
  foldl Z.max x rest ∈ x :: rest ∧ ∀ y, y ∈ x :: rest → y ≤ foldl Z.max x rest.
Proof.
  revert x. induction rest as [|z rest IH]; intros x; simpl.
  - split; [by left|]. intros y ->%list_elem_of_singleton. lia.
  - destruct (IH (Z.max x z)) as [Hin Hub]. split.
    + apply elem_of_cons in Hin as [->|Hin]; [|by do 2 right].
      destruct (Z.max_spec x z) as [[_ ->]|[_ ->]]; [by right; left|by left].
    + intros y Hy.
      assert (Z.max x z ≤ foldl Z.max (Z.max x z) rest) by (apply Hub; by left).
      apply elem_of_cons in Hy as [->|Hy]; [lia|].
      apply elem_of_cons in Hy as [->|Hy]; [lia|].
      apply Hub. by right.
Qed.

Lemma Sorted_le_lt (l : list Z) : StronglySorted Z.le l → NoDup l → Sorted Z.lt l.
Proof.
  induction 1 as [|x l Hl IH Hx]; intros Hnd; [constructor|].
  apply NoDup_cons in Hnd as [Hnin Hnd]. constructor; [by apply IH|].
  destruct l as [|y l]; constructor.
  apply Forall_cons in Hx as [Hxy _].
  assert (x ≠ y) by (intros ->; apply Hnin; by left). lia.
Qed.

Lemma StronglySorted_last (l : list Z) z :
  StronglySorted Z.le l → last l = Some z → ∀ y, y ∈ l → y ≤ z.
Proof.
  induction 1 as [|x l Hl IH Hx]; intros Hlast y Hy; [done|].
  destruct l as [|x' l].
  - simpl in Hlast. injection Hlast as <-. apply list_elem_of_singleton in Hy as ->. lia.
  - rewrite last_cons_cons in Hlast.
    apply elem_of_cons in Hy as [->|Hy]; [|by apply IH].
    assert (z ∈ x' :: l) as Hz by by apply last_Some_elem_of.
    rewrite Forall_forall in Hx. by apply Hx.
Qed.

(** The sorted list of the distinct years of a table, and its two ends. *)
Lemma sorted_years (d : list (long_record F)) :
  let years := merge_sort Z.le (unique (Year <$> d)) in
  Sorted Z.lt years ∧
  (∀ y, y ∈ years ↔ ∃ r, r ∈ d ∧ Year r = y) ∧
  zmin_list (Year <$> d) = head years ∧
  zmax_list (Year <$> d) = last years.
Proof.
  intros years.
  assert (Hperm : years ≡ₚ unique (Year <$> d)) by apply merge_sort_Permutation.
  assert (Hsorted : StronglySorted Z.le years)
    by (apply StronglySorted_merge_sort; apply _).
  assert (Hnd : NoDup years) by (rewrite Hperm; apply NoDup_remove_dups).
  assert (Hin : ∀ y, y ∈ years ↔ y ∈ Year <$> d).
  { intros y. rewrite Hperm. apply elem_of_remove_dups. }
  split; [by apply Sorted_le_lt|]. split.
  { intros y. rewrite Hin, list_elem_of_fmap. split.
    - intros (r & -> & Hr). by exists r.
    - intros (r & Hr & <-). by exists r. }
  destruct (Year <$> d) as [|x rest] eqn:E.
  { assert (years = []) as ->; [|done].
    apply Permutation_nil_r. by rewrite Hperm. }
  unfold zmin_list, zmax_list.
  destruct (foldl_min_elem x rest) as [Hmin Hlb].
  destruct (foldl_max_elem x rest) as [Hmax Hub].
  apply Hin in Hmin, Hmax. split.
  - destruct years as [|y0 ys] eqn:Ey; [by apply elem_of_nil in Hmin|]. simpl.
    f_equal. apply StronglySorted_inv in Hsorted as [_ Hy0].
    rewrite Forall_forall in Hy0.
    assert (foldl Z.min x rest ≤ y0) by (apply Hlb, Hin; by left).
    apply elem_of_cons in Hmin as [->|Hmin]; [done|].
    specialize (Hy0 _ Hmin). lia.
  - destruct (last years) as [z|] eqn:El.
    2:{ apply last_None in El. rewrite El in Hmax. by apply elem_of_nil in Hmax. }
    f_equal.
    assert (z ≤ foldl Z.max x rest) by (by apply Hub, Hin, last_Some_elem_of).
    pose proof (StronglySorted_last years z Hsorted El _ Hmax). lia.
Qed.

(** X10.  After a load that returns normally, the list in the 'Years
    covered' line, the fourth of the six lines the load ends with, is
    strictly increasing and holds exactly the years of the records of the
    table; the summary report of that table has the same list in its 'Years
    Covered' line, and the two ends of its 'Analysis Period' line are the
    first and the last element of the list. *)
Theorem X10_years_covered st st' :
  load_all_data st = (Ok tt, st') →
  let d := all_data (self st') in
  ∃ ms years,
    printed st st'
    = ms ++ [MLoadComplete; MTotalRecords (length d);
             MUniqueStations (nunique_stations d); MYearsCovered years;
             MTempRange (fmin_list (Temperature <$> d)) (fmax_list (Temperature <$> d));
             MSample (take 10 d)] ∧
    Sorted Z.lt years ∧
    (∀ y, y ∈ years ↔ ∃ r, r ∈ d ∧ Year r = y) ∧
    ∃ ls,
      outputs (generate_summary_report st').2 !! "analysis_summary.txt" = Some ls ∧
      SumYears years ∈ ls ∧
      SumPeriod (head years) (last years) ∈ ls.
Proof.
  intros Hload d. subst d.
  destruct (load_all_data_lines st st' Hload) as [ms Hms].
  apply load_all_data_Ok in Hload as (_ & Hne & _).
  destruct (sorted_years (all_data (self st'))) as (Hsorted & Hyears & Hlo & Hhi).
  exists ms, (merge_sort Z.le (unique (Year <$> all_data (self st')))).
  split; [by apply printed_app|]. split; [done|]. split; [done|].
  destruct (generate_summary_report_any (self st') Hne) as (r & ms' & H).
  apply writes_state in H as (_ & _ & _ & _ & L & _).
  eexists. split; [exact L|].
  destruct (summary_head_lines (all_data (self st'))) as (Hp & _ & Hy).
  split; apply elem_of_app; left; [done|]. by rewrite <- Hlo, <- Hhi.
Qed.

Lemma omap_length_le {A B} (g : A → option B) (l : list A) :
  (length (omap g l) ≤ length l)%nat.
Proof.
  induction l as [|x l IH]; [done|].
  change (omap g (x :: l)) with (match g x with Some y => y :: omap g l | None => omap g l end).
  destruct (g x); simpl; lia.
Qed.

Lemma omap_station_key (d : list (long_record F)) :
  omap station_key d = filter (λ c, isna c = false) (Station <$> d).
Proof.
  induction d as [|r d IH]; [done|].
  rewrite fmap_cons, filter_cons, <- IH. simpl. unfold station_key at 1.
  destruct (isna (Station r)); by case_decide.
Qed.

(** X15.  After a load that returns normally, the number in the 'Unique
    stations' line, the third of the six lines the load ends with, is the
    number of rows of the per-station frame the range analysis works on: one
    row for each distinct station name, records without a name not counted.
    The summary report of that table writes the same number as its number of
    weather stations, and the stability analysis keeps at most that many
    stations. *)
Theorem X15_stations_counted st st' :
  load_all_data st = (Ok tt, st') →
  let d := all_data (self st') in
  ∃ ms k,
    printed st st'
    = ms ++ [MLoadComplete; MTotalRecords (length d); MUniqueStations k;
             MYearsCovered (merge_sort Z.le (unique (Year <$> d)));
             MTempRange (fmin_list (Temperature <$> d)) (fmax_list (Temperature <$> d));
             MSample (take 10 d)] ∧
    k = length (station_stats d) ∧
    NoDup (rr_station <$> station_stats d) ∧
    (∀ s, is_station d s ↔ s ∈ rr_station <$> station_stats d) ∧
    (length (station_std d) ≤ k)%nat ∧
    ∃ ls,
      outputs (generate_summary_report st').2 !! "analysis_summary.txt" = Some ls ∧
      SumStations k ∈ ls.
Proof.
  intros Hload d. subst d.
  destruct (load_all_data_lines st st' Hload) as [ms Hms].
  apply load_all_data_Ok in Hload as (_ & Hne & _).
  set (d := all_data (self st')) in *.
  assert (Hgroups : length (groupby station_key d) = nunique_stations d).
  { unfold groupby, nunique_stations. by rewrite length_fmap, omap_station_key. }
  assert (Hlen : nunique_stations d = length (station_stats d)).
  { unfold station_stats. by rewrite length_fmap. }
  exists ms, (nunique_stations d).
  split; [by apply printed_app|]. split; [done|].
  split; [apply station_stats_NoDup|]. split_and!.
  - intros s. rewrite list_elem_of_fmap. split.
    + intros Hs. destruct (station_row d s Hs) as (row & Hrow & <-). by exists row.
    + intros (row & -> & Hrow). by apply station_stats_elem in Hrow as [? _].
  - rewrite <- Hgroups. apply omap_length_le.
  - destruct (generate_summary_report_any (self st') Hne) as (r & ms' & H).
    apply writes_state in H as (_ & _ & _ & _ & L & _).
    eexists. split; [exact L|].
    destruct (summary_head_lines d) as (_ & Hk & _).
    apply elem_of_app. by left.
Qed.

End Summary.

(** ** The properties on the sample data *)

Section SampleChecks.

Import Milli Sample.

Example extract_year_plain :
  extract_year "stations_group_1990.csv" = Some 1990.
Proof. reflexivity. Qed.

Example extract_year_no_number : extract_year "stations.csv" = None.
Proof. reflexivity. Qed.

Example extract_year_signed : extract_year "min_-5.csv" = Some (-5).
Proof. reflexivity. Qed.

Example sample_load :
  (load_all_data st0).1 = Ok tt ∧ length (all_data (self st_loaded)) = 8%nat.
Proof. by vm_compute. Qed.

(** The seasonal average pools the records: it is not the mean of the
    per-station means. *)
Example pooled_mean_is_not_mean_of_means :
  mean (temps_of_season uneven "Summer") = Some 25000 ∧
  mean_of_station_means uneven "Summer" = Some 30000.
Proof. by vm_compute. Qed.

Lemma C1_wide_to_long_witness :
  season_mapping (self st0) = init_season_mapping ∧
  glob st0 ≫= long_form_of_file ≠ [] ∧
  ∃ st', load_all_data st0 = (Ok tt, st') ∧
         all_data (self st') = glob st0 ≫= long_form_of_file.
Proof.
  assert (H1 : season_mapping (self st0) = init_season_mapping) by reflexivity.
  assert (H2 : glob st0 ≫= long_form_of_file ≠ []) by (vm_compute; discriminate).
  split; [exact H1|]. split; [exact H2|].
  exact (proj1 (C1_wide_to_long st0 H1 H2)).
Defined.

Lemma C5_malformed_cells_skipped_witness :
  malformed (row_get row_a "February") ∧
  for_months init_season_mapping 1990 (CStr "ADELAIDE") row_a
    ["February"; "June"]%string []
  = for_months init_season_mapping 1990 (CStr "ADELAIDE") row_a ["June"]%string [].
Proof.
  assert (H : malformed (row_get row_a "February")) by (right; reflexivity).
  split; [exact H|].
  exact (proj1 C5_malformed_cells_skipped init_season_mapping 1990
           (CStr "ADELAIDE") row_a "February"%string ["June"]%string [] H).
Defined.

Lemma C2_seasonal_means_witness :
  all_data (self st_loaded) ≠ [] ∧
  (calculate_seasonal_averages st_loaded).1
  = Ok [("Summer"%string, Some 28416); ("Autumn"%string, None);
        ("Winter"%string, Some 11000); ("Spring"%string, None)].
Proof.
  assert (H : all_data (self st_loaded) ≠ []) by (vm_compute; discriminate).
  split; [exact H|].
  destruct (C2_seasonal_means st_loaded H) as [-> _].
  vm_compute. reflexivity.
Defined.

Lemma C3_largest_range_witness :
  all_data (self st_loaded) ≠ [] ∧
  ∃ result,
    (find_largest_temperature_range st_loaded).1 = Ok result ∧
    rr_station <$> result = [CStr "ADELAIDE"] ∧
    ∀ row, row ∈ result →
      ∃ rg tmax tmin,
        rr_range row = Some rg ∧ rr_max row = Some tmax ∧ rr_min row = Some tmin ∧
        rg = fsub tmax tmin.
Proof.
  assert (H : all_data (self st_loaded) ≠ []) by (vm_compute; discriminate).
  split; [exact H|].
  destruct (C3_largest_range st_loaded H) as (result & Hres & _ & _ & Hrows).
  exists result. split; [exact Hres|]. split.
  - assert (Hrun : (find_largest_temperature_range st_loaded).1
                   = Ok [ {| rr_station := CStr "ADELAIDE"; rr_min := Some 10000;
                             rr_max := Some 30000; rr_range := Some 20000 |} ])
      by (vm_compute; reflexivity).
    rewrite Hrun in Hres. injection Hres as <-. reflexivity.
  - intros row Hrow.
    destruct (Hrows row Hrow) as (rg & tmax & tmin & H1 & H2 & H3 & _ & _ & _ & _ & H4).
    exists rg, tmax, tmin. split; [exact H1|]. split; [exact H2|]. split; [exact H3|].
    exact H4.
Defined.

Lemma C4_stability_witness :
  all_data (self st_loaded) ≠ [] ∧
  (∃ s, is_station (all_data (self st_loaded)) s ∧
        is_Some (sample_std (temps_of_station (all_data (self st_loaded)) s))) ∧
  ∃ stable variable,
    (analyze_temperature_stability st_loaded).1 = Ok (Some stable, Some variable) ∧
    stable = [(CStr "BROOME", 1060)] ∧ variable = [(CStr "ADELAIDE", 9581)].
Proof.
  assert (H : all_data (self st_loaded) ≠ []) by (vm_compute; discriminate).
  assert (H2 : ∃ s, is_station (all_data (self st_loaded)) s ∧
                 is_Some (sample_std (temps_of_station (all_data (self st_loaded)) s))).
  { exists (CStr "ADELAIDE"). split.
    - split; [reflexivity|].
      exists {| Station := CStr "ADELAIDE"; Year := 1990; Month := "January";
                Temperature := 30000; Season := "Summer" |}.
      split; [vm_compute; left|reflexivity].
    - exists 9581. vm_compute. reflexivity. }
  split; [exact H|]. split; [exact H2|].
  destruct (proj1 (proj2 (C4_stability st_loaded H)) H2)
    as (stable & variable & Hres & _).
  exists stable, variable. split; [exact Hres|].
  assert (Hrun : (analyze_temperature_stability st_loaded).1
                 = Ok (Some [(CStr "BROOME", 1060)], Some [(CStr "ADELAIDE", 9581)]))
    by (vm_compute; reflexivity).
  rewrite Hrun in Hres. injection Hres as <- <-. split; reflexivity.
Defined.

Lemma C8_season_of_month_witness :
  season_mapping (self st0) = init_season_mapping ∧
  season_invariant (all_data (self st0)) ∧
  season_invariant (all_data (self (run_complete_analysis st0).2)).
Proof.
  assert (H1 : season_mapping (self st0) = init_season_mapping) by reflexivity.
  assert (H2 : season_invariant (all_data (self st0))).
  { intros r Hr. exfalso. exact (proj1 (elem_of_nil r) Hr). }
  split; [exact H1|]. split; [exact H2|].
  exact (proj2 (proj2 (proj2 (proj2 (proj2 (C8_season_of_month st0 H1 H2)))))).
Defined.

Lemma C9_load_errors_witness :
  season_mapping (self st_empty) = init_season_mapping ∧
  (run_complete_analysis st_empty).1 = Ok tt.
Proof.
  assert (H1 : season_mapping (self st_empty) = init_season_mapping) by reflexivity.
  split; [exact H1|].
  exact (proj2 (proj2 (proj2 (C9_load_errors st_empty H1)))).
Defined.

Lemma C6_pipeline_order_witness :
  (load_all_data st0).1 = Ok tt ∧
  calls (printed st0 (run_complete_analysis st0).2)
  = [LoadAllData; SeasonalAverages; LargestRange; Stability; SummaryReport].
Proof.
  assert (H : (load_all_data st0).1 = Ok tt) by (vm_compute; reflexivity).
  split; [exact H|].
  exact (proj1 (proj1 (C6_pipeline_order st0) H)).
Defined.

Lemma C10_skipped_files_witness :
  extract_year (file_name file_unnamed) = None ∧
  (process_file [] file_unnamed st0).1 = Ok [].
Proof.
  assert (H : extract_year (file_name file_unnamed) = None) by reflexivity.
  split; [exact H|].
  exact (proj1 (C10_skipped_files file_unnamed [] st0) H).
Defined.

(** C6 as first stated fails: on an empty folder the load raises, the
    error is caught, and none of the four later methods is started. *)
Lemma C6_counterexample :
  calls (printed st_empty (run_complete_analysis st_empty).2) = [LoadAllData] ∧
  calls (printed st_empty (run_complete_analysis st_empty).2)
  ≠ [LoadAllData; SeasonalAverages; LargestRange; Stability; SummaryReport].
Proof. split; [by vm_compute|vm_compute; discriminate]. Qed.

(** C10 as first stated fails: with only the [.csv] suffix removed the last
    token of [t_20.csv20.csv] is [20.csv20], which is no integer, yet the
    file is loaded, with year 2020. *)
Lemma C10_counterexample :
  year_of_last_token (file_name file_dotted) = None ∧
  extract_year (file_name file_dotted) = Some 2020 ∧
  (process_file [] file_dotted st_empty).1
  = Ok [long_form 2020 "STATION_NAME" ["January"; "February"; "June"]
          (rows frame_1990)] ∧
  length (long_form 2020 "STATION_NAME" ["January"; "February"; "June"]
            (rows frame_1990)) = 4%nat.
Proof. by vm_compute. Qed.

End SampleChecks.

(** ** NaN and infinite temperatures *)

Section NaNChecks.

Import Extended SampleNaN.

(** C2 as first stated fails: the text cell [NAN] is not missing for
    [pd.isna] and [float] reads it as NaN, so the load stores a record with
    a NaN temperature; the Summer mean that is returned, 30.0, is the mean
    of the other Summer record alone and not the arithmetic mean of the
    temperatures of all Summer records, which is NaN. *)
Lemma C2_counterexample :
  row_get row_nan "January" = CStr "NAN" ∧
  temps_of_season (all_data (self st_nan_loaded)) "Summer" = [NaN; Fin 30000] ∧
  (calculate_seasonal_averages st_nan_loaded).1
  = Ok [("Summer"%string, Some (Fin 30000)); ("Autumn"%string, None);
        ("Winter"%string, None); ("Spring"%string, None)] ∧
  arithmetic_mean (temps_of_season (all_data (self st_nan_loaded)) "Summer") = NaN ∧
  mean (temps_of_season (all_data (self st_nan_loaded)) "Summer")
  ≠ not_nan (arithmetic_mean (temps_of_season (all_data (self st_nan_loaded)) "Summer")).
Proof. split_and!; [by vm_compute..|vm_compute; discriminate]. Qed.

(** C3 as first stated fails: the only station of the table has one
    record, with an infinite temperature; its range, the maximum minus the
    minimum of that record, is the largest there is, yet the frame returned
    is empty, because the difference of the two infinities is NaN and no row
    equals a NaN maximum. *)
Lemma C3_counterexample :
  all_data (self st_inf_loaded)
  = [ {| Station := CStr "DARWIN"; Year := 2000; Month := "January";
         Temperature := PosInf; Season := "Summer" |} ] ∧
  is_station (all_data (self st_inf_loaded)) (CStr "DARWIN") ∧
  station_stats (all_data (self st_inf_loaded))
  = [ {| rr_station := CStr "DARWIN"; rr_min := Some PosInf;
         rr_max := Some PosInf; rr_range := None |} ] ∧
  (find_largest_temperature_range st_inf_loaded).1 = Ok [] ∧
  CStr "DARWIN" ∉ rr_station <$> ([] : list (range_row t)).
Proof.
  split_and!; [by vm_compute| |by vm_compute|by vm_compute|].
  - split; [reflexivity|].
    exists {| Station := CStr "DARWIN"; Year := 2000; Month := "January";
              Temperature := PosInf; Season := "Summer" |}.
    split; [vm_compute; left|reflexivity].
  - apply not_elem_of_nil.
Qed.

(** C4 as first stated fails: the only station of the table has two
    records, one of them with a NaN temperature; its standard deviation is
    NaN, the station is dropped, and the function returns [(None, None)]
    although a station has two records. *)
Lemma C4_counterexample :
  is_station (all_data (self st_nan_loaded)) (CStr "DARWIN") ∧
  temps_of_station (all_data (self st_nan_loaded)) (CStr "DARWIN") = [NaN; Fin 30000] ∧
  (2 ≤ length (temps_of_station (all_data (self st_nan_loaded)) (CStr "DARWIN")))%nat ∧
  sample_std (temps_of_station (all_data (self st_nan_loaded)) (CStr "DARWIN")) = None ∧
  (analyze_temperature_stability st_nan_loaded).1 = Ok (None, None).
Proof.
  split_and!; [|by vm_compute|vm_compute; lia|by vm_compute|by vm_compute].
  split; [reflexivity|].
  exists {| Station := CStr "DARWIN"; Year := 2000; Month := "February";
            Temperature := Fin 30000; Season := "Summer" |}.
  split; [vm_compute; right; left|reflexivity].
Qed.

End NaNChecks.

(** ** The further properties on the sample data *)

Section SampleRuns.

Import Milli Sample.

Lemma X1_year_from_last_token_witness :
  ("_"%char ∉ list_ascii_of_string "1990.csv") ∧
  extract_year ("stations_group" +:+ "_" +:+ "1990.csv")
  = Py.int (Py.replace ".csv" "" "1990.csv").
Proof.
  assert (H : "_"%char ∉ list_ascii_of_string "1990.csv") by compute_done.
  split; [exact H|].
  exact (proj1 (X1_year_from_last_token "stations_group" "1990.csv" H)).
Defined.

Lemma X2_year_of_digit_name_witness :
  [1; 9; 9; 0]%nat ≠ [] ∧
  (length [1; 9; 9; 0]%nat ≤ 4300)%nat ∧
  Forall (λ d, d < 10)%nat [1; 9; 9; 0]%nat ∧
  extract_year ("stations_group" +:+ "_" +:+ digit_string [1; 9; 9; 0]%nat +:+ ".csv")
  = Some (digits_value [1; 9; 9; 0]%nat).
Proof.
  assert (H1 : [1; 9; 9; 0]%nat ≠ []) by discriminate.
  assert (H2 : (length [1; 9; 9; 0]%nat ≤ 4300)%nat) by (simpl; lia).
  assert (H3 : Forall (λ d, d < 10)%nat [1; 9; 9; 0]%nat)
    by (repeat constructor; lia).
  split; [exact H1|]. split; [exact H2|]. split; [exact H3|].
  exact (X2_year_of_digit_name "stations_group" [1; 9; 9; 0]%nat H1 H2 H3).
Defined.

Lemma X3_unreadable_file_skipped_witness :
  extract_year (file_name file_unreadable) = Some 1992 ∧
  read_csv file_unreadable = Raise (OtherError "EmptyDataError") ∧
  process_file [] file_unreadable st0
  = (Ok [], with_console st0
              (console st0 ++ [MProcessing (file_name file_unreadable);
                               MErrorProcessing (file_name file_unreadable)
                                 (OtherError "EmptyDataError")])).
Proof.
  assert (H1 : extract_year (file_name file_unreadable) = Some 1992) by reflexivity.
  assert (H2 : read_csv file_unreadable = Raise (OtherError "EmptyDataError"))
    by reflexivity.
  split; [exact H1|]. split; [exact H2|].
  exact (X3_unreadable_file_skipped file_unreadable [] st0 1992 _ H1 H2).
Defined.

Lemma X4_column_order_irrelevant_witness :
  file_name file_1990 = file_name file_1990_reordered ∧
  read_csv file_1990 = Ok frame_1990 ∧
  read_csv file_1990_reordered = Ok frame_1990_reordered ∧
  rows frame_1990 = rows frame_1990_reordered ∧
  (∀ c, c ∈ columns frame_1990 ↔ c ∈ columns frame_1990_reordered) ∧
  file_records init_season_mapping file_1990
  = file_records init_season_mapping file_1990_reordered.
Proof.
  assert (H1 : file_name file_1990 = file_name file_1990_reordered) by reflexivity.
  assert (H2 : read_csv file_1990 = Ok frame_1990) by reflexivity.
  assert (H3 : read_csv file_1990_reordered = Ok frame_1990_reordered) by reflexivity.
  assert (H4 : rows frame_1990 = rows frame_1990_reordered) by reflexivity.
  assert (H5 : ∀ c, c ∈ columns frame_1990 ↔ c ∈ columns frame_1990_reordered).
  { intros c. simpl. rewrite !elem_of_cons, !elem_of_nil. tauto. }
  split; [exact H1|]. split; [exact H2|]. split; [exact H3|].
  split; [exact H4|]. split; [exact H5|].
  exact (X4_column_order_irrelevant init_season_mapping file_1990 file_1990_reordered
           frame_1990 frame_1990_reordered H1 H2 H3 H4 H5).
Defined.

Lemma X5_row_records_in_calendar_order_witness :
  for_months init_season_mapping 1990 (CStr "ADELAIDE") row_a
    (available_months frame_1990_reordered) []
  = Ok [ {| Station := CStr "ADELAIDE"; Year := 1990; Month := "January";
            Temperature := 30000; Season := "Summer" |};
         {| Station := CStr "ADELAIDE"; Year := 1990; Month := "June";
            Temperature := 10000; Season := "Winter" |} ] ∧
  ["January"; "June"]%string `sublist_of` month_columns.
Proof.
  assert (H : for_months init_season_mapping 1990 (CStr "ADELAIDE") row_a
                (available_months frame_1990_reordered) []
              = Ok [ {| Station := CStr "ADELAIDE"; Year := 1990; Month := "January";
                        Temperature := 30000; Season := "Summer" |};
                     {| Station := CStr "ADELAIDE"; Year := 1990; Month := "June";
                        Temperature := 10000; Season := "Winter" |} ])
    by (vm_compute; reflexivity).
  split; [exact H|].
  exact (proj1 (X5_row_records_in_calendar_order init_season_mapping 1990
                  (CStr "ADELAIDE") row_a frame_1990_reordered _ H)).
Defined.

Lemma X6_missing_season_drops_file_witness :
  extract_year (file_name file_1990) = Some 1990 ∧
  read_csv file_1990 = Ok frame_1990 ∧
  find_station_col frame_1990 = Some "STATION_NAME"%string ∧
  row_a ∈ rows frame_1990 ∧
  "June"%string ∈ available_months frame_1990 ∧
  valid_temperature (row_get row_a "June") = Some 10000 ∧
  season_mapping (self st_no_june) !! "June"%string = None ∧
  (process_file [] file_1990 st_no_june).1 = Ok [].
Proof.
  assert (H1 : extract_year (file_name file_1990) = Some 1990) by reflexivity.
  assert (H2 : read_csv file_1990 = Ok frame_1990) by reflexivity.
  assert (H3 : find_station_col frame_1990 = Some "STATION_NAME"%string)
    by reflexivity.
  assert (H4 : row_a ∈ rows frame_1990) by (simpl; left).
  assert (H5 : "June"%string ∈ available_months frame_1990) by compute_done.
  assert (H6 : valid_temperature (row_get row_a "June") = Some 10000)
    by (vm_compute; reflexivity).
  assert (H7 : season_mapping (self st_no_june) !! "June"%string = None)
    by (vm_compute; reflexivity).
  split; [exact H1|]. split; [exact H2|]. split; [exact H3|]. split; [exact H4|].
  split; [exact H5|]. split; [exact H6|]. split; [exact H7|].
  exact (proj1 (proj2 (X6_missing_season_drops_file file_1990 [] st_no_june 1990
                         "STATION_NAME" frame_1990 row_a "June" 10000
                         H1 H2 H3 H4 H5 H6 H7))).
Defined.

Lemma X7_record_bound_witness :
  load_all_data st0 = (Ok tt, st_loaded) ∧
  (0 < length (all_data (self st_loaded)) ≤ 12 * rows_read (glob st0))%nat.
Proof.
  assert (H : load_all_data st0 = (Ok tt, st_loaded)) by (vm_compute; reflexivity).
  split; [exact H|].
  exact (X7_record_bound st0 st_loaded H).
Defined.

Lemma X8_reload_replaces_witness :
  load_all_data st0 = (Ok tt, st_loaded) ∧
  ∃ st'', load_all_data st_loaded = (Ok tt, st'') ∧ self st'' = self st_loaded ∧
          disk st'' = disk st_loaded ∧ outputs st'' = outputs st_loaded.
Proof.
  assert (H : load_all_data st0 = (Ok tt, st_loaded)) by (vm_compute; reflexivity).
  split; [exact H|].
  exact (X8_reload_replaces st0 st_loaded H).
Defined.

Lemma X10_years_covered_witness :
  load_all_data st0 = (Ok tt, st_loaded) ∧
  ∃ ms years,
    printed st0 st_loaded
    = ms ++ [MLoadComplete; MTotalRecords (length (all_data (self st_loaded)));
             MUniqueStations (nunique_stations (all_data (self st_loaded)));
             MYearsCovered years;
             MTempRange (fmin_list (Temperature <$> all_data (self st_loaded)))
                        (fmax_list (Temperature <$> all_data (self st_loaded)));
             MSample (take 10 (all_data (self st_loaded)))] ∧
    Sorted Z.lt years.
Proof.
  assert (H : load_all_data st0 = (Ok tt, st_loaded)) by (vm_compute; reflexivity).
  split; [exact H|].
  destruct (X10_years_covered st0 st_loaded H) as (ms & years & Hms & Hsorted & _).
  exists ms, years. split; [exact Hms|exact Hsorted].
Defined.

Lemma X11_seasons_partition_witness :
  all_data (self st_loaded) ≠ [] ∧
  season_invariant (all_data (self st_loaded)) ∧
  ∃ seasonal_avg,
    (calculate_seasonal_averages st_loaded).1 = Ok seasonal_avg ∧
    length (all_data (self st_loaded))
    = sum_list ((λ sv, length (temps_of_season (all_data (self st_loaded)) sv.1))
                  <$> seasonal_avg).
Proof.
  assert (H1 : all_data (self st_loaded) ≠ []) by (vm_compute; discriminate).
  assert (H2 : season_invariant (all_data (self st_loaded))).
  { apply (load_all_data_season st0); [reflexivity|].
    intros r Hr. exfalso. exact (proj1 (elem_of_nil r) Hr). }
  split; [exact H1|]. split; [exact H2|].
  destruct (X11_seasons_partition st_loaded H1 H2) as (avg & Havg & _ & _ & _ & Hlen).
  exists avg. split; [exact Havg|exact Hlen].
Defined.

Lemma X12_seasonal_report_witness :
  all_data (self st_loaded) ≠ [] ∧
  ∃ seasonal_avg,
    (calculate_seasonal_averages st_loaded).1 = Ok seasonal_avg ∧
    fst <$> seasonal_avg = season_order ∧
    outputs (calculate_seasonal_averages st_loaded).2 !! "average_temp.txt"
    = Some (seasonal_report seasonal_avg) ∧
    length (seasonal_report seasonal_avg) = 6%nat.
Proof.
  assert (H : all_data (self st_loaded) ≠ []) by (vm_compute; discriminate).
  split; [exact H|].
  exact (X12_seasonal_report st_loaded H).
Defined.

Lemma X13_largest_range_frame_witness :
  (find_largest_temperature_range st_loaded).1
  = Ok [ {| rr_station := CStr "ADELAIDE"; rr_min := Some 10000;
            rr_max := Some 30000; rr_range := Some 20000 |} ] ∧
  NoDup [CStr "ADELAIDE" : cell Z].
Proof.
  assert (H : (find_largest_temperature_range st_loaded).1
              = Ok [ {| rr_station := CStr "ADELAIDE"; rr_min := Some 10000;
                        rr_max := Some 30000; rr_range := Some 20000 |} ])
    by (vm_compute; reflexivity).
  split; [exact H|].
  exact (proj1 (proj2 (proj2 (X13_largest_range_frame st_loaded _ H)))).
Defined.

Lemma X14_range_report_witness :
  all_data (self st_loaded) ≠ [] ∧
  ∃ result,
    (find_largest_temperature_range st_loaded).1 = Ok result ∧
    outputs (find_largest_temperature_range st_loaded).2
      !! "largest_temp_range_station.txt"
    = Some (range_report result) ∧
    length (range_report result) = (2 + length result)%nat.
Proof.
  assert (H : all_data (self st_loaded) ≠ []) by (vm_compute; discriminate).
  split; [exact H|].
  exact (X14_range_report st_loaded H).
Defined.

Lemma X15_stations_counted_witness :
  load_all_data st0 = (Ok tt, st_loaded) ∧
  ∃ ms k,
    printed st0 st_loaded
    = ms ++ [MLoadComplete; MTotalRecords (length (all_data (self st_loaded)));
             MUniqueStations k;
             MYearsCovered
               (merge_sort Z.le (unique (Year <$> all_data (self st_loaded))));
             MTempRange (fmin_list (Temperature <$> all_data (self st_loaded)))
                        (fmax_list (Temperature <$> all_data (self st_loaded)));
             MSample (take 10 (all_data (self st_loaded)))] ∧
    k = length (station_stats (all_data (self st_loaded))).
Proof.
  assert (H : load_all_data st0 = (Ok tt, st_loaded)) by (vm_compute; reflexivity).
  split; [exact H|].
  destruct (X15_stations_counted st0 st_loaded H) as (ms & k & Hms & Hk & _).
  exists ms, k. split; [exact Hms|exact Hk].
Defined.

Lemma X16_stability_frames_witness :
  (analyze_temperature_stability st_loaded).1
  = Ok (Some [(CStr "BROOME", 1060)], Some [(CStr "ADELAIDE", 9581)]) ∧
  ∀ s sd s' sd',
    (s, sd) ∈ [(CStr "BROOME" : cell Z, 1060)] →
    (s', sd') ∈ [(CStr "ADELAIDE" : cell Z, 9581)] →
    fleb sd sd' = true.
Proof.
  assert (H : (analyze_temperature_stability st_loaded).1
              = Ok (Some [(CStr "BROOME", 1060)], Some [(CStr "ADELAIDE", 9581)]))
    by (vm_compute; reflexivity).
  split; [exact H|].
  exact (proj1 (proj2 (proj2 (proj2 (proj2
           (X16_stability_frames st_loaded _ _ H)))))).
Defined.

Lemma X18_empty_table_witness :
  all_data (self st0) = [] ∧
  (generate_summary_report st0).1 = Raise (KeyError "Year") ∧
  outputs (generate_summary_report st0).2 !! "analysis_summary.txt"
  = Some summary_title.
Proof.
  assert (H : all_data (self st0) = []) by reflexivity.
  split; [exact H|].
  exact (proj2 (proj2 (proj2 (X18_empty_table st0 H)))).
Defined.

Lemma X19_summary_report_witness :
  all_data (self st_loaded) ≠ [] ∧
  ¬ mixed_names (Station <$> all_data (self st_loaded)) ∧
  (generate_summary_report st_loaded).1 = Ok tt.
Proof.
  assert (H : all_data (self st_loaded) ≠ []) by (vm_compute; discriminate).
  assert (Hn : ¬ mixed_names (Station <$> all_data (self st_loaded))).
  { intros [_ (c & Hc & Tc)]. vm_compute in Hc.
    repeat (apply elem_of_cons in Hc as [->|Hc]; [discriminate|]).
    exact (proj1 (elem_of_nil c) Hc). }
  split; [exact H|]. split; [exact Hn|].
  exact (proj1 (proj2 (X19_summary_report st_loaded H) Hn)).
Defined.

Lemma X20_summary_months_witness :
  all_data (self st_loaded) ≠ [] ∧
  ∃ ls,
    outputs (generate_summary_report st_loaded).2 !! "analysis_summary.txt" = Some ls ∧
    omap month_line ls
    = (λ m, (m, mean (temps_of_month (all_data (self st_loaded)) m))) <$> month_columns.
Proof.
  assert (H : all_data (self st_loaded) ≠ []) by (vm_compute; discriminate).
  split; [exact H|].
  destruct (X20_summary_months st_loaded H) as (ls & Hls & Hmonths & _).
  exists ls. split; [exact Hls|exact Hmonths].
Defined.

Lemma X21_run_reports_witness :
  (load_all_data st0).1 = Ok tt ∧
  outputs (run_complete_analysis st0).2 !! "average_temp.txt"
  = Some (seasonal_report
            (reindex season_order
               (group_means season_key (all_data (self (load_all_data st0).2))))).
Proof.
  assert (H : (load_all_data st0).1 = Ok tt) by (vm_compute; reflexivity).
  split; [exact H|].
  exact (proj1 (X21_run_reports st0 H)).
Defined.

Lemma X22_failed_load_writes_nothing_witness :
  (load_all_data st_empty).1 = Raise (FileNotFoundError "temperatures") ∧
  outputs (run_complete_analysis st_empty).2 = outputs st_empty.
Proof.
  assert (H : (load_all_data st_empty).1 = Raise (FileNotFoundError "temperatures"))
    by (vm_compute; reflexivity).
  split; [exact H|].
  exact (proj1 (X22_failed_load_writes_nothing st_empty _ H)).
Defined.

Lemma X23_main_without_data_witness :
  default [] ((∅ : gmap string (list (csv_file Z))) !! "temperatures"%string) = [] ∧
  (main (∅ : gmap string (list (csv_file Z)))).1 = Ok tt.
Proof.
  assert (H : default [] ((∅ : gmap string (list (csv_file Z))) !! "temperatures"%string)
              = []) by reflexivity.
  split; [exact H|].
  exact (f_equal fst (X23_main_without_data ∅ H)).
Defined.

End SampleRuns.
